(** * WeatherPulse: the weather extraction engine, embedded and verified

    A shallow embedding of [app/weather_scraper.py], [app/models.py] and of
    the city validators of [app/utils/helpers.py] and
    [app/utils/validators.py].

    Conventions of the embedding.
    - A Python [str] is the list of its code points.  Texts are taken over
      the code points 0..255 (ASCII and Latin-1), one [ascii] per code
      point; on that range the tables below ([is_digit], [is_space],
      [lower_char]) are the ones CPython uses for [\d], [\s], [str.strip],
      [str.lower] and [re.IGNORECASE].
    - [soup.get_text()] is the input: every extractor takes the flattened
      text of the page.
    - Python floats are IEEE binary64 numbers, here the primitive [float].
    - Code that can raise returns a [res]; a [try/except Exception] that
      returns [None] becomes [catch].
    - [int(s)] refuses a numeral longer than the interpreter's setting
      [sys.get_int_max_str_digits()] (4300 digits unless configured, 0 for
      no limit); that setting is an argument, [int_max_str_digits], of
      every function that converts a numeral.
    - The constructors of the pydantic models are taken as plain record
      constructors: the extractors pass them values of the declared types. *)

From Stdlib Require Import ZArith NArith Ascii String DecimalString.
From Stdlib Require Import Bool List Lia Floats.
Import ListNotations.

(* ================================================================= *)
(** ** Code points and strings *)

Definition str := list ascii.

(** A string literal as a [str]. *)
Definition S_ (s : string) : str := list_ascii_of_string s.

Arguments S_ s%_string.

Definition code (c : ascii) : N := N_of_ascii c.

Definition in_range (lo hi n : N) : bool := ((lo <=? n) && (n <=? hi))%N.

(** [\d] on code points below 256: the decimal digits. *)
Definition is_digit (c : ascii) : bool := in_range 48 57 (code c).

(** [\s] and [str.isspace] on code points below 256. *)
Definition is_space (c : ascii) : bool :=
  let n := code c in
  (in_range 9 13 n || in_range 28 32 n || (n =? 133) || (n =? 160))%N.

Definition is_upper_ascii (c : ascii) : bool := in_range 65 90 (code c).
Definition is_lower_ascii (c : ascii) : bool := in_range 97 122 (code c).
Definition is_letter_ascii (c : ascii) : bool :=
  is_upper_ascii c || is_lower_ascii c.

(** [str.lower] on one code point below 256: A-Z and the Latin-1 capitals
    (all of 192..222 but the multiplication sign 215) move up by 32. *)
Definition lower_char (c : ascii) : ascii :=
  let n := code c in
  if (in_range 65 90 n || (in_range 192 222 n && negb (n =? 215)))%N
  then ascii_of_N (n + 32) else c.

Definition upper_char_ascii (c : ascii) : ascii :=
  if is_lower_ascii c then ascii_of_N (code c - 32) else c.

(** [text.lower()] *)
Definition lower (s : str) : str := map lower_char s.

(** The degree sign, U+00B0, and the line feed. *)
Definition deg : ascii := Eval compute in ascii_of_N 176.
Definition newline : ascii := Eval compute in ascii_of_N 10.

Definition ascii_eqb (a b : ascii) : bool := Ascii.eqb a b.

Fixpoint str_eqb (a b : str) : bool :=
  match a, b with
  | [], [] => true
  | x :: a', y :: b' => ascii_eqb x y && str_eqb a' b'
  | _, _ => false
  end.

(** [s.startswith(p)] *)
Fixpoint starts_with (p s : str) : bool :=
  match p, s with
  | [], _ => true
  | x :: p', y :: s' => ascii_eqb x y && starts_with p' s'
  | _ :: _, [] => false
  end.

(** [needle in hay] *)
Fixpoint contains (needle hay : str) : bool :=
  starts_with needle hay ||
  match hay with
  | [] => false
  | _ :: hay' => contains needle hay'
  end.

(** [s.strip()]: whitespace removed at both ends. *)
Fixpoint lstrip (s : str) : str :=
  match s with
  | c :: s' => if is_space c then lstrip s' else s
  | [] => []
  end.

Definition rstrip (s : str) : str := rev (lstrip (rev s)).

Definition strip (s : str) : str := rstrip (lstrip s).

(** [s.title()], on text whose letters are ASCII: a letter that follows
    a letter is lowered, any other letter is raised.  The keyword
    constants of the source and the names [validate_city_name] accepts
    are such texts; the accented letters of Latin-1, which [str.title]
    cases too, are out of the scope of this definition. *)
Fixpoint title_from (previous_is_cased : bool) (s : str) : str :=
  match s with
  | [] => []
  | c :: s' =>
      (if previous_is_cased then lower_char c else upper_char_ascii c)
        :: title_from (is_letter_ascii c) s'
  end.

Definition title (s : str) : str := title_from false s.

(* ================================================================= *)
(** ** Exceptions *)

Inductive exn : Type :=
| ValueError
| OverflowError.

Inductive res (A : Type) : Type :=
| Ok (a : A)
| Raise (e : exn).

Arguments Ok {A} a.
Arguments Raise {A} e.

Definition bind {A B : Type} (m : res A) (f : A -> res B) : res B :=
  match m with
  | Ok a => f a
  | Raise e => Raise e
  end.

Notation "x <- m ;; k" := (bind m (fun x => k))
  (at level 61, m at next level, right associativity).

(** [try: return body / except Exception: return None] *)
Definition catch {A : Type} (m : res A) : option A :=
  match m with
  | Ok a => Some a
  | Raise _ => None
  end.

(* ================================================================= *)
(** ** Numbers *)

Open Scope Z_scope.
Open Scope list_scope.

Definition digit_value (c : ascii) : Z := Z.of_N (code c) - 48.

(** The value of a run of decimal digits, most significant first. *)
Definition digits_value (ds : str) : Z :=
  fold_left (fun acc c => 10 * acc + digit_value c) ds 0.

(** [sys.int_info.default_max_str_digits] *)
Definition default_max_str_digits : nat := 4300.

(** Is a numeral of [n] digits beyond the limit?  (0 is no limit.) *)
Definition exceeds_limit (int_max_str_digits n : nat) : bool :=
  ((0 <? int_max_str_digits) && (int_max_str_digits <? n))%nat.

(** [int(s)] for a string without sign, blanks or underscores: the value
    of a non-empty run of digits that is not longer than the limit,
    anything else is a [ValueError]. *)
Definition py_int (int_max_str_digits : nat) (s : str) : res Z :=
  match s with
  | [] => Raise ValueError
  | _ =>
      if forallb is_digit s
      then if exceeds_limit int_max_str_digits (length s)
           then Raise ValueError
           else Ok (digits_value s)
      else Raise ValueError
  end.

(** [float(n)] for an integer: the nearest binary64 number, ties to even;
    [OverflowError] when that would be infinite. *)
Definition float_of_int (n : Z) : res float :=
  match binary_normalize prec emax n 0 false with
  | S754_infinity _ => Raise OverflowError
  | sf => Ok (SF2Prim sf)
  end.

(** [TemperatureValidator.celsius_to_fahrenheit]: [(celsius * 9/5) + 32] *)
Definition celsius_to_fahrenheit (celsius : float) : float :=
  (celsius * 9 / 5 + 32)%float.

(** [TemperatureValidator.fahrenheit_to_celsius]: [(fahrenheit - 32) * 5/9] *)
Definition fahrenheit_to_celsius (fahrenheit : float) : float :=
  ((fahrenheit - 32) * 5 / 9)%float.

(** Where the first [c] is: the part before it and, when there is one, the
    part after it. *)
Fixpoint split_at_dot (s : str) : str * option str :=
  match s with
  | [] => ([], None)
  | c :: s' =>
      if ascii_eqb c "."%char then ([], Some s')
      else let (a, b) := split_at_dot s' in (c :: a, b)
  end.

(** The binary64 number nearest to [m / 10^k] (ties to even, infinite on
    overflow): the quotient is taken with 64 bits to spare and a sticky
    last bit, then rounded once. *)
Definition float_of_decimal (m : Z) (k : Z) : float :=
  let d := 10 ^ k in
  let s := Z.max 0 (64 + Z.log2 d - Z.log2 m) in
  let n := m * 2 ^ s in
  let q := n / d in
  let sticky := if n mod d =? 0 then 0 else 1 in
  SF2Prim (binary_normalize prec emax (2 * q + sticky) (- (s + 1)) false).

(** [float(s)] on the numerals a capture group of the source can hold,
    [digits] or [digits.digits]: the nearest binary64 number, [inf] when
    too large.  No other string reaches it; the model answers them with
    [ValueError]. *)
Definition py_float (s : str) : res float :=
  let (ip, fp) := split_at_dot s in
  let fp' := match fp with Some f => f | None => [] end in
  let ok_int := negb (str_eqb ip []) && forallb is_digit ip in
  let ok_frac :=
    match fp with
    | None => true
    | Some f => negb (str_eqb f []) && forallb is_digit f
    end in
  if ok_int && ok_frac
  then Ok (float_of_decimal (digits_value (ip ++ fp')) (Z.of_nat (length fp')))
  else Raise ValueError.

(* ================================================================= *)
(** ** Regular expressions: the fragment of [re] the source uses *)

Module Re.

(** One item of a bracket class. *)
Inductive class_item : Type :=
| CRange (lo hi : ascii)      (* a-z *)
| CChar (c : ascii)           (* a literal or escaped character *)
| CSpace.                     (* \s *)

(** What consumes exactly one character. *)
Inductive atom : Type :=
| Lit (c : ascii)             (* a literal character *)
| Digit                       (* \d *)
| Space                       (* \s *)
| Dot                         (* .  (no DOTALL: anything but a newline) *)
| Class (items : list class_item).   (* [...] *)

Inductive regex : Type :=
| Eps
| Chr (a : atom)
| Seq (r1 r2 : regex)
| Alt (r1 r2 : regex)         (* r1|r2 *)
| Star (greedy : bool) (r : regex)   (* r*  and  r*? *)
| Group (r : regex)           (* ( r ), the one capturing group *)
| Bol                         (* ^ *)
| Eol.                        (* $ *)

(** r+ and r? *)
Definition Plus (r : regex) : regex := Seq r (Star true r).
Definition Opt (r : regex) : regex := Alt r Eps.

(** A sequence of sub-patterns and a literal word. *)
Fixpoint Cat (rs : list regex) : regex :=
  match rs with
  | [] => Eps
  | r :: rs' => Seq r (Cat rs')
  end.

Fixpoint Word (w : str) : regex :=
  match w with
  | [] => Eps
  | c :: w' => Seq (Chr (Lit c)) (Word w')
  end.

Definition item_accepts (it : class_item) (x : ascii) : bool :=
  match it with
  | CRange lo hi => in_range (code lo) (code hi) (code x)
  | CChar c => ascii_eqb x c
  | CSpace => is_space x
  end.

(** Does the atom accept [x]?  [ic] is [re.IGNORECASE]; it bears on
    literals (no pattern of the source puts a class under that flag). *)
Definition accepts (ic : bool) (a : atom) (x : ascii) : bool :=
  match a with
  | Lit c => if ic then ascii_eqb (lower_char x) (lower_char c)
             else ascii_eqb x c
  | Digit => is_digit x
  | Space => is_space x
  | Dot => negb (ascii_eqb x newline)
  | Class items => existsb (fun it => item_accepts it x) items
  end.

(** The state of a match in progress: how many characters of the subject
    lie before the cursor, what is left, and group 1 if it is set. *)
Record mstate : Type := MS {
  pos : nat;
  rest : str;
  grp : option str
}.

Definition set_grp (g : str) (m : mstate) : mstate :=
  MS (pos m) (rest m) (Some g).

(** The first answer, if there is one; the second is asked for only when
    there is none. *)
Definition orelse {A : Type} (x : option A) (y : unit -> option A)
  : option A :=
  match x with
  | Some _ => x
  | None => y tt
  end.

(** The loop of a star: [body] runs the starred pattern once.  A turn
    that consumes nothing is not taken, so the number of characters left
    is enough fuel. *)
Fixpoint star_loop (body : (mstate -> option mstate) -> mstate -> option mstate)
    (greedy : bool) (k : mstate -> option mstate) (fuel : nat) (m : mstate)
    {struct fuel} : option mstate :=
  let more (_ : unit) :=
    match fuel with
    | O => None
    | S fuel' =>
        body (fun m' => if (pos m <? pos m')%nat
                        then star_loop body greedy k fuel' m' else None) m
    end in
  if greedy then orelse (more tt) (fun _ => k m) else orelse (k m) more.

(** The backtracking matcher, in continuation-passing style: alternatives
    are tried in the order [re] tries them (left branch first, a greedy
    star the longer way first, a lazy star the shorter way first) and the
    first one the continuation accepts is the answer. *)
Fixpoint run (ic : bool) (r : regex) (k : mstate -> option mstate)
    (m : mstate) {struct r} : option mstate :=
  match r with
  | Eps => k m
  | Chr a =>
      match rest m with
      | x :: t => if accepts ic a x then k (MS (S (pos m)) t (grp m)) else None
      | [] => None
      end
  | Seq r1 r2 => run ic r1 (run ic r2 k) m
  | Alt r1 r2 => orelse (run ic r1 k m) (fun _ => run ic r2 k m)
  | Star greedy r1 => star_loop (run ic r1) greedy k (length (rest m)) m
  | Group r1 =>
      run ic r1
        (fun m' => k (set_grp (firstn (pos m' - pos m) (rest m)) m')) m
  | Bol => if (pos m =? 0)%nat then k m else None
  | Eol =>
      match rest m with
      | [] => k m
      | [c] => if ascii_eqb c newline then k m else None
      | _ => None
      end
  end.

(** A match object: where the match starts and the state at its end. *)
Record match_obj : Type := MO {
  mstart : nat;
  mend : mstate
}.

(** [m.group(1)] *)
Definition group1 (mo : match_obj) : str :=
  match grp (mend mo) with
  | Some g => g
  | None => []
  end.

(** [re.match]: a match that starts at the beginning of the subject. *)
Definition re_match (ic : bool) (r : regex) (s : str) : option match_obj :=
  option_map (MO 0) (run ic r Some (MS 0 s None)).

(** The leftmost match at or after the cursor. *)
Fixpoint search_from (ic : bool) (r : regex) (p : nat) (s : str)
  : option match_obj :=
  match run ic r Some (MS p s None) with
  | Some m => Some (MO p m)
  | None =>
      match s with
      | [] => None
      | _ :: s' => search_from ic r (S p) s'
      end
  end.

(** [re.search] *)
Definition re_search (ic : bool) (r : regex) (s : str) : option match_obj :=
  search_from ic r 0 s.

(** [re.findall] for a pattern with one group: group 1 of each match, left
    to right, each search resuming where the last match ended (one
    character further after an empty match). *)
Fixpoint findall_from (fuel : nat) (ic : bool) (r : regex) (p : nat) (s : str)
  : list str :=
  match fuel with
  | O => []
  | S fuel' =>
      match search_from ic r p s with
      | None => []
      | Some mo =>
          group1 mo ::
          (if (mstart mo <? pos (mend mo))%nat
           then findall_from fuel' ic r (pos (mend mo)) (rest (mend mo))
           else match rest (mend mo) with
                | [] => []
                | _ :: t => findall_from fuel' ic r (S (pos (mend mo))) t
                end)
      end
  end.

Definition re_findall (ic : bool) (r : regex) (s : str) : list str :=
  findall_from (S (length s)) ic r 0 s.

End Re.

Import Re.

(** [IGNORECASE] *)
Definition IGNORECASE : bool := true.
Definition NOFLAGS : bool := false.

(* ================================================================= *)
(** ** Dates: the part of [datetime] the source uses *)

(** A [datetime]: the day as its proleptic Gregorian ordinal (day 1 is
    0001-01-01, as [date.toordinal]) and the time within the day. *)
Record datetime : Type := DT {
  ordinal : Z;
  microsecond_of_day : Z
}.

(** [date.max.toordinal()], 9999-12-31. *)
Definition MAXORDINAL : Z := 3652059.

(** [timedelta(days=n)]: the magnitude is limited to 999999999 days. *)
Definition timedelta_days (n : Z) : res Z :=
  if Z.abs n <=? 999999999 then Ok n else Raise OverflowError.

(** [dt + delta], for a delta of whole days. *)
Definition datetime_add (dt : datetime) (delta : Z) : res datetime :=
  let o := ordinal dt + delta in
  if (1 <=? o) && (o <=? MAXORDINAL)
  then Ok (DT o (microsecond_of_day dt))
  else Raise OverflowError.

Definition DAYS_BEFORE_MONTH (month : Z) : Z :=
  nth (Z.to_nat month) [0; 0; 31; 59; 90; 120; 151; 181; 212; 243; 273; 304; 334] 0.

Definition DAYS_IN_MONTH (month : Z) : Z :=
  nth (Z.to_nat month) [0; 31; 28; 31; 30; 31; 30; 31; 31; 30; 31; 30; 31] 0.

Definition b2z (b : bool) : Z := if b then 1 else 0.

(** The calendar date of an ordinal, [(year, month, day)], by the
    400/100/4/1-year cycles. *)
Definition ord2ymd (n : Z) : Z * Z * Z :=
  let n := n - 1 in
  let n400 := n / 146097 in
  let n := n mod 146097 in
  let year := n400 * 400 + 1 in
  let n100 := n / 36524 in
  let n := n mod 36524 in
  let n4 := n / 1461 in
  let n := n mod 1461 in
  let n1 := n / 365 in
  let n := n mod 365 in
  let year := year + n100 * 100 + n4 * 4 + n1 in
  if (n1 =? 4) || (n100 =? 4) then (year - 1, 12, 31)
  else
    let leapyear := (n1 =? 3) && (negb (n4 =? 24) || (n100 =? 3)) in
    let month := Z.shiftr (n + 50) 5 in
    let preceding := DAYS_BEFORE_MONTH month + b2z ((2 <? month) && leapyear) in
    if n <? preceding
    then
      let month := month - 1 in
      let preceding :=
        preceding - (DAYS_IN_MONTH month + b2z ((month =? 2) && leapyear)) in
      (year, month, n - preceding + 1)
    else (year, month, n - preceding + 1).

(** [str(n)] for an integer. *)
Definition str_of_int (n : Z) : str :=
  list_ascii_of_string (NilZero.string_of_int (Z.to_int n)).

(** A non-negative number on at least [width] digits, zeros in front. *)
Definition zero_padded (width : nat) (n : Z) : str :=
  let s := str_of_int n in
  repeat "0"%char (width - length s) ++ s.

(** [dt.strftime("%Y-%m-%d")], the year on four digits as documented
    (a C library may leave out the zeros of a year before 1000, which the
    clock of the source never gives). *)
Definition strftime_ymd (dt : datetime) : str :=
  let '(y, m, d) := ord2ymd (ordinal dt) in
  zero_padded 4 y ++ S_ "-" ++ zero_padded 2 m ++ S_ "-" ++ zero_padded 2 d.

(* ================================================================= *)
(** ** Computations that read the clock *)

(** The clock is the sequence of values [datetime.now()] returns, call
    after call; a computation is given the number of calls made so far
    and returns its result (or the exception it raises) with the number
    of calls made when it ends. *)
Definition clock_t := nat -> datetime.

Definition M (A : Type) : Type := clock_t -> nat -> res A * nat.

Definition ret {A : Type} (a : A) : M A := fun _ t => (Ok a, t).

Definition lift {A : Type} (r : res A) : M A := fun _ t => (r, t).

Definition bindM {A B : Type} (m : M A) (f : A -> M B) : M B :=
  fun clock t =>
    match m clock t with
    | (Ok a, t') => f a clock t'
    | (Raise e, t') => (Raise e, t')
    end.

Notation "x <~ m ;; k" := (bindM m (fun x => k))
  (at level 61, m at next level, right associativity).

(** [datetime.now()] *)
Definition now : M datetime := fun clock t => (Ok (clock t), S t).

(** [try: return body / except Exception: return None], in [M]. *)
Definition catchM {A : Type} (m : M A) : clock_t -> nat -> option A * nat :=
  fun clock t => let (r, t') := m clock t in (catch r, t').

(** [range(n)] *)
Definition range (n : Z) : list Z := map Z.of_nat (seq 0 (Z.to_nat n)).

(** [for i in l: out.append(body(i))], the list [out] at the end. *)
Fixpoint for_append {A : Type} (body : Z -> M A) (l : list Z) : M (list A) :=
  match l with
  | [] => ret []
  | i :: l' =>
      a <~ body i ;;
      out <~ for_append body l' ;;
      ret (a :: out)
  end.

(* ================================================================= *)
(** ** [models.py] *)

Module CurrentWeather.
Record t : Type := Build {
    temperature : float;
    temperature_fahrenheit : option float;
    condition : str;
    humidity : option Z;
    pressure : option float;
    wind_speed : option float;
    wind_direction : option str;
    visibility : option float;
    uv_index : option Z;
    air_quality : option str
  }.
End CurrentWeather.

Module DailyForecast.
Record t : Type := Build {
    date : str;
    high_temp : float;
    low_temp : float;
    condition : str;
    precipitation_chance : option Z
  }.
End DailyForecast.

Module WeatherResponse.
Record t : Type := Build {
    city : str;
    state : option str;
    country : str;
    current_weather : CurrentWeather.t;
    forecast : option (list DailyForecast.t);
    last_updated : datetime;
    data_source : str
  }.
End WeatherResponse.

(** The mapping [scrape_forecast_data] returns, and its entries. *)
Module ForecastDay.
Record t : Type := Build {
    date : str;
    high_temp : Z;
    low_temp : Z;
    condition : str;
    precipitation : str
  }.
End ForecastDay.

Module ForecastData.
Record t : Type := Build {
    city : str;
    forecast_days : Z;
    forecast : list ForecastDay.t
  }.
End ForecastData.

(* ================================================================= *)
(** ** [weather_scraper.py]: the matchers *)

Definition digits : regex := Plus (Chr Digit).

(** [\d+(?:\.\d+)?] *)
Definition decimal : regex :=
  Seq digits (Opt (Seq (Chr (Lit "."%char)) digits)).

(** [(\d+)°C] *)
Definition celsius_re : regex := Cat [Group digits; Word [deg; "C"%char]].

(** [(\d+)°F] *)
Definition fahrenheit_re : regex := Cat [Group digits; Word [deg; "F"%char]].

(** [temperature.*?(\d+)] *)
Definition temperature_re : regex :=
  Cat [Word (S_ "temperature"); Star false (Chr Dot); Group digits].

(** [(\d+)\s*degrees] *)
Definition degrees_re : regex :=
  Cat [Group digits; Star true (Chr Space); Word (S_ "degrees")].

Definition temp_patterns : list regex :=
  [celsius_re; fahrenheit_re; temperature_re; degrees_re].

(** ['°C' in text_content or 'celsius' in text_content.lower()] *)
Definition celsius_in_text (text_content : str) : bool :=
  contains [deg; "C"%char] text_content
  || contains (S_ "celsius") (lower text_content).

(** The loop over [temp_patterns]: the pair
    [(temp_celsius, temp_fahrenheit)] set by the first pattern that has a
    match, [None] when the loop ends without one. *)
Fixpoint temperature_loop (int_max_str_digits : nat) (patterns : list regex)
    (text_content : str) : res (option (float * float)) :=
  match patterns with
  | [] => Ok None
  | pattern :: patterns' =>
      match re_findall IGNORECASE pattern text_content with
      | [] => temperature_loop int_max_str_digits patterns' text_content
      | first :: _ =>
          temp_value <- py_int int_max_str_digits first ;;
          if celsius_in_text text_content
          then
            temp_celsius <- float_of_int temp_value ;;
            Ok (Some (temp_celsius, (temp_celsius * 9 / 5 + 32)%float))
          else
            temp_fahrenheit <- float_of_int temp_value ;;
            Ok (Some (((temp_fahrenheit - 32) * 5 / 9)%float, temp_fahrenheit))
      end
  end.

(** The first entry of [keywords] that satisfies [found]. *)
Fixpoint first_keyword (found : str -> bool) (keywords : list str)
  : option str :=
  match keywords with
  | [] => None
  | k :: keywords' => if found k then Some k else first_keyword found keywords'
  end.

Definition conditions : list str :=
  [ S_ "sunny"; S_ "cloudy"; S_ "rainy"; S_ "stormy"; S_ "clear";
    S_ "overcast"; S_ "partly cloudy"; S_ "mostly cloudy" ].

Definition _extract_condition (text : str) : str :=
  let text_content := lower text in
  match first_keyword (fun condition => contains condition text_content)
          conditions with
  | Some condition => title condition
  | None => S_ "Partly Cloudy"
  end.

(** [humidity.*?(\d+)%] *)
Definition humidity_re : regex :=
  Cat [Word (S_ "humidity"); Star false (Chr Dot); Group digits;
       Chr (Lit "%"%char)].

Definition _extract_humidity (int_max_str_digits : nat) (text : str)
  : res (option Z) :=
  match re_search IGNORECASE humidity_re text with
  | Some humidity_match =>
      v <- py_int int_max_str_digits (group1 humidity_match) ;; Ok (Some v)
  | None => Ok None
  end.

(** [pressure.*?(\d+(?:\.\d+)?)\s*(?:mb|hpa)] *)
Definition pressure_re : regex :=
  Cat [Word (S_ "pressure"); Star false (Chr Dot); Group decimal;
       Star true (Chr Space); Alt (Word (S_ "mb")) (Word (S_ "hpa"))].

Definition _extract_pressure (text : str) : res (option float) :=
  match re_search IGNORECASE pressure_re text with
  | Some pressure_match => v <- py_float (group1 pressure_match) ;; Ok (Some v)
  | None => Ok None
  end.

(** [wind.*?(\d+(?:\.\d+)?)\s*(?:km/h|mph)] *)
Definition wind_re : regex :=
  Cat [Word (S_ "wind"); Star false (Chr Dot); Group decimal;
       Star true (Chr Space); Alt (Word (S_ "km/h")) (Word (S_ "mph"))].

Definition _extract_wind_speed (text : str) : res (option float) :=
  match re_search IGNORECASE wind_re text with
  | Some wind_match => v <- py_float (group1 wind_match) ;; Ok (Some v)
  | None => Ok None
  end.

Definition directions : list str :=
  [ S_ "N"; S_ "NE"; S_ "E"; S_ "SE"; S_ "S"; S_ "SW"; S_ "W"; S_ "NW";
    S_ "North"; S_ "South"; S_ "East"; S_ "West" ].

(** [f" {direction} " in text or f"{direction}E" in text
     or f"{direction}W" in text] *)
Definition direction_found (text_content direction : str) : bool :=
  contains (S_ " " ++ direction ++ S_ " ") text_content
  || contains (direction ++ S_ "E") text_content
  || contains (direction ++ S_ "W") text_content.

Definition _extract_wind_direction (text : str) : option str :=
  first_keyword (direction_found text) directions.

(** [visibility.*?(\d+(?:\.\d+)?)\s*km] *)
Definition visibility_re : regex :=
  Cat [Word (S_ "visibility"); Star false (Chr Dot); Group decimal;
       Star true (Chr Space); Word (S_ "km")].

Definition _extract_visibility (text : str) : res (option float) :=
  match re_search IGNORECASE visibility_re text with
  | Some visibility_match =>
      v <- py_float (group1 visibility_match) ;; Ok (Some v)
  | None => Ok None
  end.

(** [uv.*?(\d+)] *)
Definition uv_re : regex :=
  Cat [Word (S_ "uv"); Star false (Chr Dot); Group digits].

Definition _extract_uv_index (int_max_str_digits : nat) (text : str)
  : res (option Z) :=
  match re_search IGNORECASE uv_re text with
  | Some uv_match =>
      v <- py_int int_max_str_digits (group1 uv_match) ;; Ok (Some v)
  | None => Ok None
  end.

Definition aqi_qualities : list str :=
  [ S_ "good"; S_ "moderate"; S_ "unhealthy"; S_ "hazardous"; S_ "excellent" ].

Definition _extract_air_quality (text : str) : option str :=
  let text_content := lower text in
  option_map title
    (first_keyword (fun quality => contains quality text_content) aqi_qualities).

(* ================================================================= *)
(** ** [weather_scraper.py]: the assembler *)

Definition current_weather_body (int_max_str_digits : nat)
    (text_content : str) : res CurrentWeather.t :=
  found <- temperature_loop int_max_str_digits temp_patterns text_content ;;
  let '(temp_celsius, temp_fahrenheit) :=
    match found with
    | Some temps => temps
    | None => (25%float, 77%float)      (* default fallback *)
    end in
  let condition := _extract_condition text_content in
  humidity <- _extract_humidity int_max_str_digits text_content ;;
  pressure <- _extract_pressure text_content ;;
  wind_speed <- _extract_wind_speed text_content ;;
  let wind_direction := _extract_wind_direction text_content in
  visibility <- _extract_visibility text_content ;;
  uv_index <- _extract_uv_index int_max_str_digits text_content ;;
  let air_quality := _extract_air_quality text_content in
  Ok (CurrentWeather.Build temp_celsius (Some temp_fahrenheit) condition
        humidity pressure wind_speed wind_direction visibility uv_index
        air_quality).

Definition _extract_current_weather (int_max_str_digits : nat) (text : str)
  : option CurrentWeather.t :=
  catch (current_weather_body int_max_str_digits text).

(* ================================================================= *)
(** ** [weather_scraper.py]: the forecasts *)

(** [(datetime.now() + timedelta(days=i)).strftime("%Y-%m-%d")] *)
Definition forecast_date (i : Z) : M str :=
  today <~ now ;;
  delta <~ lift (timedelta_days i) ;;
  day <~ lift (datetime_add today delta) ;;
  ret (strftime_ymd day).

(** One turn of the loop of [_extract_forecast_data]. *)
Definition sample_forecast_entry (i : Z) : M DailyForecast.t :=
  date <~ forecast_date i ;;
  fi <~ lift (float_of_int i) ;;
  ret (DailyForecast.Build date (28 + fi)%float (22 + fi)%float
         (S_ "Partly Cloudy") (Some 30)).

Definition _extract_forecast_data
  : clock_t -> nat -> option (list DailyForecast.t) * nat :=
  catchM (for_append sample_forecast_entry (range 7)).

(** One turn of the loop of [scrape_forecast_data]. *)
Definition forecast_day_entry (i : Z) : M ForecastDay.t :=
  date <~ forecast_date i ;;
  ret (ForecastDay.Build date (28 + i mod 3) (22 + i mod 2)
         (S_ "Partly Cloudy") (str_of_int (30 + i * 5) ++ S_ "%")).

Definition scrape_forecast_data (city : str) (days : Z)
  : clock_t -> nat -> option ForecastData.t * nat :=
  catchM (
    entries <~ for_append forecast_day_entry (range days) ;;
    ret (ForecastData.Build city days entries)).

(* ================================================================= *)
(** ** [weather_scraper.py]: the record builder *)

(** [country or "India"] *)
Definition country_or_India (country : option str) : str :=
  match country with
  | None => S_ "India"
  | Some [] => S_ "India"
  | Some c => c
  end.

Definition _parse_bing_weather (int_max_str_digits : nat) (text : str)
    (city : str) (state : option str) (country : option str)
  : clock_t -> nat -> option WeatherResponse.t * nat :=
  fun clock t =>
    match _extract_current_weather int_max_str_digits text with
    | None => (None, t)
    | Some current_weather =>
        let (forecast, t1) := _extract_forecast_data clock t in
        let (r, t2) := now clock t1 in
        (catch (last_updated <- r ;;
                Ok (WeatherResponse.Build city state (country_or_India country)
                      current_weather forecast last_updated
                      (S_ "Bing Weather"))),
         t2)
    end.

(* ================================================================= *)
(** ** [utils/helpers.py] and [utils/validators.py]: city names *)

(** [[a-zA-Z\s\-'\.]] *)
Definition city_class : atom :=
  Class [CRange "a"%char "z"%char; CRange "A"%char "Z"%char; CSpace;
         CChar "-"%char; CChar "'"%char; CChar "."%char].

(** [^[a-zA-Z\s\-'\.]+$] *)
Definition city_re : regex := Cat [Bol; Plus (Chr city_class); Eol].

(** [bool(m)] for the result of [re.match]. *)
Definition matched (m : option match_obj) : bool :=
  match m with
  | Some _ => true
  | None => false
  end.

(** [helpers.validate_city_name] *)
Definition validate_city_name (city : str) : bool :=
  if str_eqb city [] || (length (strip city) <? 2)%nat then false
  else matched (re_match NOFLAGS city_re (strip city)).

Module CityValidator.
(** [CityValidator.validate_city_name] *)
Definition validate_city_name (city : str) : bool :=
    if str_eqb city [] || (length (strip city) <? 2)%nat then false
    else matched (re_match NOFLAGS city_re (strip city)).
End CityValidator.

(** A clock that stays within one day. *)
Definition noon (day : Z) : clock_t := fun _ => DT day 43200000000.

Definition sample_text : str :=
  S_ "Temperature: 25" ++ deg :: S_ "C Sunny weather Humidity: 60%".


(* ================================================================= *)
(** ** [weather_scraper.py]: the request *)

(** [s.replace(' ', '+')] *)
Definition spaces_to_plus (s : str) : str :=
  map (fun c => if ascii_eqb c " "%char then "+"%char else c) s.

(** The address [scrape_weather_data] fetches:
    [base_urls['bing'].format(city=search_query.replace(' ', '+'))], the
    query being the city, then the state if there is one, then the word
    "weather". *)
Definition bing_url (city : str) (state : option str) : str :=
  let search_query := city in
  let search_query :=
    match state with
    | Some (c :: s) => search_query ++ S_ " " ++ (c :: s)
    | _ => search_query
    end in
  let search_query := search_query ++ S_ " weather" in
  S_ "https://www.bing.com/search?q=" ++ spaces_to_plus search_query
    ++ S_ "+weather".

Section Network.

(** The collaborators of [scrape_weather_data]: the GET request, which
    gives a status and a body or raises, and [BeautifulSoup(...).get_text()]. *)
Variable http_get : str -> res (Z * str).
Variable soup_text : str -> str.

Definition scrape_weather_data (int_max_str_digits : nat) (city : str)
    (state country : option str)
  : clock_t -> nat -> option WeatherResponse.t * nat :=
  fun clock t =>
    match http_get (bing_url city state) with
    | Raise _ => (None, t)
    | Ok (status, html_content) =>
        if status =? 200
        then _parse_bing_weather int_max_str_digits (soup_text html_content)
               city state country clock t
        else (None, t)
    end.

End Network.

(* ================================================================= *)
(** ** [utils/validators.py] *)

Module TemperatureValidator.

Definition validate_celsius (temp : float) : bool :=
  PrimFloat.leb (-100) temp && PrimFloat.leb temp 60.

Definition validate_fahrenheit (temp : float) : bool :=
  PrimFloat.leb (-148) temp && PrimFloat.leb temp 140.

End TemperatureValidator.

Module WeatherDataValidator.

Definition validate_humidity (humidity : option Z) : bool :=
  match humidity with
  | None => true
  | Some h => (0 <=? h) && (h <=? 100)
  end.

Definition validate_uv_index (uv_index : option Z) : bool :=
  match uv_index with
  | None => true
  | Some u => (0 <=? u) && (u <=? 15)
  end.

End WeatherDataValidator.

Module WeatherConditionValidator.

Definition VALID_CONDITIONS : list str :=
  [ S_ "clear"; S_ "sunny"; S_ "partly cloudy"; S_ "mostly cloudy";
    S_ "cloudy"; S_ "overcast";
    S_ "light rain"; S_ "rain"; S_ "heavy rain"; S_ "drizzle"; S_ "showers";
    S_ "thunderstorm"; S_ "snow"; S_ "light snow"; S_ "heavy snow";
    S_ "sleet";
    S_ "fog"; S_ "mist"; S_ "haze"; S_ "windy"; S_ "calm" ].

(** [x in VALID_CONDITIONS] *)
Definition is_valid_condition (x : str) : bool :=
  existsb (str_eqb x) VALID_CONDITIONS.

Definition validate_condition (condition : str) : bool :=
  if str_eqb condition [] then false
  else is_valid_condition (strip (lower condition)).

End WeatherConditionValidator.

(* ================================================================= *)
(** ** [utils/helpers.py] *)

(** The mapping of [parse_weather_condition], in the order it is
    written (the order a [dict] is gone through). *)
Definition condition_mapping : list (str * list str) :=
  [ (S_ "clear", [S_ "clear"; S_ "sunny"; S_ "bright"]);
    (S_ "partly cloudy",
       [S_ "partly cloudy"; S_ "partly sunny"; S_ "few clouds"]);
    (S_ "mostly cloudy", [S_ "mostly cloudy"; S_ "broken clouds"]);
    (S_ "cloudy", [S_ "cloudy"; S_ "overcast"; S_ "gray"]);
    (S_ "rain", [S_ "rain"; S_ "rainy"; S_ "precipitation"]);
    (S_ "drizzle", [S_ "drizzle"; S_ "light rain"; S_ "sprinkle"]);
    (S_ "thunderstorm", [S_ "thunderstorm"; S_ "thunder"; S_ "storm"]);
    (S_ "snow", [S_ "snow"; S_ "snowy"; S_ "snowfall"]);
    (S_ "fog", [S_ "fog"; S_ "foggy"; S_ "mist"; S_ "misty"]);
    (S_ "wind", [S_ "windy"; S_ "breezy"; S_ "gusty"]) ].

(** The two loops: the first entry of the mapping one of whose keywords
    satisfies [found]. *)
Fixpoint first_normalized (found : str -> bool)
    (mapping : list (str * list str)) : option str :=
  match mapping with
  | [] => None
  | (normalized, keywords) :: mapping' =>
      match first_keyword found keywords with
      | Some _ => Some normalized
      | None => first_normalized found mapping'
      end
  end.

(** [parse_weather_condition]; the last line, which titles the text
    itself, is modelled for texts whose letters are ASCII. *)
Definition parse_weather_condition (condition_text : str) : str :=
  if str_eqb condition_text [] then S_ "Unknown"
  else
    let condition_lower := lower condition_text in
    match first_normalized (fun keyword => contains keyword condition_lower)
            condition_mapping with
    | Some normalized => title normalized
    | None => title condition_text
    end.

(** [round(x)] for a float: the nearest integer, ties to the even one;
    [ValueError] for a NaN and [OverflowError] for an infinity. *)
Definition py_round (x : float) : res Z :=
  match Prim2SF x with
  | S754_nan => Raise ValueError
  | S754_infinity _ => Raise OverflowError
  | S754_zero _ => Ok 0
  | S754_finite s m e =>
      let n :=
        if 0 <=? e then Zpos m * 2 ^ e
        else
          let d := 2 ^ (- e) in
          let q := Zpos m / d in
          let r := Zpos m mod d in
          if 2 * r <? d then q
          else if d <? 2 * r then q + 1
          else if Z.even q then q else q + 1 in
      Ok (if s then - n else n)
  end.

Definition compass : list str :=
  [ S_ "N"; S_ "NNE"; S_ "NE"; S_ "ENE"; S_ "E"; S_ "ESE"; S_ "SE";
    S_ "SSE"; S_ "S"; S_ "SSW"; S_ "SW"; S_ "WSW"; S_ "W"; S_ "WNW";
    S_ "NW"; S_ "NNW" ].

(** What calling a helper gives: a value, an exception of the
    conversions, or the [IndexError] of a list. *)
Inductive outcome (A : Type) : Type :=
| Returns (a : A)
| Raises (e : exn)
| IndexError.

Arguments Returns {A} a.
Arguments Raises {A} e.
Arguments IndexError {A}.

(** [l[i]] for an index that is not negative. *)
Definition item {A : Type} (l : list A) (i : Z) : outcome A :=
  match nth_error l (Z.to_nat i) with
  | Some a => Returns a
  | None => IndexError
  end.

(** [format_wind_direction] *)
Definition format_wind_direction (degrees : option float) : outcome str :=
  match degrees with
  | None => Returns (S_ "Variable")
  | Some d =>
      match py_round (d / 22.5)%float with
      | Raise e => Raises e
      | Ok rounded => let index := rounded mod 16 in item compass index
      end
  end.

(** [s.split()]: the words of [s], a word being a longest run of
    characters that are not whitespace. *)
Fixpoint split_whitespace (s : str) : list str :=
  match s with
  | [] => []
  | c :: s' =>
      if is_space c then split_whitespace s'
      else
        match s' with
        | [] => [[c]]
        | d :: _ =>
            if is_space d then [c] :: split_whitespace s'
            else
              match split_whitespace s' with
              | w :: ws => (c :: w) :: ws
              | [] => [[c]]
              end
        end
  end.

(** [sep.join(l)] *)
Fixpoint join (sep : str) (l : list str) : str :=
  match l with
  | [] => []
  | [w] => w
  | w :: l' => w ++ sep ++ join sep l'
  end.

(** [CityValidator.sanitize_city_name] ([title] is that of ASCII text,
    which the names [validate_city_name] accepts are, whitespace
    apart). *)
Definition sanitize_city_name (city : str) : str :=
  if str_eqb city [] then []
  else
    let sanitized := join (S_ " ") (split_whitespace (strip city)) in
    title sanitized.

(* ================================================================= *)
(** ** [main.py]: the handlers *)

(** What a handler gives FastAPI: the body of the answer, or an
    [HTTPException]. *)
Inductive reply (A : Type) : Type :=
| Body (a : A)
| HTTPException (status_code : Z) (detail : str).

Arguments Body {A} a.
Arguments HTTPException {A} status_code detail.

(** [try: body / except Exception as e: handler]; an [HTTPException] is
    an [Exception], so one raised in the body is handled too. *)
Definition try_except {A : Type} (body handler : reply A) : reply A :=
  match body with
  | Body a => Body a
  | HTTPException _ _ => handler
  end.

(** [if not data: raise HTTPException(404, detail)] then [return data] *)
Definition found_or_404 {A : Type} (data : option A) (detail : str)
  : reply A :=
  match data with
  | None => HTTPException 404 detail
  | Some a => Body a
  end.

Section Handlers.

Variable http_get : str -> res (Z * str).
Variable soup_text : str -> str.
Variable int_max_str_digits : nat.

Definition get_weather (city : str)
  : clock_t -> nat -> reply WeatherResponse.t * nat :=
  fun clock t =>
    let (weather_data, t') :=
      scrape_weather_data http_get soup_text int_max_str_digits
        city None None clock t in
    (try_except
       (found_or_404 weather_data (S_ "Weather data not found for " ++ city))
       (HTTPException 500 (S_ "Failed to fetch weather data")),
     t').

Definition search_weather (city : str) (state country : option str)
  : clock_t -> nat -> reply WeatherResponse.t * nat :=
  fun clock t =>
    let (weather_data, t') :=
      scrape_weather_data http_get soup_text int_max_str_digits
        city state country clock t in
    (try_except
       (found_or_404 weather_data (S_ "Weather data not found"))
       (HTTPException 500 (S_ "Failed to search weather data")),
     t').

End Handlers.

Definition get_weather_forecast (city : str) (days : Z)
  : clock_t -> nat -> reply ForecastData.t * nat :=
  fun clock t =>
    let (forecast_data, t') := scrape_forecast_data city days clock t in
    (try_except
       (found_or_404 forecast_data (S_ "Forecast data not found for " ++ city))
       (HTTPException 500 (S_ "Failed to fetch forecast data")),
     t').

(* ================================================================= *)
(** ** What a match is: the relation the matcher implements *)

(** [matches ic r m m']: from state [m], the pattern [r] can consume a
    prefix of what is left and end in state [m'].  A turn of a star has
    to consume something. *)
Inductive matches (ic : bool) : regex -> mstate -> mstate -> Prop :=
| M_Eps : forall m, matches ic Eps m m
| M_Chr : forall a p x t g,
    accepts ic a x = true ->
    matches ic (Chr a) (MS p (x :: t) g) (MS (S p) t g)
| M_Seq : forall r1 r2 m m1 m2,
    matches ic r1 m m1 -> matches ic r2 m1 m2 ->
    matches ic (Seq r1 r2) m m2
| M_AltL : forall r1 r2 m m',
    matches ic r1 m m' -> matches ic (Alt r1 r2) m m'
| M_AltR : forall r1 r2 m m',
    matches ic r2 m m' -> matches ic (Alt r1 r2) m m'
| M_StarStop : forall greedy r m, matches ic (Star greedy r) m m
| M_StarMore : forall greedy r m m1 m2,
    matches ic r m m1 -> (pos m < pos m1)%nat ->
    matches ic (Star greedy r) m1 m2 ->
    matches ic (Star greedy r) m m2
| M_Group : forall r m m',
    matches ic r m m' ->
    matches ic (Group r) m (set_grp (firstn (pos m' - pos m) (rest m)) m')
| M_Bol : forall m, pos m = 0%nat -> matches ic Bol m m
| M_Eol : forall m,
    rest m = [] \/ rest m = [newline] -> matches ic Eol m m.

(** [mid] reads the literal word [w]: character by character, the literal
    accepts it. *)
Fixpoint word_accepts (ic : bool) (w mid : str) : bool :=
  match w, mid with
  | [], [] => true
  | c :: w', x :: mid' => accepts ic (Lit c) x && word_accepts ic w' mid'
  | _, _ => false
  end.

(** The pattern has a match that starts after the first [start]
    characters of [text]. *)
Definition matches_at (ic : bool) (r : regex) (text : str) (start : nat)
  : Prop :=
  exists m', matches ic r (MS start (skipn start text) None) m'.

(** The pattern has a match somewhere in [text]. *)
Definition has_match (ic : bool) (r : regex) (text : str) : Prop :=
  exists start, (start <= length text)%nat /\ matches_at ic r text start.

(** [needle] is a substring of [hay]. *)
Definition occurs (needle hay : str) : Prop :=
  exists pre post, hay = pre ++ needle ++ post.

(** A substring of [text] reads [keyword] once lowered: the (lower-case)
    keyword occurs, whatever the case of the text. *)
Definition occurs_ignoring_case (keyword text : str) : Prop :=
  exists pre mid post, text = pre ++ mid ++ post /\ lower mid = keyword.

(** The claim C9 as it is worded: every text that holds "partly cloudy"
    or "mostly cloudy" is answered "Cloudy". *)
Definition always_cloudy_claim : Prop :=
  forall text,
    occurs_ignoring_case (S_ "partly cloudy") text
    \/ occurs_ignoring_case (S_ "mostly cloudy") text ->
    _extract_condition text = S_ "Cloudy".

(** The characters of a city name: ASCII letters, white space, hyphen,
    apostrophe and dot. *)
Definition city_char (c : ascii) : Prop :=
  is_letter_ascii c = true \/ is_space c = true
  \/ c = "-"%char \/ c = "'"%char \/ c = "."%char.

(** The claim C8 as it is worded: a name is accepted exactly when it is
    not empty once trimmed and made of those characters. *)
Definition city_rule_without_length (validate : str -> bool) : Prop :=
  forall city,
    validate city = true
    <-> (strip city <> [] /\ Forall city_char (strip city)).

(* ================================================================= *)
(** ** Forecasts: what the loops compute *)

(** The text of a day, ["%Y-%m-%d"]. *)
Definition date_string (day : Z) : str := strftime_ymd (DT day 0).

(** The date [i] days after [today], or the [OverflowError] of
    [timedelta] and of the addition. *)
Definition date_after (today i : Z) : res str :=
  if (Z.abs i <=? 999999999) && (1 <=? today + i) && (today + i <=? MAXORDINAL)
  then Ok (date_string (today + i))
  else Raise OverflowError.

(** The results of [h] along [l], up to the first exception. *)
Fixpoint collect {A : Type} (h : Z -> res A) (l : list Z) : res (list A) :=
  match l with
  | [] => Ok []
  | i :: l' => a <- h i ;; out <- collect h l' ;; Ok (a :: out)
  end.

(** The clock stays within the day [today]. *)
Definition same_day (clock : clock_t) (today : Z) : Prop :=
  forall k, ordinal (clock k) = today.

(** The entry of day [i] in the mapping of [scrape_forecast_data]. *)
Definition endpoint_entry (today i : Z) : ForecastDay.t :=
  ForecastDay.Build (date_string (today + i)) (28 + i mod 3) (22 + i mod 2)
    (S_ "Partly Cloudy") (str_of_int (30 + 5 * i) ++ S_ "%").

(** One turn of the endpoint's loop, as a function of the day. *)
Definition endpoint_turn (today i : Z) : res ForecastDay.t :=
  date <- date_after today i ;;
  Ok (ForecastDay.Build date (28 + i mod 3) (22 + i mod 2)
        (S_ "Partly Cloudy") (str_of_int (30 + i * 5) ++ S_ "%")).

(** One turn of the loop of [_extract_forecast_data], as a function of
    the day. *)
Definition sample_turn (today i : Z) : res DailyForecast.t :=
  date <- date_after today i ;;
  fi <- float_of_int i ;;
  Ok (DailyForecast.Build date (28 + fi)%float (22 + fi)%float
        (S_ "Partly Cloudy") (Some 30)).

(** The entry of day [i] in the forecast of a weather record, with its
    high and its low. *)
Definition sample_entry (today i : Z) (high low : float) : DailyForecast.t :=
  DailyForecast.Build (date_string (today + i)) high low
    (S_ "Partly Cloudy") (Some 30).

(** The forecast of a weather record built on the day [today]: highs
    28.0 + i and lows 22.0 + i for i = 0..6. *)
Definition sample_forecast (today : Z) : list DailyForecast.t :=
  [ sample_entry today 0 28 22; sample_entry today 1 29 23;
    sample_entry today 2 30 24; sample_entry today 3 31 25;
    sample_entry today 4 32 26; sample_entry today 5 33 27;
    sample_entry today 6 34 28 ].

(** High and low of an entry of the record forecast: the low is below
    the high, six degrees apart. *)
Definition six_apart (e : DailyForecast.t) : Prop :=
  PrimFloat.ltb (DailyForecast.low_temp e) (DailyForecast.high_temp e) = true
  /\ PrimFloat.ltb (DailyForecast.high_temp e) (DailyForecast.low_temp e)
     = false
  /\ PrimFloat.sub (DailyForecast.high_temp e) (DailyForecast.low_temp e)
     = 6%float.

(** High and low of an entry of the forecast endpoint. *)
Definition high_28_30_low_22_23 (e : ForecastDay.t) : Prop :=
  28 <= ForecastDay.high_temp e <= 30 /\ 22 <= ForecastDay.low_temp e <= 23.

(** The claim C4 as it is worded, for the forecast of the weather record:
    highs and lows go by [i mod 3] and [i mod 2]. *)
Definition record_forecast_uses_moduli : Prop :=
  forall clock t l i e hi lo,
    fst (_extract_forecast_data clock t) = Some l ->
    nth_error l (Z.to_nat i) = Some e ->
    0 <= i < 7 ->
    float_of_int (28 + i mod 3) = Ok hi ->
    float_of_int (22 + i mod 2) = Ok lo ->
    DailyForecast.high_temp e = hi /\ DailyForecast.low_temp e = lo.

(** The claim C5 as it is worded: as many entries as days were asked. *)
Definition forecast_length_always_days : Prop :=
  forall city days clock t today,
    same_day clock today -> 1 <= today <= MAXORDINAL ->
    exists fd,
      fst (scrape_forecast_data city days clock t) = Some fd
      /\ Z.of_nat (length (ForecastData.forecast fd)) = days.

(** The claim C6 as it is worded: some synthesized entry has its low
    above its high. *)
Definition low_exceeds_high_somewhere : Prop :=
  (exists clock t l e,
      fst (_extract_forecast_data clock t) = Some l /\ In e l
      /\ PrimFloat.ltb (DailyForecast.high_temp e) (DailyForecast.low_temp e)
         = true)
  \/ (exists city days clock t fd e,
      fst (scrape_forecast_data city days clock t) = Some fd
      /\ In e (ForecastData.forecast fd)
      /\ ForecastDay.high_temp e < ForecastDay.low_temp e).

(* ================================================================= *)
(** ** Capture groups *)

(** The pattern has no capturing group. *)
Fixpoint group_free (r : regex) : bool :=
  match r with
  | Eps | Chr _ | Bol | Eol => true
  | Seq r1 r2 | Alt r1 r2 => group_free r1 && group_free r2
  | Star _ r1 => group_free r1
  | Group _ => false
  end.

(** A non-empty run of decimal digits. *)
Definition is_digits (s : str) : Prop :=
  s <> [] /\ forallb is_digit s = true.

(** A decimal numeral, [digits] or [digits.digits]. *)
Definition is_decimal (s : str) : Prop :=
  is_digits s
  \/ exists ip fp, s = ip ++ "."%char :: fp /\ is_digits ip /\ is_digits fp.

(** Whenever the pattern matches (under [IGNORECASE]), group 1 holds a
    substring of the subject that satisfies [P]. *)
Definition captures (P : str -> Prop) (r : regex) : Prop :=
  forall m m',
    matches IGNORECASE r m m' ->
    exists before g after,
      grp m' = Some g /\ P g /\ rest m = before ++ g ++ after.

(** No run of digits of the text is longer than the limit of [int] (a
    limit of 0 is no limit). *)
Definition numerals_within_limit (int_max_str_digits : nat) (text : str)
  : Prop :=
  int_max_str_digits = 0%nat
  \/ forall pre ds post,
       text = pre ++ ds ++ post -> forallb is_digit ds = true ->
       (length ds <= int_max_str_digits)%nat.

(** A direction token is found: between blanks, or before an E or a W. *)
Definition direction_occurs (direction text : str) : Prop :=
  occurs (S_ " " ++ direction ++ S_ " ") text
  \/ occurs (direction ++ S_ "E") text
  \/ occurs (direction ++ S_ "W") text.

(** The claim C7 on exceptions as it is worded, for the interpreter as it
    comes: no matcher raises, whatever the text. *)
Definition matchers_never_raise : Prop :=
  forall text,
    (exists v, _extract_humidity default_max_str_digits text = Ok v)
    /\ (exists v, _extract_pressure text = Ok v)
    /\ (exists v, _extract_wind_speed text = Ok v)
    /\ (exists v, _extract_visibility text = Ok v)
    /\ (exists v, _extract_uv_index default_max_str_digits text = Ok v).

(* ================================================================= *)
(** ** Temperature readings *)

(** [text] holds the digits [ds] right before a degree sign and a letter
    C of either case; [pre] is what comes before the digits. *)
Definition celsius_reading (text pre ds : str) (c : ascii) (post : str)
  : Prop :=
  text = pre ++ ds ++ deg :: c :: post
  /\ is_digits ds /\ (c = "C"%char \/ c = "c"%char).

(** The marker of the unit test of the source: the text holds the degree
    sign followed by a capital C, or the word "celsius" in any case. *)
Definition celsius_marker_or_word (text : str) : Prop :=
  occurs [deg; "C"%char] text \/ occurs_ignoring_case (S_ "celsius") text.

(** The claim C1 on the value as it is worded: whenever a bare integer
    (digits with no digit before them) stands right before the marker, its
    value is the Celsius temperature of the record. *)
Definition every_celsius_reading_is_returned : Prop :=
  forall text pre ds post f,
    text = pre ++ ds ++ deg :: "C"%char :: post ->
    is_digits ds ->
    is_digit (last pre " "%char) = false ->
    float_of_int (digits_value ds) = Ok f ->
    exists cw,
      _extract_current_weather default_max_str_digits text = Some cw
      /\ CurrentWeather.temperature cw = f
      /\ CurrentWeather.temperature_fahrenheit cw
         = Some (celsius_to_fahrenheit f).

(** The claim C2 as it is worded: no temperature pattern matches, so the
    record is 25.0, 77.0 and "Partly Cloudy". *)
Definition default_record_claim : Prop :=
  forall text,
    (forall p, In p temp_patterns -> ~ has_match IGNORECASE p text) ->
    exists cw,
      _extract_current_weather default_max_str_digits text = Some cw
      /\ CurrentWeather.temperature cw = 25%float
      /\ CurrentWeather.temperature_fahrenheit cw = Some 77%float
      /\ CurrentWeather.condition cw = S_ "Partly Cloudy".

(* ================================================================= *)
(** ** Further properties: what they speak of *)

(** The part of a humidity or UV text a match goes through: the word (in
    any case), what is skipped on the same line, the digits. *)
Definition reads_after_word (word text pre w skip ds post : str) : Prop :=
  text = pre ++ w ++ skip ++ ds ++ post
  /\ lower w = word /\ ~ In newline skip /\ is_digits ds.

(** The entries of the mapping before [normalized] have no keyword that
    satisfies [found], and [normalized] has one. *)
Definition first_entry_with_keyword (found : str -> Prop)
    (mapping : list (str * list str)) (normalized : str) : Prop :=
  exists before keywords after,
    mapping = before ++ (normalized, keywords) :: after
    /\ (exists k, In k keywords /\ found k)
    /\ forall n ks k, In (n, ks) before -> In k ks -> ~ found k.

(** The whole degrees from [lo] to [hi]. *)
Definition whole_degrees (lo hi : Z) : list Z :=
  map (fun k => lo + Z.of_nat k) (seq 0 (Z.to_nat (hi - lo + 1))).

(** A whole Fahrenheit temperature survives the conversion to Celsius
    and back, and both temperatures are in the validators' ranges. *)
Definition fahrenheit_round_trip (n : Z) : Prop :=
  forall f,
    float_of_int n = Ok f ->
    celsius_to_fahrenheit (fahrenheit_to_celsius f) = f
    /\ TemperatureValidator.validate_fahrenheit f = true
    /\ TemperatureValidator.validate_celsius (fahrenheit_to_celsius f) = true.

(** The label of a whole number of degrees is that of the sector of
    22.5 degrees it lies in. *)
Definition sector_label (n : Z) : Prop :=
  forall f,
    float_of_int n = Ok f ->
    format_wind_direction (Some f) = item compass (((4 * n + 45) / 90) mod 16).

(** A list of words as [split] gives them: none is empty and none holds
    whitespace. *)
Definition words (ws : list str) : Prop :=
  Forall (fun w => w <> [] /\ Forall (fun c => is_space c = false) w) ws.

(* ================================================================= *)
(** ** The code on sample inputs *)

Example py_float_1013_25 : py_float (S_ "1013.25") = Ok 1013.25%float.
Proof. reflexivity. Qed.

Example py_float_0_1 : py_float (S_ "0.1") = Ok 0x1.999999999999ap-4%float.
Proof. reflexivity. Qed.

Example py_float_12 : py_float (S_ "12") = Ok 12%float.
Proof. reflexivity. Qed.

Example py_float_huge :
  py_float (repeat "9"%char 400) = Ok infinity.
Proof. vm_compute. reflexivity. Qed.

Example py_float_tiny :
  py_float (S_ "0.000000000000000000000000000001") = Ok 0x1.4484bfeebc2ap-100%float.
Proof. vm_compute. reflexivity. Qed.

Example float_of_int_25 : float_of_int 25 = Ok 25%float.
Proof. reflexivity. Qed.

Example float_of_int_overflows : float_of_int (10 ^ 400) = Raise OverflowError.
Proof. vm_compute. reflexivity. Qed.

Example celsius_to_fahrenheit_25 : celsius_to_fahrenheit 25 = 77%float.
Proof. reflexivity. Qed.

Example findall_two_readings :
  re_findall IGNORECASE
    celsius_re
    (S_ "12" ++ deg :: S_ "c 25" ++ deg :: S_ "C")
  = [S_ "12"; S_ "25"].
Proof. reflexivity. Qed.

Example strftime_ymd_2026_11_03 :
  strftime_ymd (DT 739923 0) = S_ "2026-11-03".
Proof. reflexivity. Qed.

Example strftime_ymd_leap_day :
  strftime_ymd (DT 738945 0) = S_ "2024-02-29".
Proof. reflexivity. Qed.

Example strftime_ymd_last_day :
  strftime_ymd (DT MAXORDINAL 0) = S_ "9999-12-31".
Proof. reflexivity. Qed.

Example sample_current_weather :
  _extract_current_weather default_max_str_digits sample_text
  = Some (CurrentWeather.Build 25 (Some 77%float) (S_ "Sunny") (Some 60)
            None None None None None None).
Proof. vm_compute. reflexivity. Qed.

Example sample_matchers :
  _extract_pressure (S_ "Pressure: 1013.25 hPa") = Ok (Some 1013.25%float)
  /\ _extract_wind_speed (S_ "Wind: 15 km/h NW") = Ok (Some 15%float)
  /\ _extract_wind_direction (S_ "Wind: 15 km/h NW ") = Some (S_ "N")
  /\ _extract_visibility (S_ "Visibility 10 km") = Ok (Some 10%float)
  /\ _extract_uv_index default_max_str_digits (S_ "UV Index: 7") = Ok (Some 7)
  /\ _extract_air_quality (S_ "Air quality: Moderate") = Some (S_ "Moderate").
Proof. vm_compute. repeat split; reflexivity. Qed.

Example sample_forecast_endpoint :
  fst (scrape_forecast_data (S_ "Pune") 3 (noon 739923) 0)
  = Some (ForecastData.Build (S_ "Pune") 3
      [ ForecastDay.Build (S_ "2026-11-03") 28 22 (S_ "Partly Cloudy") (S_ "30%");
        ForecastDay.Build (S_ "2026-11-04") 29 23 (S_ "Partly Cloudy") (S_ "35%");
        ForecastDay.Build (S_ "2026-11-05") 30 22 (S_ "Partly Cloudy") (S_ "40%") ]).
Proof. vm_compute. reflexivity. Qed.

Example sample_city_names :
  validate_city_name (S_ "New Delhi") = true
  /\ validate_city_name (S_ "St. John's") = true
  /\ validate_city_name (S_ "Pune2") = false
  /\ validate_city_name (S_ " A ") = false.
Proof. vm_compute. repeat split; reflexivity. Qed.

(* ================================================================= *)
(** ** The matcher and the relation agree *)

Lemma orelse_none : forall {A : Type} (x : option A) y,
  orelse x y = None <-> x = None /\ y tt = None.
Proof.
  intros A [a|] y; simpl; split; intros H.
  - discriminate.
  - destruct H; discriminate.
  - auto.
  - tauto.
Qed.

Lemma orelse_some : forall {A : Type} (x : option A) y v,
  orelse x y = Some v -> x = Some v \/ (x = None /\ y tt = Some v).
Proof.
  intros A [a|] y v; simpl; intros H; auto.
Qed.

(** A match consumes a prefix of what is left and moves the cursor by
    its length. *)
Lemma matches_consumes : forall ic r m m',
  matches ic r m m' ->
  exists mid, rest m = mid ++ rest m' /\ pos m' = (pos m + length mid)%nat.
Proof.
  induction 1; simpl.
  - exists []. simpl. split; [reflexivity | lia].
  - exists [x]. split; [reflexivity | simpl; lia].
  - destruct IHmatches1 as (a & Ha & Pa), IHmatches2 as (b & Hb & Pb).
    exists (a ++ b). rewrite Ha, Hb, Pb, Pa, length_app, app_assoc.
    split; [reflexivity | lia].
  - assumption.
  - assumption.
  - exists []. simpl. split; [reflexivity | lia].
  - destruct IHmatches1 as (a & Ha & Pa), IHmatches2 as (b & Hb & Pb).
    exists (a ++ b). rewrite Ha, Hb, Pb, Pa, length_app, app_assoc.
    split; [reflexivity | lia].
  - assumption.
  - exists []. simpl. split; [reflexivity | lia].
  - exists []. simpl. split; [reflexivity | lia].
Qed.

Lemma matches_progress : forall ic r m m',
  matches ic r m m' -> (pos m < pos m')%nat ->
  (length (rest m') < length (rest m))%nat.
Proof.
  intros ic r m m' H Hlt.
  destruct (matches_consumes _ _ _ _ H) as (mid & Hr & Hp).
  rewrite Hr, length_app. lia.
Qed.

Section StarLoop.

Variable ic : bool.
Variable r : regex.
Variable greedy : bool.
Variable k : mstate -> option mstate.

(** What the induction on the pattern gives for the starred pattern. *)
Hypothesis body_none : forall k' m,
  run ic r k' m = None <-> (forall m', matches ic r m m' -> k' m' = None).
Hypothesis body_some : forall k' m x,
  run ic r k' m = Some x -> exists m', matches ic r m m' /\ k' m' = Some x.

Lemma star_loop_none : forall fuel m,
  (length (rest m) <= fuel)%nat ->
  (star_loop (run ic r) greedy k fuel m = None
   <-> forall m', matches ic (Star greedy r) m m' -> k m' = None).
Proof.
  induction fuel as [|fuel IH]; intros m Hfuel.
  - simpl. split.
    + intros H m' Hm.
      assert (Hk : k m = None) by (destruct greedy; simpl in H;
        [assumption | apply orelse_none in H; tauto]).
      inversion Hm; subst; [assumption |].
      match goal with
      | H1 : matches ic r m ?m1, H2 : (pos m < pos ?m1)%nat |- _ =>
          pose proof (matches_progress _ _ _ _ H1 H2)
      end. lia.
    + intros H. rewrite (H m (M_StarStop ic greedy r m)).
      destruct greedy; reflexivity.
  - cbn [star_loop].
    set (k' := fun m' : mstate =>
           if (pos m <? pos m')%nat
           then star_loop (run ic r) greedy k fuel m' else None).
    assert (Hmore : run ic r k' m = None <->
            forall m1 m2, matches ic r m m1 -> (pos m < pos m1)%nat ->
              matches ic (Star greedy r) m1 m2 -> k m2 = None).
    { rewrite body_none. unfold k'. split.
      - intros H m1 m2 H1 Hlt H2. specialize (H m1 H1).
        apply Nat.ltb_lt in Hlt. rewrite Hlt in H.
        apply Nat.ltb_lt in Hlt.
        pose proof (matches_progress _ _ _ _ H1 Hlt).
        apply (IH m1); [lia | assumption | assumption].
      - intros H m1 H1. destruct (pos m <? pos m1)%nat eqn:E; [|reflexivity].
        apply Nat.ltb_lt in E.
        pose proof (matches_progress _ _ _ _ H1 E).
        apply IH; [lia |]. intros m2 H2. exact (H m1 m2 H1 E H2). }
    assert (Hgoal : (run ic r k' m = None /\ k m = None) <->
            forall m', matches ic (Star greedy r) m m' -> k m' = None).
    { rewrite Hmore. split.
      - intros [Ha Hb] m' Hm. inversion Hm; subst; eauto.
      - intros H. split.
        + intros m1 m2 H1 Hlt H2. apply H. eapply M_StarMore; eauto.
        + apply H. constructor. }
    destruct greedy; rewrite orelse_none; tauto.
Qed.

Lemma star_loop_some : forall fuel m x,
  star_loop (run ic r) greedy k fuel m = Some x ->
  exists m', matches ic (Star greedy r) m m' /\ k m' = Some x.
Proof.
  induction fuel as [|fuel IH]; intros m x H.
  - simpl in H.
    assert (Hk : k m = Some x).
    { destruct greedy; simpl in H; [assumption |].
      apply orelse_some in H. destruct H as [H | [_ H]];
        [assumption | discriminate]. }
    exists m. split; [constructor | assumption].
  - cbn [star_loop] in H.
    set (k' := fun m' : mstate =>
           if (pos m <? pos m')%nat
           then star_loop (run ic r) greedy k fuel m' else None) in H.
    assert (Hcases : run ic r k' m = Some x \/ k m = Some x).
    { destruct greedy; apply orelse_some in H; tauto. }
    destruct Hcases as [Hm | Hk].
    + apply body_some in Hm. destruct Hm as (m1 & H1 & Hk1).
      unfold k' in Hk1. destruct (pos m <? pos m1)%nat eqn:E;
        [|discriminate].
      apply Nat.ltb_lt in E.
      destruct (IH _ _ Hk1) as (m2 & H2 & Hk2).
      exists m2. split; [eapply M_StarMore; eauto | assumption].
    + exists m. split; [constructor | assumption].
Qed.

End StarLoop.

(** Completeness and soundness of the matcher: it answers [None] exactly
    when the continuation refuses every match of the pattern, and an
    answer comes from a match the continuation accepts. *)
Lemma run_none : forall ic r k m,
  run ic r k m = None <-> (forall m', matches ic r m m' -> k m' = None).
Proof.
  intros ic r. induction r; intros k m; cbn [run].
  - split.
    + intros H m' Hm. inversion Hm; subst. assumption.
    + intros H. apply H. constructor.
  - simpl. destruct m as [p s g]; simpl. destruct s as [|x t].
    + split; [|reflexivity]. intros _ m' Hm. inversion Hm.
    + destruct (accepts ic a x) eqn:E.
      * split.
        -- intros H m' Hm. inversion Hm; subst. assumption.
        -- intros H. apply H. constructor. assumption.
      * split; [|reflexivity]. intros _ m' Hm. inversion Hm; subst.
        congruence.
  - simpl. rewrite IHr1. split.
    + intros H m' Hm. inversion Hm; subst.
      match goal with
      | H1 : matches ic r1 m ?m1 |- _ => specialize (H m1 H1)
      end.
      rewrite IHr2 in H. auto.
    + intros H m1 H1. rewrite IHr2. intros m2 H2. apply H.
      econstructor; eauto.
  - simpl. rewrite orelse_none, IHr1, IHr2. split.
    + intros [Ha Hb] m' Hm. inversion Hm; subst; auto.
    + intros H. split; intros m' Hm; apply H;
        [apply M_AltL | apply M_AltR]; assumption.
  - simpl. apply star_loop_none; [assumption | lia].
  - simpl. rewrite IHr. split.
    + intros H m' Hm. inversion Hm; subst. auto.
    + intros H m' Hm. apply H. constructor. assumption.
  - simpl. destruct (pos m =? 0)%nat eqn:E.
    + split.
      * intros H m' Hm. inversion Hm; subst. assumption.
      * intros H. apply H. constructor. apply Nat.eqb_eq. assumption.
    + split; [|reflexivity]. intros _ m' Hm. inversion Hm; subst.
      apply Nat.eqb_neq in E. contradiction.
  - simpl. destruct (rest m) as [|c [|c' t]] eqn:E.
    + split.
      * intros H m' Hm. inversion Hm; subst. assumption.
      * intros H. apply H. constructor. auto.
    + unfold ascii_eqb. destruct (Ascii.eqb c newline) eqn:Ec.
      * apply Ascii.eqb_eq in Ec. subst c. split.
        -- intros H m' Hm. inversion Hm; subst. assumption.
        -- intros H. apply H. constructor. auto.
      * split; [|reflexivity]. intros _ m' Hm. inversion Hm; subst.
        apply Ascii.eqb_neq in Ec.
        match goal with
        | H : rest m' = [] \/ _ |- _ => destruct H as [H|H]; congruence
        end.
    + split; [|reflexivity]. intros _ m' Hm. inversion Hm; subst.
      match goal with
      | H : rest m' = [] \/ _ |- _ => destruct H as [H|H]; congruence
      end.
Qed.

Lemma run_some : forall ic r k m x,
  run ic r k m = Some x ->
  exists m', matches ic r m m' /\ k m' = Some x.
Proof.
  intros ic r. induction r; intros k m x H; cbn [run] in H.
  - exists m. split; [constructor | assumption].
  - destruct m as [p s g]; simpl in H. destruct s as [|c t];
      [discriminate |].
    destruct (accepts ic a c) eqn:E; [|discriminate].
    eexists. split; [constructor; eassumption | assumption].
  - apply IHr1 in H. destruct H as (m1 & H1 & H).
    apply IHr2 in H. destruct H as (m2 & H2 & H).
    exists m2. split; [econstructor; eauto | assumption].
  - apply orelse_some in H. destruct H as [H | [_ H]].
    + apply IHr1 in H. destruct H as (m' & Hm & H).
      exists m'. split; [apply M_AltL; assumption | assumption].
    + apply IHr2 in H. destruct H as (m' & Hm & H).
      exists m'. split; [apply M_AltR; assumption | assumption].
  - eapply star_loop_some; eauto.
  - apply IHr in H. destruct H as (m' & Hm & H).
    eexists. split; [constructor; eassumption | assumption].
  - destruct (pos m =? 0)%nat eqn:E; [|discriminate].
    exists m. split; [constructor; apply Nat.eqb_eq; assumption | assumption].
  - destruct (rest m) as [|c [|c' t]] eqn:E.
    + exists m. split; [constructor; auto | assumption].
    + unfold ascii_eqb in H.
      destruct (Ascii.eqb c newline) eqn:Ec; [|discriminate].
      apply Ascii.eqb_eq in Ec. subst c.
      exists m. split; [constructor; auto | assumption].
    + discriminate.
Qed.

(* ================================================================= *)
(** ** Substrings *)

Lemma ascii_eqb_true : forall a b, ascii_eqb a b = true <-> a = b.
Proof. intros a b. unfold ascii_eqb. apply Ascii.eqb_eq. Qed.

Lemma starts_with_prefix : forall p s,
  starts_with p s = true <-> exists post, s = p ++ post.
Proof.
  induction p as [|x p IH]; intros s; simpl.
  - split; [intros _; exists s; reflexivity | reflexivity].
  - destruct s as [|y s].
    + split; [discriminate | intros [post H]; discriminate].
    + rewrite andb_true_iff, ascii_eqb_true, IH. split.
      * intros [-> [post ->]]. exists post. reflexivity.
      * intros [post H]. injection H as -> ->. split; [reflexivity | eauto].
Qed.

(** [needle in hay] decides [occurs]. *)
Lemma contains_occurs : forall needle hay,
  contains needle hay = true <-> occurs needle hay.
Proof.
  intros needle hay. unfold occurs.
  induction hay as [|c hay IH].
  - simpl. rewrite orb_false_r, starts_with_prefix. split.
    + intros [post H]. exists [], post. exact H.
    + intros (pre & post & H). destruct pre as [|x pre]; [|discriminate].
      exists post. exact H.
  - cbn [contains]. rewrite orb_true_iff, starts_with_prefix, IH. split.
    + intros [[post H] | (pre & post & H)].
      * exists [], post. exact H.
      * exists (c :: pre), post. rewrite H. reflexivity.
    + intros (pre & post & H). destruct pre as [|x pre].
      * left. exists post. exact H.
      * right. injection H as -> H. exists pre, post. exact H.
Qed.

Lemma contains_false_occurs : forall needle hay,
  contains needle hay = false <-> ~ occurs needle hay.
Proof.
  intros needle hay. rewrite <- contains_occurs.
  destruct (contains needle hay); split; congruence.
Qed.

(** [keyword in text.lower()] decides [occurs_ignoring_case]. *)
Lemma contains_lower : forall keyword text,
  contains keyword (lower text) = true <-> occurs_ignoring_case keyword text.
Proof.
  intros keyword text. rewrite contains_occurs.
  unfold occurs, occurs_ignoring_case, lower. split.
  - intros (pre & post & H).
    apply map_eq_app in H. destruct H as (a & b & -> & Ha & Hb).
    apply map_eq_app in Hb. destruct Hb as (c & d & -> & Hc & Hd).
    exists a, c, d. split; [reflexivity | exact Hc].
  - intros (pre & mid & post & -> & H).
    exists (map lower_char pre), (map lower_char post).
    rewrite !map_app, H. reflexivity.
Qed.

Lemma contains_lower_false : forall keyword text,
  contains keyword (lower text) = false <-> ~ occurs_ignoring_case keyword text.
Proof.
  intros keyword text. rewrite <- contains_lower.
  destruct (contains keyword (lower text)); split; congruence.
Qed.

(** The scan of a keyword list, in list order. *)
Lemma first_keyword_none : forall found keywords,
  first_keyword found keywords = None
  <-> forall k, In k keywords -> found k = false.
Proof.
  intros found keywords. induction keywords as [|k ks IH]; simpl.
  - split; [intros _ k [] | reflexivity].
  - destruct (found k) eqn:E.
    + split; [discriminate |]. intros H.
      rewrite (H k (or_introl eq_refl)) in E. discriminate.
    + rewrite IH. split.
      * intros H k' [<- | Hin]; auto.
      * intros H k' Hin. apply H. right. exact Hin.
Qed.

Lemma first_keyword_first : forall found before k after,
  found k = true ->
  (forall k', In k' before -> found k' = false) ->
  first_keyword found (before ++ k :: after) = Some k.
Proof.
  intros found before k after Hk. induction before as [|b bs IH];
    intros Hb; simpl.
  - rewrite Hk. reflexivity.
  - rewrite (Hb b (or_introl eq_refl)). apply IH.
    intros k' Hin. apply Hb. right. exact Hin.
Qed.

Lemma first_keyword_some : forall found keywords k,
  first_keyword found keywords = Some k ->
  exists before after,
    keywords = before ++ k :: after /\ found k = true
    /\ forall k', In k' before -> found k' = false.
Proof.
  intros found keywords k. induction keywords as [|x ks IH]; simpl.
  - discriminate.
  - destruct (found x) eqn:E.
    + intros H. injection H as ->. exists [], ks.
      split; [reflexivity | split; [exact E | intros k' []]].
    + intros H. destruct (IH H) as (before & after & -> & Hk & Hb).
      exists (x :: before), after.
      split; [reflexivity | split; [exact Hk |]].
      intros k' [<- | Hin]; auto.
Qed.

(** A text that holds [inner] holds every substring of [inner]. *)
Lemma occurs_ignoring_case_part : forall a inner b text,
  occurs_ignoring_case (a ++ inner ++ b) text ->
  occurs_ignoring_case inner text.
Proof.
  intros a inner b text (pre & mid & post & -> & H).
  unfold lower in H.
  apply map_eq_app in H. destruct H as (x & y & -> & Hx & Hy).
  apply map_eq_app in Hy. destruct Hy as (u & v & -> & Hu & Hv).
  exists (pre ++ x), u, (v ++ post). split; [|exact Hu].
  rewrite <- !app_assoc. reflexivity.
Qed.

(* ================================================================= *)
(** ** Matches of the shapes the patterns are made of *)

Ltac inv H := inversion H; subst; clear H.

(** A starred atom consumes a run of characters the atom accepts, and
    leaves the group alone. *)
Lemma star_atom_inv : forall ic greedy a m m',
  matches ic (Star greedy (Chr a)) m m' ->
  exists mid,
    rest m = mid ++ rest m' /\ forallb (accepts ic a) mid = true
    /\ pos m' = (pos m + length mid)%nat /\ grp m' = grp m.
Proof.
  intros ic greedy a m m' H.
  remember (Star greedy (Chr a)) as r eqn:Hr.
  induction H; try discriminate Hr.
  - exists []. simpl. repeat split; lia.
  - injection Hr as -> ->.
    destruct (IHmatches2 eq_refl) as (mid & Hrest & Hall & Hpos & Hgrp).
    inv H. simpl in *.
    exists (x :: mid). simpl. rewrite Hrest, Hall, Hpos, Hgrp.
    match goal with
    | Hx : accepts ic a x = true |- _ => rewrite Hx
    end.
    repeat split; lia.
Qed.

Lemma star_atom_intro : forall ic greedy a mid p t g,
  forallb (accepts ic a) mid = true ->
  matches ic (Star greedy (Chr a)) (MS p (mid ++ t) g)
    (MS (p + length mid) t g).
Proof.
  intros ic greedy a mid. induction mid as [|x mid IH]; intros p t g H;
    simpl in *.
  - rewrite Nat.add_0_r. constructor.
  - apply andb_true_iff in H. destruct H as [Hx Hmid].
    apply M_StarMore with (m1 := MS (S p) (mid ++ t) g).
    + constructor. exact Hx.
    + simpl. lia.
    + replace (p + S (length mid))%nat with (S p + length mid)%nat by lia.
      apply IH. exact Hmid.
Qed.

(** [a+] *)
Lemma plus_atom_inv : forall ic a m m',
  matches ic (Plus (Chr a)) m m' ->
  exists mid,
    mid <> [] /\ rest m = mid ++ rest m'
    /\ forallb (accepts ic a) mid = true
    /\ pos m' = (pos m + length mid)%nat /\ grp m' = grp m.
Proof.
  intros ic a m m' H. unfold Plus in H. inv H.
  match goal with
  | H1 : matches ic (Chr a) _ _, H2 : matches ic (Star _ _) _ _ |- _ =>
      inv H1; apply star_atom_inv in H2;
      destruct H2 as (mid & Hrest & Hall & Hpos & Hgrp)
  end.
  simpl in *. exists (x :: mid). simpl.
  match goal with
  | Hx : accepts ic a x = true |- _ => rewrite Hx
  end.
  rewrite Hrest, Hall, Hpos, Hgrp.
  repeat split; try lia. discriminate.
Qed.

Lemma plus_atom_intro : forall ic a mid p t g,
  mid <> [] -> forallb (accepts ic a) mid = true ->
  matches ic (Plus (Chr a)) (MS p (mid ++ t) g) (MS (p + length mid) t g).
Proof.
  intros ic a mid p t g Hne H. destruct mid as [|x mid]; [contradiction |].
  simpl in *. apply andb_true_iff in H. destruct H as [Hx Hmid].
  unfold Plus. apply M_Seq with (m1 := MS (S p) (mid ++ t) g).
  - constructor. exact Hx.
  - replace (p + S (length mid))%nat with (S p + length mid)%nat by lia.
    apply star_atom_intro. exact Hmid.
Qed.

(** A literal word consumes as many characters as it has, each accepted
    by the literal at its place. *)
Lemma word_inv : forall ic w m m',
  matches ic (Word w) m m' ->
  exists mid,
    rest m = mid ++ rest m' /\ word_accepts ic w mid = true
    /\ pos m' = (pos m + length mid)%nat /\ grp m' = grp m.
Proof.
  intros ic w. induction w as [|c w IH]; intros m m' H; simpl in H.
  - inv H. exists []. simpl. repeat split; lia.
  - inv H.
    match goal with
    | H1 : matches ic (Chr _) _ _, H2 : matches ic (Word w) _ _ |- _ =>
        inv H1; apply IH in H2;
        destruct H2 as (mid & Hrest & Hall & Hpos & Hgrp)
    end.
    cbn [rest pos grp] in *. exists (x :: mid).
    cbn [word_accepts length app].
    match goal with
    | Hx : accepts ic (Lit c) x = true |- _ => rewrite Hx
    end.
    rewrite Hrest, Hall, Hpos, Hgrp. repeat split; lia.
Qed.

Lemma word_intro : forall ic w mid p t g,
  word_accepts ic w mid = true ->
  matches ic (Word w) (MS p (mid ++ t) g) (MS (p + length mid) t g).
Proof.
  intros ic w. induction w as [|c w IH]; intros mid p t g H;
    destruct mid as [|x mid]; cbn [word_accepts] in H; try discriminate H.
  - simpl. rewrite Nat.add_0_r. constructor.
  - apply andb_true_iff in H. destruct H as [Hx Hmid].
    cbn [Word]. apply M_Seq with (m1 := MS (S p) (mid ++ t) g).
    + constructor. exact Hx.
    + simpl. replace (p + S (length mid))%nat with (S p + length mid)%nat
        by lia.
      apply IH. exact Hmid.
Qed.

Lemma word_accepts_length : forall ic w mid,
  word_accepts ic w mid = true -> length mid = length w.
Proof.
  intros ic w. induction w as [|c w IH]; intros [|x mid] H; simpl in H;
    try discriminate H; [reflexivity |].
  apply andb_true_iff in H. destruct H as [_ H]. simpl. f_equal. auto.
Qed.

(** [re.match] and the relation. *)
Lemma re_match_matched : forall ic r s,
  matched (re_match ic r s) = true
  <-> exists m', matches ic r (MS 0 s None) m'.
Proof.
  intros ic r s. unfold re_match.
  destruct (run ic r Some (MS 0 s None)) as [m|] eqn:E; simpl.
  - split; [intros _ | reflexivity].
    apply run_some in E. destruct E as (m' & Hm & _). eauto.
  - split; [discriminate |]. intros [m' Hm].
    rewrite run_none in E. specialize (E m' Hm). discriminate.
Qed.

(* ================================================================= *)
(** ** Searching *)

Lemma search_from_none : forall ic r s p,
  search_from ic r p s = None
  <-> forall i m', (i <= length s)%nat ->
        ~ matches ic r (MS (p + i) (skipn i s) None) m'.
Proof.
  intros ic r s. induction s as [|c s IH]; intros p; cbn [search_from].
  - destruct (run ic r Some (MS p [] None)) as [m|] eqn:E.
    + split; [discriminate |]. intros H. exfalso.
      apply run_some in E. destruct E as (m' & Hm & _).
      apply (H 0%nat m'); [simpl; lia |].
      rewrite Nat.add_0_r. exact Hm.
    + split; [|reflexivity]. intros _ i m' Hi Hm.
      simpl in Hi. assert (i = 0%nat) by lia. subst i.
      rewrite Nat.add_0_r in Hm. cbn [skipn] in Hm.
      rewrite run_none in E. specialize (E m' Hm). discriminate.
  - destruct (run ic r Some (MS p (c :: s) None)) as [m|] eqn:E.
    + split; [discriminate |]. intros H. exfalso.
      apply run_some in E. destruct E as (m' & Hm & _).
      apply (H 0%nat m'); [simpl; lia |].
      rewrite Nat.add_0_r. exact Hm.
    + rewrite IH. split.
      * intros H i m' Hi Hm. destruct i as [|i].
        -- rewrite Nat.add_0_r in Hm. cbn [skipn] in Hm.
           rewrite run_none in E. specialize (E m' Hm). discriminate.
        -- apply (H i m'); [simpl in Hi; lia |].
           replace (S p + i)%nat with (p + S i)%nat by lia. exact Hm.
      * intros H i m' Hi Hm. apply (H (S i) m'); [simpl; lia |].
        replace (p + S i)%nat with (S p + i)%nat by lia. exact Hm.
Qed.

(** A found match is a match, and the leftmost one. *)
Lemma search_from_some : forall ic r s p mo,
  search_from ic r p s = Some mo ->
  exists i,
    (i <= length s)%nat /\ mstart mo = (p + i)%nat
    /\ matches ic r (MS (p + i) (skipn i s) None) (mend mo)
    /\ forall j m', (j < i)%nat ->
         ~ matches ic r (MS (p + j) (skipn j s) None) m'.
Proof.
  intros ic r s. induction s as [|c s IH]; intros p mo; cbn [search_from].
  - destruct (run ic r Some (MS p [] None)) as [m|] eqn:E; [|discriminate].
    intros H. injection H as <-. apply run_some in E.
    destruct E as (m' & Hm & Hk). injection Hk as ->.
    exists 0%nat. rewrite Nat.add_0_r. cbn [mstart mend skipn].
    repeat split; [lia | exact Hm | intros j m' Hj; lia].
  - destruct (run ic r Some (MS p (c :: s) None)) as [m|] eqn:E.
    + intros H. injection H as <-. apply run_some in E.
      destruct E as (m' & Hm & Hk). injection Hk as ->.
      exists 0%nat. rewrite Nat.add_0_r. cbn [mstart mend skipn].
      repeat split; [lia | exact Hm | intros j m' Hj; lia].
    + intros H. apply IH in H. destruct H as (i & Hi & Hs & Hm & Hfirst).
      exists (S i). replace (p + S i)%nat with (S p + i)%nat by lia.
      cbn [skipn]. repeat split; [simpl; lia | exact Hs | exact Hm |].
      intros j m' Hj Hmj. destruct j as [|j].
      * rewrite Nat.add_0_r in Hmj. cbn [skipn] in Hmj.
        rewrite run_none in E. specialize (E m' Hmj). discriminate.
      * apply (Hfirst j m'); [lia |].
        replace (S p + j)%nat with (p + S j)%nat by lia. exact Hmj.
Qed.

Lemma re_search_none : forall ic r text,
  re_search ic r text = None <-> ~ has_match ic r text.
Proof.
  intros ic r text. unfold re_search, has_match, matches_at.
  rewrite search_from_none. split.
  - intros H (start & Hs & m' & Hm). exact (H start m' Hs Hm).
  - intros H i m' Hi Hm. apply H. exists i. split; [exact Hi |].
    exists m'. exact Hm.
Qed.

Lemma re_search_some : forall ic r text mo,
  re_search ic r text = Some mo ->
  (mstart mo <= length text)%nat
  /\ matches ic r (MS (mstart mo) (skipn (mstart mo) text) None) (mend mo)
  /\ forall j, (j < mstart mo)%nat -> ~ matches_at ic r text j.
Proof.
  intros ic r text mo H. unfold re_search in H.
  apply search_from_some in H. destruct H as (i & Hi & Hs & Hm & Hfirst).
  simpl in Hs. subst i. simpl in Hm.
  repeat split; [exact Hi | exact Hm |].
  intros j Hj [m' Hmj]. exact (Hfirst j m' Hj Hmj).
Qed.

(** The leftmost match is the one the search returns. *)
Lemma re_search_leftmost : forall ic r text start,
  (start <= length text)%nat -> matches_at ic r text start ->
  (forall j, (j < start)%nat -> ~ matches_at ic r text j) ->
  exists mo,
    re_search ic r text = Some mo /\ mstart mo = start
    /\ matches ic r (MS start (skipn start text) None) (mend mo).
Proof.
  intros ic r text start Hs Hat Hfirst.
  destruct (re_search ic r text) as [mo|] eqn:E.
  - exists mo. split; [reflexivity |].
    destruct (re_search_some _ _ _ _ E) as (Hlen & Hm & Hleft).
    assert (Heq : mstart mo = start).
    { destruct (Nat.lt_trichotomy (mstart mo) start) as [Hlt | [Heq | Hgt]].
      - exfalso. apply (Hfirst _ Hlt). exists (mend mo). exact Hm.
      - exact Heq.
      - exfalso. exact (Hleft _ Hgt Hat). }
    split; [exact Heq |]. rewrite <- Heq. exact Hm.
  - exfalso. apply re_search_none in E. apply E.
    exists start. split; assumption.
Qed.

(** [re.findall] starts with group 1 of the match [re.search] finds. *)
Lemma re_findall_nil : forall ic r text,
  re_findall ic r text = [] <-> re_search ic r text = None.
Proof.
  intros ic r text. unfold re_findall, re_search. cbn [findall_from].
  destruct (search_from ic r 0 text); split; intros H;
    try discriminate H; reflexivity.
Qed.

Lemma re_findall_head : forall ic r text mo,
  re_search ic r text = Some mo ->
  exists more, re_findall ic r text = group1 mo :: more.
Proof.
  intros ic r text mo H. unfold re_findall, re_search in *.
  cbn [findall_from]. rewrite H. eexists. reflexivity.
Qed.

(* ================================================================= *)
(** ** Groups *)

(** A pattern without a group leaves group 1 as it is. *)
Lemma group_free_keeps : forall ic r m m',
  matches ic r m m' -> group_free r = true -> grp m' = grp m.
Proof.
  induction 1; cbn [group_free]; intros Hfree;
    try reflexivity; try discriminate Hfree.
  - apply andb_true_iff in Hfree. destruct Hfree as [H1 H2].
    rewrite IHmatches2, IHmatches1; auto.
  - apply andb_true_iff in Hfree. destruct Hfree as [H1 H2]. auto.
  - apply andb_true_iff in Hfree. destruct Hfree as [H1 H2]. auto.
  - rewrite IHmatches2, IHmatches1; auto.
Qed.

(** What a group holds is what its pattern consumed. *)
Lemma group_inv : forall ic r m m',
  matches ic (Group r) m m' ->
  exists m0 mid,
    matches ic r m m0 /\ rest m = mid ++ rest m0
    /\ pos m' = (pos m + length mid)%nat /\ rest m' = rest m0
    /\ grp m' = Some mid.
Proof.
  intros ic r m m' H. inv H.
  match goal with
  | H : matches ic r m ?m0 |- _ =>
      destruct (matches_consumes _ _ _ _ H) as (mid & Hrest & Hpos);
      exists m0, mid
  end.
  unfold set_grp. cbn [pos rest grp].
  repeat split; try assumption.
  rewrite Hpos, Hrest. replace (pos m + length mid - pos m)%nat
    with (length mid + 0)%nat by lia.
  rewrite firstn_app_2. simpl. rewrite app_nil_r. reflexivity.
Qed.

Lemma group_intro : forall ic r p mid t g m0,
  matches ic r (MS p (mid ++ t) g) m0 ->
  pos m0 = (p + length mid)%nat -> rest m0 = t ->
  matches ic (Group r) (MS p (mid ++ t) g) (MS (p + length mid) t (Some mid)).
Proof.
  intros ic r p mid t g m0 H Hpos Hrest.
  pose proof (M_Group ic r _ _ H) as HG.
  unfold set_grp in HG. cbn [pos rest] in HG.
  rewrite Hpos, Hrest in HG.
  replace (p + length mid - p)%nat with (length mid + 0)%nat in HG by lia.
  rewrite firstn_app_2 in HG. simpl in HG. rewrite app_nil_r in HG.
  exact HG.
Qed.

Lemma accepts_digit : forall ic x, accepts ic Digit x = is_digit x.
Proof. reflexivity. Qed.

(** [(\d+)] *)
Lemma group_digits_inv : forall ic m m',
  matches ic (Group digits) m m' ->
  exists ds,
    is_digits ds /\ rest m = ds ++ rest m'
    /\ pos m' = (pos m + length ds)%nat /\ grp m' = Some ds.
Proof.
  intros ic m m' H. apply group_inv in H.
  destruct H as (m0 & mid & Hm & Hrest & Hpos & Hrest' & Hgrp).
  apply plus_atom_inv in Hm.
  destruct Hm as (ds & Hne & Hr & Hall & Hp & _).
  assert (mid = ds).
  { rewrite Hr in Hrest. apply app_inv_tail in Hrest. congruence. }
  subst mid. exists ds. rewrite Hrest'.
  repeat split; assumption.
Qed.

Lemma group_digits_intro : forall ic ds p t g,
  is_digits ds ->
  matches ic (Group digits) (MS p (ds ++ t) g)
    (MS (p + length ds) t (Some ds)).
Proof.
  intros ic ds p t g [Hne Hall].
  apply group_intro with (m0 := MS (p + length ds) t g);
    [|reflexivity | reflexivity].
  apply plus_atom_intro; assumption.
Qed.

(* ================================================================= *)
(** ** Numerals *)

Lemma py_int_digits : forall limit ds,
  is_digits ds -> exceeds_limit limit (length ds) = false ->
  py_int limit ds = Ok (digits_value ds).
Proof.
  intros limit ds [Hne Hall] Hlim. unfold py_int.
  destruct ds as [|d ds]; [contradiction |].
  rewrite Hall, Hlim. reflexivity.
Qed.

Lemma py_int_too_long : forall limit ds,
  is_digits ds -> exceeds_limit limit (length ds) = true ->
  py_int limit ds = Raise ValueError.
Proof.
  intros limit ds [Hne Hall] Hlim. unfold py_int.
  destruct ds as [|d ds]; [contradiction |].
  rewrite Hall, Hlim. reflexivity.
Qed.

Lemma within_limit : forall limit text pre ds post,
  numerals_within_limit limit text ->
  text = pre ++ ds ++ post -> forallb is_digit ds = true ->
  exceeds_limit limit (length ds) = false.
Proof.
  intros limit text pre ds post [H0 | H] Ht Hall; unfold exceeds_limit.
  - subst limit. reflexivity.
  - specialize (H pre ds post Ht Hall).
    destruct (0 <? limit)%nat; [|reflexivity]. cbn [andb].
    apply Nat.ltb_ge. exact H.
Qed.

Lemma short_text_within_limit : forall limit text,
  (length text <= limit)%nat -> numerals_within_limit limit text.
Proof.
  intros limit text H. right. intros pre ds post -> _.
  rewrite !length_app in H. lia.
Qed.

Lemma dot_is_no_digit : is_digit "."%char = false.
Proof. reflexivity. Qed.

Lemma split_at_dot_digits : forall ds,
  forallb is_digit ds = true -> split_at_dot ds = (ds, None).
Proof.
  induction ds as [|d ds IH]; intros H; cbn [split_at_dot].
  - reflexivity.
  - cbn [forallb] in H. apply andb_true_iff in H. destruct H as [Hd Hds].
    destruct (ascii_eqb d "."%char) eqn:E.
    + apply ascii_eqb_true in E. subst d. discriminate Hd.
    + rewrite (IH Hds). reflexivity.
Qed.

Lemma split_at_dot_decimal : forall ip fp,
  forallb is_digit ip = true ->
  split_at_dot (ip ++ "."%char :: fp) = (ip, Some fp).
Proof.
  induction ip as [|d ip IH]; intros fp H.
  - reflexivity.
  - cbn [forallb] in H. apply andb_true_iff in H. destruct H as [Hd Hip].
    cbn [app split_at_dot].
    destruct (ascii_eqb d "."%char) eqn:E.
    + apply ascii_eqb_true in E. subst d. discriminate Hd.
    + rewrite (IH fp Hip). reflexivity.
Qed.

Lemma str_eqb_nil : forall s, s <> [] -> str_eqb s [] = false.
Proof. intros [|c s] H; [contradiction | reflexivity]. Qed.

(** [float] accepts every decimal numeral. *)
Lemma py_float_decimal : forall s,
  is_decimal s -> exists v, py_float s = Ok v.
Proof.
  intros s [[Hne Hall] | (ip & fp & -> & [Hi Hiall] & [Hf Hfall])];
    unfold py_float.
  - rewrite (split_at_dot_digits _ Hall), (str_eqb_nil _ Hne), Hall.
    eexists. reflexivity.
  - rewrite (split_at_dot_decimal _ fp Hiall).
    rewrite (str_eqb_nil _ Hi), (str_eqb_nil _ Hf), Hiall, Hfall.
    eexists. reflexivity.
Qed.

(** Under either flag, the literals that are not letters accept
    themselves only. *)
Lemma accepts_dot : forall ic x,
  accepts ic (Lit "."%char) x = true -> x = "."%char.
Proof.
  intros ic x. destruct ic;
    destruct x as [[|] [|] [|] [|] [|] [|] [|] [|]]; vm_compute;
    intros H; try discriminate H; reflexivity.
Qed.

Lemma accepts_deg : forall ic x,
  accepts ic (Lit deg) x = true -> x = deg.
Proof.
  intros ic x. destruct ic;
    destruct x as [[|] [|] [|] [|] [|] [|] [|] [|]]; vm_compute;
    intros H; try discriminate H; reflexivity.
Qed.

Lemma accepts_C : forall x,
  accepts IGNORECASE (Lit "C"%char) x = true <-> (x = "C"%char \/ x = "c"%char).
Proof.
  intros x. split.
  - destruct x as [[|] [|] [|] [|] [|] [|] [|] [|]]; vm_compute;
      intros H; try discriminate H; auto.
  - intros [-> | ->]; reflexivity.
Qed.

(** [(\d+(?:\.\d+)?)] *)
Lemma group_decimal_inv : forall ic m m',
  matches ic (Group decimal) m m' ->
  exists g,
    is_decimal g /\ rest m = g ++ rest m' /\ grp m' = Some g.
Proof.
  intros ic m m' H. apply group_inv in H.
  destruct H as (m0 & mid & Hm & Hrest & Hpos & Hrest' & Hgrp).
  exists mid. rewrite Hrest'. split; [|split; assumption].
  unfold decimal in Hm. inv Hm.
  match goal with
  | H1 : matches ic digits _ _, H2 : matches ic (Opt _) _ _ |- _ =>
      apply plus_atom_inv in H1;
      destruct H1 as (ip & Hne & Hr1 & Hall1 & _ & _); unfold Opt in H2;
      inv H2
  end.
  - match goal with
    | H : matches ic (Seq _ _) _ _ |- _ => inv H
    end.
    match goal with
    | H1 : matches ic (Chr _) _ _, H2 : matches ic digits _ _ |- _ =>
        inv H1; apply plus_atom_inv in H2;
        destruct H2 as (fp & Hnf & Hr2 & Hall2 & _ & _)
    end.
    match goal with
    | H : accepts ic (Lit "."%char) _ = true |- _ =>
        apply accepts_dot in H; subst
    end.
    cbn [rest] in *. right. exists ip, fp.
    split; [|split; split; assumption].
    rewrite Hr1, Hr2 in Hrest.
    change (ip ++ "."%char :: fp ++ rest m0)
      with (ip ++ ("."%char :: fp) ++ rest m0) in Hrest.
    rewrite app_assoc in Hrest. apply app_inv_tail in Hrest.
    symmetry. exact Hrest.
  - match goal with
    | H : matches ic Eps _ _ |- _ => inv H
    end.
    left. rewrite Hr1 in Hrest. apply app_inv_tail in Hrest. subst mid.
    split; assumption.
Qed.

(** A pattern [a b (g) tail] with no other group captures what [g]
    consumes. *)
Lemma captures_third : forall (P : str -> Prop) a b g tail,
  (forall m m',
      matches IGNORECASE (Group g) m m' ->
      exists x, P x /\ rest m = x ++ rest m' /\ grp m' = Some x) ->
  group_free tail = true ->
  captures P (Seq a (Seq b (Seq (Group g) tail))).
Proof.
  intros P a b g tail Hg Hfree m m' H. inv H.
  match goal with
  | H1 : matches _ a _ ?m1, H2 : matches _ (Seq b _) _ _ |- _ =>
      destruct (matches_consumes _ _ _ _ H1) as (xa & Ha & _); inv H2
  end.
  match goal with
  | H1 : matches _ b _ ?m2, H2 : matches _ (Seq (Group g) _) _ _ |- _ =>
      destruct (matches_consumes _ _ _ _ H1) as (xb & Hb & _); inv H2
  end.
  match goal with
  | H1 : matches _ (Group g) _ ?m3, H2 : matches _ tail _ _ |- _ =>
      destruct (Hg _ _ H1) as (x & HP & Hx & Hgrp);
      pose proof (group_free_keeps _ _ _ _ H2 Hfree) as Hkeep
  end.
  exists (xa ++ xb), x. eexists.
  split; [rewrite Hkeep; exact Hgrp | split; [exact HP |]].
  rewrite Ha, Hb, Hx, <- app_assoc. reflexivity.
Qed.

Lemma captures_digits_third : forall a b tail,
  group_free tail = true ->
  captures is_digits (Seq a (Seq b (Seq (Group digits) tail))).
Proof.
  intros a b tail Hfree. apply captures_third; [|exact Hfree].
  intros m m' H. apply group_digits_inv in H.
  destruct H as (ds & Hd & Hrest & _ & Hgrp). exists ds. auto.
Qed.

Lemma captures_decimal_third : forall a b tail,
  group_free tail = true ->
  captures is_decimal (Seq a (Seq b (Seq (Group decimal) tail))).
Proof.
  intros a b tail Hfree. apply captures_third; [|exact Hfree].
  intros m m' H. apply group_decimal_inv in H.
  destruct H as (g & Hd & Hrest & Hgrp). exists g. auto.
Qed.

Lemma humidity_re_captures : captures is_digits humidity_re.
Proof. apply captures_digits_third. reflexivity. Qed.

Lemma uv_re_captures : captures is_digits uv_re.
Proof. apply captures_digits_third. reflexivity. Qed.

Lemma pressure_re_captures : captures is_decimal pressure_re.
Proof. apply captures_decimal_third. reflexivity. Qed.

Lemma wind_re_captures : captures is_decimal wind_re.
Proof. apply captures_decimal_third. reflexivity. Qed.

Lemma visibility_re_captures : captures is_decimal visibility_re.
Proof. apply captures_decimal_third. reflexivity. Qed.

(** What a search returns, for a pattern that captures [P]: group 1 is a
    substring of the text and satisfies [P]. *)
Lemma re_search_captures : forall P r text mo,
  captures P r -> re_search IGNORECASE r text = Some mo ->
  P (group1 mo) /\ occurs (group1 mo) text.
Proof.
  intros P r text mo Hcap H. apply re_search_some in H.
  destruct H as (_ & Hm & _). apply Hcap in Hm.
  destruct Hm as (before & g & after & Hgrp & HP & Hrest).
  cbn [rest] in Hrest. unfold group1. rewrite Hgrp.
  split; [exact HP |].
  exists (firstn (mstart mo) text ++ before), after.
  rewrite <- (firstn_skipn (mstart mo) text) at 1.
  rewrite Hrest, <- app_assoc. reflexivity.
Qed.

(* ================================================================= *)
(** ** The condition matcher *)

Lemma extract_condition_first : forall text before k after,
  conditions = before ++ k :: after ->
  occurs_ignoring_case k text ->
  (forall k', In k' before -> ~ occurs_ignoring_case k' text) ->
  _extract_condition text = title k.
Proof.
  intros text before k after Hl Hk Hb. unfold _extract_condition.
  rewrite Hl, first_keyword_first; [reflexivity | |].
  - apply contains_lower. exact Hk.
  - intros k' Hin. apply contains_lower_false. apply Hb. exact Hin.
Qed.

Lemma extract_condition_default : forall text,
  (forall k, In k conditions -> ~ occurs_ignoring_case k text) ->
  _extract_condition text = S_ "Partly Cloudy".
Proof.
  intros text H. unfold _extract_condition.
  replace (first_keyword _ conditions) with (@None str); [reflexivity |].
  symmetry. apply first_keyword_none. intros k Hin.
  apply contains_lower_false. apply H. exact Hin.
Qed.

Lemma extract_condition_sunny : forall text,
  occurs_ignoring_case (S_ "sunny") text ->
  _extract_condition text = S_ "Sunny".
Proof.
  intros text H.
  apply (extract_condition_first text [] (S_ "sunny") (tl conditions));
    [reflexivity | exact H | intros k' []].
Qed.

Lemma extract_condition_cloudy : forall text,
  ~ occurs_ignoring_case (S_ "sunny") text ->
  occurs_ignoring_case (S_ "cloudy") text ->
  _extract_condition text = S_ "Cloudy".
Proof.
  intros text Hs Hc.
  apply (extract_condition_first text [S_ "sunny"] (S_ "cloudy")
           (tl (tl conditions))); [reflexivity | exact Hc |].
  intros k' [<- | []]. exact Hs.
Qed.

(** What the matcher can return: the title of the first keyword found, or
    the default when none is. *)
Lemma extract_condition_cases : forall text,
  (exists before k after,
      conditions = before ++ k :: after
      /\ occurs_ignoring_case k text
      /\ (forall k', In k' before -> ~ occurs_ignoring_case k' text)
      /\ _extract_condition text = title k)
  \/ ((forall k, In k conditions -> ~ occurs_ignoring_case k text)
      /\ _extract_condition text = S_ "Partly Cloudy").
Proof.
  intros text. unfold _extract_condition.
  destruct (first_keyword _ conditions) as [k|] eqn:E.
  - left. apply first_keyword_some in E.
    destruct E as (before & after & Hl & Hk & Hb).
    exists before, k, after. split; [exact Hl |].
    split; [apply contains_lower; exact Hk |].
    split; [|reflexivity].
    intros k' Hin. apply contains_lower_false. apply Hb. exact Hin.
  - right. split; [|reflexivity].
    intros k Hin. apply contains_lower_false.
    revert k Hin. apply first_keyword_none. exact E.
Qed.

(** C3.  The condition matcher returns the title-cased form of the first
    keyword of the priority list sunny, cloudy, rainy, stormy, clear,
    overcast, partly cloudy, mostly cloudy that occurs in the text,
    whatever its case: the order of the list decides, not the place in
    the text.  Keyword by keyword: "sunny" gives "Sunny" (so a text that
    holds both "sunny" and "cloudy" gives "Sunny", wherever they stand);
    without "sunny", "cloudy" gives "Cloudy"; without these two, "rainy"
    gives "Rainy"; then "stormy" gives "Stormy", "clear" gives "Clear"
    and "overcast" gives "Overcast"; a text that holds no keyword of the
    list gives "Partly Cloudy". *)
Theorem C3_condition_priority : forall text,
  (forall before k after,
      [ S_ "sunny"; S_ "cloudy"; S_ "rainy"; S_ "stormy"; S_ "clear";
        S_ "overcast"; S_ "partly cloudy"; S_ "mostly cloudy" ]
      = before ++ k :: after ->
      occurs_ignoring_case k text ->
      (forall k', In k' before -> ~ occurs_ignoring_case k' text) ->
      _extract_condition text = title k)
  /\ (occurs_ignoring_case (S_ "sunny") text ->
      _extract_condition text = S_ "Sunny")
  /\ (occurs_ignoring_case (S_ "sunny") text ->
      occurs_ignoring_case (S_ "cloudy") text ->
      _extract_condition text = S_ "Sunny")
  /\ (~ occurs_ignoring_case (S_ "sunny") text ->
      occurs_ignoring_case (S_ "cloudy") text ->
      _extract_condition text = S_ "Cloudy")
  /\ (~ occurs_ignoring_case (S_ "sunny") text ->
      ~ occurs_ignoring_case (S_ "cloudy") text ->
      occurs_ignoring_case (S_ "rainy") text ->
      _extract_condition text = S_ "Rainy")
  /\ (~ occurs_ignoring_case (S_ "sunny") text ->
      ~ occurs_ignoring_case (S_ "cloudy") text ->
      ~ occurs_ignoring_case (S_ "rainy") text ->
      occurs_ignoring_case (S_ "stormy") text ->
      _extract_condition text = S_ "Stormy")
  /\ (~ occurs_ignoring_case (S_ "sunny") text ->
      ~ occurs_ignoring_case (S_ "cloudy") text ->
      ~ occurs_ignoring_case (S_ "rainy") text ->
      ~ occurs_ignoring_case (S_ "stormy") text ->
      occurs_ignoring_case (S_ "clear") text ->
      _extract_condition text = S_ "Clear")
  /\ (~ occurs_ignoring_case (S_ "sunny") text ->
      ~ occurs_ignoring_case (S_ "cloudy") text ->
      ~ occurs_ignoring_case (S_ "rainy") text ->
      ~ occurs_ignoring_case (S_ "stormy") text ->
      ~ occurs_ignoring_case (S_ "clear") text ->
      occurs_ignoring_case (S_ "overcast") text ->
      _extract_condition text = S_ "Overcast")
  /\ ((forall k,
         In k [ S_ "sunny"; S_ "cloudy"; S_ "rainy"; S_ "stormy";
                S_ "clear"; S_ "overcast"; S_ "partly cloudy";
                S_ "mostly cloudy" ] ->
         ~ occurs_ignoring_case k text) ->
      _extract_condition text = S_ "Partly Cloudy").
Proof.
  intros text.
  assert (Hat : forall before k after,
            conditions = before ++ k :: after ->
            occurs_ignoring_case k text ->
            Forall (fun k' => ~ occurs_ignoring_case k' text) before ->
            _extract_condition text = title k).
  { intros before k after Hl Hk Hb.
    apply (extract_condition_first text before k after Hl Hk).
    apply Forall_forall. exact Hb. }
  split; [|repeat split].
  - intros before k after Hl. exact (extract_condition_first _ _ _ _ Hl).
  - intros Hs. apply extract_condition_sunny. exact Hs.
  - intros Hs _. apply extract_condition_sunny. exact Hs.
  - intros Hs Hc. apply extract_condition_cloudy; assumption.
  - intros H1 H2 Hk.
    apply (Hat [S_ "sunny"; S_ "cloudy"] (S_ "rainy") (skipn 3 conditions));
      [reflexivity | exact Hk | repeat constructor; assumption].
  - intros H1 H2 H3 Hk.
    apply (Hat (firstn 3 conditions) (S_ "stormy") (skipn 4 conditions));
      [reflexivity | exact Hk | repeat constructor; assumption].
  - intros H1 H2 H3 H4 Hk.
    apply (Hat (firstn 4 conditions) (S_ "clear") (skipn 5 conditions));
      [reflexivity | exact Hk | repeat constructor; assumption].
  - intros H1 H2 H3 H4 H5 Hk.
    apply (Hat (firstn 5 conditions) (S_ "overcast") (skipn 6 conditions));
      [reflexivity | exact Hk | repeat constructor; assumption].
  - intros Hnone. apply extract_condition_default. exact Hnone.
Qed.

(** "cloudy" comes first in the text, "SUNNY" second: the answer is
    "Sunny". *)
Lemma C3_condition_priority_witness :
  occurs_ignoring_case (S_ "sunny") (S_ "Cloudy, later SUNNY")
  /\ occurs_ignoring_case (S_ "cloudy") (S_ "Cloudy, later SUNNY")
  /\ _extract_condition (S_ "Cloudy, later SUNNY") = S_ "Sunny".
Proof.
  assert (Hs : occurs_ignoring_case (S_ "sunny") (S_ "Cloudy, later SUNNY")).
  { exists (S_ "Cloudy, later "), (S_ "SUNNY"), []. split; reflexivity. }
  assert (Hc : occurs_ignoring_case (S_ "cloudy") (S_ "Cloudy, later SUNNY")).
  { exists [], (S_ "Cloudy"), (S_ ", later SUNNY"). split; reflexivity. }
  split; [exact Hs | split; [exact Hc |]].
  exact (proj1 (proj2 (proj2 (C3_condition_priority
                                (S_ "Cloudy, later SUNNY")))) Hs Hc).
Defined.

(** "sunny" comes before "cloudy" in the list: a text that holds it too is
    answered "Sunny". *)
Lemma C9_sunny_wins_counterexample :
  occurs_ignoring_case (S_ "partly cloudy") (S_ "Sunny, later partly cloudy")
  /\ _extract_condition (S_ "Sunny, later partly cloudy") = S_ "Sunny"
  /\ ~ always_cloudy_claim.
Proof.
  assert (H : occurs_ignoring_case (S_ "partly cloudy")
                (S_ "Sunny, later partly cloudy")).
  { exists (S_ "Sunny, later "), (S_ "partly cloudy"), [].
    split; reflexivity. }
  split; [exact H | split; [reflexivity |]].
  intros Hclaim. specialize (Hclaim _ (or_introl H)). discriminate Hclaim.
Qed.

(** C9 (amended).  A text that holds "partly cloudy" or "mostly cloudy",
    whatever its case, is answered "Cloudy" when it does not hold "sunny"
    (and "Sunny" when it does): "cloudy" is a substring of both entries
    and comes before them in the list.  The two entries are never the
    keyword that is returned: the answer is never "Mostly Cloudy", and it
    is "Partly Cloudy" only when no keyword of the list occurs, as the
    default. *)
Theorem C9_cloudy_shadows_later_entries : forall text,
  (occurs_ignoring_case (S_ "partly cloudy") text
   \/ occurs_ignoring_case (S_ "mostly cloudy") text ->
   (~ occurs_ignoring_case (S_ "sunny") text ->
    _extract_condition text = S_ "Cloudy")
   /\ (occurs_ignoring_case (S_ "sunny") text ->
       _extract_condition text = S_ "Sunny"))
  /\ _extract_condition text <> S_ "Mostly Cloudy"
  /\ (_extract_condition text = S_ "Partly Cloudy" ->
      forall k, In k conditions -> ~ occurs_ignoring_case k text)
  /\ (forall before k after,
        conditions = before ++ k :: after ->
        k = S_ "partly cloudy" \/ k = S_ "mostly cloudy" ->
        ~ (occurs_ignoring_case k text
           /\ forall k', In k' before -> ~ occurs_ignoring_case k' text)).
Proof.
  intros text.
  assert (Hpart : occurs_ignoring_case (S_ "partly cloudy") text ->
                  occurs_ignoring_case (S_ "cloudy") text).
  { apply (occurs_ignoring_case_part (S_ "partly ") (S_ "cloudy") []). }
  assert (Hmost : occurs_ignoring_case (S_ "mostly cloudy") text ->
                  occurs_ignoring_case (S_ "cloudy") text).
  { apply (occurs_ignoring_case_part (S_ "mostly ") (S_ "cloudy") []). }
  assert (Hshadow : forall before k after,
            conditions = before ++ k :: after ->
            k = S_ "partly cloudy" \/ k = S_ "mostly cloudy" ->
            ~ (occurs_ignoring_case k text
               /\ forall k', In k' before -> ~ occurs_ignoring_case k' text)).
  { intros before k after Hl Hk [Hocc Hb].
    assert (Hc : occurs_ignoring_case (S_ "cloudy") text)
      by (destruct Hk; subst k; auto).
    apply (Hb (S_ "cloudy")); [|exact Hc].
    unfold conditions in Hl.
    destruct before as [|b0 before].
    { injection Hl as Hk0 _. subst k. destruct Hk; discriminate. }
    destruct before as [|b1 before].
    { injection Hl as _ Hk1 _. subst k. destruct Hk; discriminate. }
    injection Hl as _ Hb1 _. subst b1. right. left. reflexivity. }
  split; [|split; [|split]].
  - intros Hor. assert (Hc : occurs_ignoring_case (S_ "cloudy") text)
      by (destruct Hor; auto).
    split.
    + intros Hs. apply extract_condition_cloudy; assumption.
    + apply extract_condition_sunny.
  - destruct (extract_condition_cases text)
      as [(before & k & after & Hl & Hk & Hb & ->) | [_ ->]];
      [|discriminate].
    intros Ht.
    assert (Hkm : k = S_ "mostly cloudy").
    { assert (Hin : In k conditions) by (rewrite Hl; apply in_elt).
      simpl in Hin.
      repeat (destruct Hin as [<- | Hin]; [try discriminate Ht |]);
        try reflexivity. destruct Hin. }
    apply (Hshadow before k after Hl (or_intror Hkm)). split; assumption.
  - destruct (extract_condition_cases text)
      as [(before & k & after & Hl & Hk & Hb & ->) | [Hnone _]];
      [|intros _; exact Hnone].
    intros Ht.
    assert (Hkp : k = S_ "partly cloudy").
    { assert (Hin : In k conditions) by (rewrite Hl; apply in_elt).
      simpl in Hin.
      repeat (destruct Hin as [<- | Hin]; [try discriminate Ht |]);
        try reflexivity. destruct Hin. }
    exfalso.
    apply (Hshadow before k after Hl (or_introl Hkp)). split; assumption.
  - exact Hshadow.
Qed.

Lemma C9_cloudy_shadows_later_entries_witness :
  occurs_ignoring_case (S_ "mostly cloudy") (S_ "Mostly Cloudy, 31 degrees")
  /\ ~ occurs_ignoring_case (S_ "sunny") (S_ "Mostly Cloudy, 31 degrees")
  /\ _extract_condition (S_ "Mostly Cloudy, 31 degrees") = S_ "Cloudy".
Proof.
  assert (Hm : occurs_ignoring_case (S_ "mostly cloudy")
                 (S_ "Mostly Cloudy, 31 degrees")).
  { exists [], (S_ "Mostly Cloudy"), (S_ ", 31 degrees"). split; reflexivity. }
  assert (Hs : ~ occurs_ignoring_case (S_ "sunny")
                 (S_ "Mostly Cloudy, 31 degrees")).
  { apply contains_lower_false. reflexivity. }
  split; [exact Hm | split; [exact Hs |]].
  exact (proj1 (proj1 (C9_cloudy_shadows_later_entries
                         (S_ "Mostly Cloudy, 31 degrees"))
                  (or_intror Hm)) Hs).
Defined.

(* ================================================================= *)
(** ** The record builder *)

(** C10.  In every weather record that is built, the country is "India"
    when the caller gave [None] or the empty string, and the caller's
    country otherwise; it is a string in every case. *)
Theorem C10_country_defaults_to_India :
  forall limit text city state country clock t record,
    fst (_parse_bing_weather limit text city state country clock t)
    = Some record ->
    WeatherResponse.country record =
      match country with
      | None => S_ "India"
      | Some c => if str_eqb c [] then S_ "India" else c
      end.
Proof.
  intros limit text city state country clock t record.
  unfold _parse_bing_weather.
  destruct (_extract_current_weather limit text) as [cw|]; [|discriminate].
  destruct (_extract_forecast_data clock t) as [forecast t1].
  simpl. intros H. injection H as <-. simpl.
  destruct country as [[|c cs]|]; reflexivity.
Qed.

Lemma C10_country_defaults_to_India_witness :
  (exists record,
     fst (_parse_bing_weather default_max_str_digits sample_text (S_ "Delhi") (Some (S_ "Delhi"))
            None (noon 739923) 0) = Some record
     /\ WeatherResponse.country record = S_ "India")
  /\ (exists record,
     fst (_parse_bing_weather default_max_str_digits sample_text (S_ "Delhi") None (Some [])
            (noon 739923) 0) = Some record
     /\ WeatherResponse.country record = S_ "India")
  /\ (exists record,
     fst (_parse_bing_weather default_max_str_digits sample_text (S_ "Lyon") None
            (Some (S_ "France")) (noon 739923) 0) = Some record
     /\ WeatherResponse.country record = S_ "France").
Proof.
  split; [|split]; eexists; (split; [vm_compute; reflexivity |]).
  - refine (C10_country_defaults_to_India default_max_str_digits sample_text
              (S_ "Delhi") (Some (S_ "Delhi")) None (noon 739923) 0%nat _ _).
    vm_compute. reflexivity.
  - refine (C10_country_defaults_to_India default_max_str_digits sample_text
              (S_ "Delhi") None (Some []) (noon 739923) 0%nat _ _).
    vm_compute. reflexivity.
  - refine (C10_country_defaults_to_India default_max_str_digits sample_text
              (S_ "Lyon") None (Some (S_ "France")) (noon 739923) 0%nat _ _).
    vm_compute. reflexivity.
Defined.

(* ================================================================= *)
(** ** City names *)

Lemma city_class_accepts : forall c,
  accepts NOFLAGS city_class c = true <-> city_char c.
Proof.
  intros c. unfold accepts, city_class, existsb, item_accepts, city_char,
    is_letter_ascii, is_upper_ascii, is_lower_ascii.
  change (code "a"%char) with 97%N. change (code "z"%char) with 122%N.
  change (code "A"%char) with 65%N. change (code "Z"%char) with 90%N.
  rewrite !orb_true_iff, !ascii_eqb_true.
  split; [intros H; decompose [or] H; try discriminate; tauto | tauto].
Qed.

Lemma city_class_forall : forall s,
  forallb (accepts NOFLAGS city_class) s = true <-> Forall city_char s.
Proof.
  intros s. rewrite forallb_forall, Forall_forall.
  split; intros H c Hin; apply city_class_accepts; auto.
Qed.

(** The pattern of a city name matches exactly the non-empty strings made
    of the characters of the class. *)
Lemma city_re_matches : forall s,
  matched (re_match NOFLAGS city_re s) = true
  <-> (s <> [] /\ Forall city_char s).
Proof.
  intros s. rewrite re_match_matched. unfold city_re. cbn [Cat]. split.
  - intros [m' H]. inv H.
    match goal with
    | H1 : matches _ Bol _ _, H2 : matches _ (Seq _ _) _ _ |- _ =>
        inv H1; inv H2
    end.
    match goal with
    | H1 : matches _ (Plus _) _ _, H2 : matches _ (Seq Eol Eps) _ _ |- _ =>
        apply plus_atom_inv in H1;
        destruct H1 as (mid & Hne & Hrest & Hall & _ & _); inv H2
    end.
    match goal with
    | H1 : matches _ Eol _ _, H2 : matches _ Eps _ _ |- _ => inv H1; inv H2
    end.
    cbn [rest] in Hrest. subst s. apply city_class_forall in Hall.
    split; [destruct mid; [contradiction | discriminate] |].
    match goal with
    | H : rest m' = [] \/ rest m' = [newline] |- _ =>
        destruct H as [-> | ->]
    end.
    + rewrite app_nil_r. exact Hall.
    + apply Forall_app. split; [exact Hall |].
      constructor; [|constructor]. right. left. reflexivity.
  - intros [Hne Hall]. apply city_class_forall in Hall.
    exists (MS (0 + length s) [] None).
    apply M_Seq with (m1 := MS 0 s None); [constructor; reflexivity |].
    apply M_Seq with (m1 := MS (0 + length s) [] None).
    + rewrite <- (app_nil_r s) at 1. apply plus_atom_intro; assumption.
    + apply M_Seq with (m1 := MS (0 + length s) [] None);
        constructor. left. reflexivity.
Qed.

Lemma strip_of_empty : forall city, city = [] -> strip city = [].
Proof. intros city ->. reflexivity. Qed.

Lemma validate_city_name_spec : forall city,
  validate_city_name city = true
  <-> ((2 <= length (strip city))%nat /\ Forall city_char (strip city)).
Proof.
  intros city. unfold validate_city_name.
  destruct city as [|c city'].
  - simpl. split; [discriminate | intros [H _]; simpl in H; lia].
  - cbn [str_eqb orb].
    destruct (length (strip (c :: city')) <? 2)%nat eqn:E.
    + apply Nat.ltb_lt in E. split; [discriminate | intros [H _]; lia].
    + apply Nat.ltb_ge in E. rewrite city_re_matches. split.
      * intros [_ H]. split; assumption.
      * intros [_ H]. split; [|exact H].
        intros Hnil. rewrite Hnil in E. simpl in E. lia.
Qed.

(** The name "A" is not empty and is a letter, and is refused. *)
Lemma C8_one_letter_counterexample :
  strip (S_ "A") <> []
  /\ Forall city_char (strip (S_ "A"))
  /\ validate_city_name (S_ "A") = false
  /\ CityValidator.validate_city_name (S_ "A") = false
  /\ ~ city_rule_without_length validate_city_name
  /\ ~ city_rule_without_length CityValidator.validate_city_name.
Proof.
  assert (Hne : strip (S_ "A") <> []) by discriminate.
  assert (Hall : Forall city_char (strip (S_ "A"))).
  { constructor; [left; reflexivity | constructor]. }
  split; [exact Hne | split; [exact Hall |]].
  split; [reflexivity | split; [reflexivity |]].
  split; intros Hclaim;
    destruct (Hclaim (S_ "A")) as [_ H];
    specialize (H (conj Hne Hall)); discriminate H.
Qed.

(** C8 (amended).  Both validators accept a name exactly when, once
    trimmed, it has at least two characters and consists only of ASCII
    letters, white space, hyphens, apostrophes and dots; the minimum
    length of two is the only other condition. *)
Theorem C8_city_name_validation : forall city,
  (validate_city_name city = true
   <-> ((2 <= length (strip city))%nat /\ Forall city_char (strip city)))
  /\ (CityValidator.validate_city_name city = true
      <-> ((2 <= length (strip city))%nat /\ Forall city_char (strip city))).
Proof.
  intros city. split; apply validate_city_name_spec.
Qed.

Lemma C8_city_name_validation_witness :
  (2 <= length (strip (S_ "  St. John's ")))%nat
  /\ Forall city_char (strip (S_ "  St. John's "))
  /\ validate_city_name (S_ "  St. John's ") = true
  /\ CityValidator.validate_city_name (S_ "  St. John's ") = true.
Proof.
  assert (Hlen : (2 <= length (strip (S_ "  St. John's ")))%nat)
    by (vm_compute; lia).
  assert (Hall : Forall city_char (strip (S_ "  St. John's "))).
  { apply city_class_forall. reflexivity. }
  split; [exact Hlen | split; [exact Hall |]].
  split.
  - exact (proj2 (proj1 (C8_city_name_validation (S_ "  St. John's ")))
             (conj Hlen Hall)).
  - exact (proj2 (proj2 (C8_city_name_validation (S_ "  St. John's ")))
             (conj Hlen Hall)).
Defined.

(* ================================================================= *)
(** ** The forecasts *)

Lemma range_length : forall n, length (range n) = Z.to_nat n.
Proof. intros n. unfold range. rewrite length_map, length_seq. reflexivity. Qed.

Lemma range_In : forall n i, In i (range n) <-> 0 <= i < n.
Proof.
  intros n i. unfold range. rewrite in_map_iff. split.
  - intros (k & <- & Hk). apply in_seq in Hk. lia.
  - intros H. exists (Z.to_nat i). split; [lia |]. apply in_seq. lia.
Qed.

Lemma range_nth : forall (A : Type) (f : Z -> A) n i,
  0 <= i < n -> nth_error (map f (range n)) (Z.to_nat i) = Some (f i).
Proof.
  intros A f n i H. unfold range. rewrite map_map.
  rewrite nth_error_map, nth_error_seq.
  destruct (Nat.ltb_spec (Z.to_nat i) (Z.to_nat n)) as [_|Hge]; [|lia].
  simpl. f_equal. f_equal. lia.
Qed.

Lemma range_nonpositive : forall n, n <= 0 -> range n = [].
Proof.
  intros n H. unfold range. replace (Z.to_nat n) with 0%nat by lia.
  reflexivity.
Qed.

(** The date of a turn depends on the day the clock shows, nothing else. *)
Lemma forecast_date_value : forall i clock t,
  forecast_date i clock t = (date_after (ordinal (clock t)) i, S t).
Proof.
  intros i clock t. unfold forecast_date, bindM, now, lift, ret, date_after,
    timedelta_days, datetime_add.
  destruct (Z.abs i <=? 999999999); [|reflexivity].
  cbn [andb ordinal].
  destruct ((1 <=? ordinal (clock t) + i)
            && (ordinal (clock t) + i <=? MAXORDINAL)); reflexivity.
Qed.

(** A loop whose turns read the clock once and depend on it through [h]
    only. *)
Lemma for_append_collect : forall (A : Type) (body : Z -> M A) h clock l t,
  (forall i t', In i l -> body i clock t' = (h i, S t')) ->
  fst (for_append body l clock t) = collect h l.
Proof.
  intros A body h clock l. induction l as [|i l IH]; intros t H.
  - reflexivity.
  - cbn [for_append collect]. unfold bindM at 1.
    rewrite (H i t (or_introl eq_refl)).
    destruct (h i) as [a|e]; [|reflexivity].
    cbn [bind]. unfold bindM.
    specialize (IH (S t) (fun j t' Hj => H j t' (or_intror Hj))).
    destruct (for_append body l clock (S t)) as [[out|e] t'];
      cbn [fst] in IH; rewrite <- IH; reflexivity.
Qed.

Lemma collect_ok : forall (A : Type) (h : Z -> res A) f l,
  (forall i, In i l -> h i = Ok (f i)) -> collect h l = Ok (map f l).
Proof.
  intros A h f l. induction l as [|i l IH]; intros H.
  - reflexivity.
  - cbn [collect map]. rewrite (H i (or_introl eq_refl)). cbn [bind].
    rewrite IH; [reflexivity |]. intros j Hj. apply H. right. exact Hj.
Qed.

Lemma collect_raise : forall (A : Type) (h : Z -> res A) l i e,
  In i l -> h i = Raise e -> exists e', collect h l = Raise e'.
Proof.
  intros A h l i e. induction l as [|j l IH]; intros Hin Hi.
  - destruct Hin.
  - cbn [collect]. destruct Hin as [-> | Hin].
    + rewrite Hi. eexists. reflexivity.
    + destruct (h j) as [a|e1]; [|eexists; reflexivity]. cbn [bind].
      destruct (IH Hin Hi) as [e' ->]. eexists. reflexivity.
Qed.

Lemma collect_Forall : forall (A : Type) (h : Z -> res A) (P : A -> Prop) l out,
  (forall i a, In i l -> h i = Ok a -> P a) ->
  collect h l = Ok out -> Forall P out.
Proof.
  intros A h P l. induction l as [|i l IH]; intros out HP H.
  - injection H as <-. constructor.
  - cbn [collect] in H. destruct (h i) as [a|e] eqn:Ei; [|discriminate H].
    cbn [bind] in H. destruct (collect h l) as [out'|e] eqn:El;
      [|discriminate H].
    injection H as <-. constructor.
    + apply (HP i a); [left; reflexivity | exact Ei].
    + apply IH; [|reflexivity]. intros j b Hj. apply HP. right. exact Hj.
Qed.

Lemma date_after_ok : forall today i,
  1 <= today -> 0 <= i -> today + i <= MAXORDINAL ->
  date_after today i = Ok (date_string (today + i)).
Proof.
  intros today i H1 H2 H3. unfold date_after, MAXORDINAL in *.
  replace (Z.abs i <=? 999999999) with true by (symmetry; apply Z.leb_le; lia).
  replace (1 <=? today + i) with true by (symmetry; apply Z.leb_le; lia).
  replace (today + i <=? 3652059) with true by (symmetry; apply Z.leb_le; lia).
  reflexivity.
Qed.

Lemma date_after_overflow : forall today i,
  MAXORDINAL < today + i -> date_after today i = Raise OverflowError.
Proof.
  intros today i H. unfold date_after.
  replace (today + i <=? MAXORDINAL) with false
    by (symmetry; apply Z.leb_gt; lia).
  rewrite andb_false_r. reflexivity.
Qed.

(** ** The forecast endpoint *)

Lemma forecast_day_entry_at : forall clock i t,
  forecast_day_entry i clock t = (endpoint_turn (ordinal (clock t)) i, S t).
Proof.
  intros clock i t. unfold forecast_day_entry, bindM.
  rewrite forecast_date_value. unfold endpoint_turn.
  destruct (date_after (ordinal (clock t)) i); reflexivity.
Qed.

Lemma forecast_day_entry_value : forall clock today i t,
  same_day clock today ->
  forecast_day_entry i clock t = (endpoint_turn today i, S t).
Proof.
  intros clock today i t Hday. rewrite forecast_day_entry_at, (Hday t).
  reflexivity.
Qed.

Lemma scrape_forecast_data_value : forall city days clock today t,
  same_day clock today ->
  fst (scrape_forecast_data city days clock t)
  = catch (entries <- collect (endpoint_turn today) (range days) ;;
           Ok (ForecastData.Build city days entries)).
Proof.
  intros city days clock today t Hday.
  unfold scrape_forecast_data, catchM, bindM.
  pose proof (for_append_collect _ forecast_day_entry (endpoint_turn today)
                clock (range days) t
                (fun i t' _ => forecast_day_entry_value clock today i t' Hday))
    as H.
  destruct (for_append forecast_day_entry (range days) clock t)
    as [[out|e] t']; cbn [fst] in H; rewrite <- H; reflexivity.
Qed.

Lemma endpoint_turn_ok : forall today i,
  1 <= today -> 0 <= i -> today + i <= MAXORDINAL ->
  endpoint_turn today i = Ok (endpoint_entry today i).
Proof.
  intros today i H1 H2 H3. unfold endpoint_turn, endpoint_entry.
  rewrite date_after_ok by assumption. cbn [bind].
  replace (i * 5) with (5 * i) by lia. reflexivity.
Qed.

Lemma scrape_forecast_data_in_range : forall city days clock today t,
  same_day clock today -> 1 <= today -> today + days - 1 <= MAXORDINAL ->
  fst (scrape_forecast_data city days clock t)
  = Some (ForecastData.Build city days
            (map (endpoint_entry today) (range days))).
Proof.
  intros city days clock today t Hday H1 H2.
  rewrite (scrape_forecast_data_value city days clock today t Hday).
  rewrite (collect_ok _ _ (endpoint_entry today)); [reflexivity |].
  intros i Hi. apply range_In in Hi. apply endpoint_turn_ok; lia.
Qed.

Lemma scrape_forecast_data_overflow : forall city days clock today t,
  same_day clock today -> 1 <= today <= MAXORDINAL ->
  MAXORDINAL < today + days - 1 ->
  fst (scrape_forecast_data city days clock t) = None.
Proof.
  intros city days clock today t Hday H1 H2.
  rewrite (scrape_forecast_data_value city days clock today t Hday).
  destruct (collect_raise _ (endpoint_turn today) (range days) (days - 1)
              OverflowError) as [e' ->]; [| |reflexivity].
  - apply range_In. lia.
  - unfold endpoint_turn. rewrite date_after_overflow by lia. reflexivity.
Qed.

(** ** The forecast of a weather record *)

Lemma sample_forecast_entry_at : forall clock i t,
  sample_forecast_entry i clock t = (sample_turn (ordinal (clock t)) i, S t).
Proof.
  intros clock i t. unfold sample_forecast_entry, bindM.
  rewrite forecast_date_value. unfold sample_turn, lift.
  destruct (date_after (ordinal (clock t)) i); [|reflexivity]. cbn [bind].
  destruct (float_of_int i); reflexivity.
Qed.

Lemma sample_forecast_entry_value : forall clock today i t,
  same_day clock today ->
  sample_forecast_entry i clock t = (sample_turn today i, S t).
Proof.
  intros clock today i t Hday. rewrite sample_forecast_entry_at, (Hday t).
  reflexivity.
Qed.

Lemma extract_forecast_data_value : forall clock today t,
  same_day clock today ->
  fst (_extract_forecast_data clock t)
  = catch (collect (sample_turn today) (range 7)).
Proof.
  intros clock today t Hday. unfold _extract_forecast_data, catchM.
  pose proof (for_append_collect _ sample_forecast_entry (sample_turn today)
                clock (range 7) t
                (fun i t' _ => sample_forecast_entry_value clock today i t' Hday))
    as H.
  destruct (for_append sample_forecast_entry (range 7) clock t)
    as [[out|e] t']; cbn [fst] in H; rewrite <- H; reflexivity.
Qed.

Lemma extract_forecast_data_in_range : forall clock today t,
  same_day clock today -> 1 <= today -> today + 6 <= MAXORDINAL ->
  fst (_extract_forecast_data clock t) = Some (sample_forecast today).
Proof.
  intros clock today t Hday H1 H2.
  rewrite (extract_forecast_data_value clock today t Hday).
  change (range 7) with [0; 1; 2; 3; 4; 5; 6].
  cbn [collect]. unfold sample_turn.
  rewrite !date_after_ok by lia. reflexivity.
Qed.

(** The highs and lows of the turns of the record forecast. *)
Lemma sample_turn_low_below_high : forall today i e,
  0 <= i < 7 -> sample_turn today i = Ok e -> six_apart e.
Proof.
  intros today i e Hi H. unfold sample_turn in H.
  destruct (date_after today i) as [d|]; [|discriminate H]. cbn [bind] in H.
  assert (Hcases : i = 0 \/ i = 1 \/ i = 2 \/ i = 3 \/ i = 4 \/ i = 5 \/ i = 6)
    by lia.
  decompose [or] Hcases; subst i; cbn in H; injection H as <-;
    repeat split; reflexivity.
Qed.

Lemma float_neq_31_28 : 31%float <> 28%float.
Proof.
  intros H. apply (f_equal (fun x => PrimFloat.eqb x 28)) in H.
  vm_compute in H. discriminate H.
Qed.

(** The record forecast of 2026-11-03: on day 3 the high is 31.0, not
    28 + 3 mod 3, and the low is 25.0, not 22 + 3 mod 2. *)
Lemma C4_record_forecast_counterexample :
  fst (_extract_forecast_data (noon 739923) 0)
  = Some (sample_forecast 739923)
  /\ nth_error (sample_forecast 739923) 3
     = Some (sample_entry 739923 3 31 25)
  /\ float_of_int (28 + 3 mod 3) = Ok 28%float
  /\ ~ record_forecast_uses_moduli.
Proof.
  assert (H : fst (_extract_forecast_data (noon 739923) 0)
              = Some (sample_forecast 739923)) by (vm_compute; reflexivity).
  split; [exact H | split; [reflexivity | split; [reflexivity |]]].
  intros Hclaim.
  destruct (Hclaim (noon 739923) 0%nat (sample_forecast 739923) 3
              (sample_entry 739923 3 31 25) 28%float 23%float H
              eq_refl ltac:(lia) eq_refl eq_refl) as [Hhigh _].
  exact (float_neq_31_28 Hhigh).
Qed.

(** C4 (amended).  On a day [today], the forecast of a weather record has
    seven entries, day [i] of which has the date [today + i], the high
    28.0 + i and the low 22.0 + i (no modulus), the condition "Partly
    Cloudy" and a precipitation chance of 30; the forecast endpoint, asked
    for [days] days, gives for each [i] in [0, days) the date [today + i],
    the high 28 + (i mod 3), the low 22 + (i mod 2), "Partly Cloudy" and the
    precipitation text of 30 + 5*i followed by a percent sign.  Both hold
    as long as the dates stay within the calendar (up to 9999-12-31). *)
Theorem C4_forecast_formulas : forall clock today t,
  same_day clock today -> 1 <= today ->
  (today + 6 <= MAXORDINAL ->
   fst (_extract_forecast_data clock t) = Some (sample_forecast today))
  /\ (forall city days,
        today + days - 1 <= MAXORDINAL ->
        exists fd,
          fst (scrape_forecast_data city days clock t) = Some fd
          /\ ForecastData.city fd = city
          /\ ForecastData.forecast_days fd = days
          /\ forall i, 0 <= i < days ->
               nth_error (ForecastData.forecast fd) (Z.to_nat i)
               = Some (endpoint_entry today i)).
Proof.
  intros clock today t Hday H1. split.
  - intros H2. apply extract_forecast_data_in_range; assumption.
  - intros city days H2. eexists. split.
    + apply (scrape_forecast_data_in_range city days clock today t);
        assumption.
    + cbn [ForecastData.city ForecastData.forecast_days
           ForecastData.forecast].
      split; [reflexivity | split; [reflexivity |]].
      intros i Hi. apply range_nth. exact Hi.
Qed.

Lemma noon_same_day : forall day, same_day (noon day) day.
Proof. intros day k. reflexivity. Qed.

Lemma C4_forecast_formulas_witness :
  fst (_extract_forecast_data (noon 739923) 0)
  = Some (sample_forecast 739923)
  /\ exists fd,
       fst (scrape_forecast_data (S_ "Pune") 10 (noon 739923) 0) = Some fd
       /\ nth_error (ForecastData.forecast fd) (Z.to_nat 4)
          = Some (endpoint_entry 739923 4).
Proof.
  destruct (C4_forecast_formulas (noon 739923) 739923 0%nat
              (noon_same_day 739923) ltac:(lia)) as [Hrecord Hendpoint].
  split.
  - apply Hrecord. unfold MAXORDINAL. lia.
  - destruct (Hendpoint (S_ "Pune") 10 ltac:(unfold MAXORDINAL; lia))
      as (fd & Hfd & _ & _ & Hnth).
    exists fd. split; [exact Hfd | apply Hnth; lia].
Defined.

(** ** Length and determinism *)

(** Asked for -1 day, the endpoint answers with no entry; asked for four
    million days on 2026-11-03, it answers [None] (the dates leave the
    calendar). *)
Lemma C5_length_counterexample :
  fst (scrape_forecast_data (S_ "Pune") (-1) (noon 739923) 0)
  = Some (ForecastData.Build (S_ "Pune") (-1) [])
  /\ fst (scrape_forecast_data (S_ "Pune") 4000000 (noon 739923) 0) = None
  /\ ~ forecast_length_always_days.
Proof.
  assert (Hneg : fst (scrape_forecast_data (S_ "Pune") (-1) (noon 739923) 0)
                 = Some (ForecastData.Build (S_ "Pune") (-1) []))
    by reflexivity.
  split; [exact Hneg | split].
  - apply (scrape_forecast_data_overflow _ _ _ 739923);
      [apply noon_same_day | unfold MAXORDINAL; lia | unfold MAXORDINAL; lia].
  - intros Hclaim.
    destruct (Hclaim (S_ "Pune") (-1) (noon 739923) 0%nat 739923
                (noon_same_day 739923) ltac:(unfold MAXORDINAL; lia))
      as (fd & Hfd & Hlen).
    rewrite Hneg in Hfd. injection Hfd as <-. simpl in Hlen. lia.
Qed.

(** C5 (amended).  For a fixed day, the forecast endpoint is
    deterministic: two calls for the same city and day count on that day
    give the same answer, whatever the time of day.  The answer has as
    many entries as days were asked when that count is not negative and
    the dates stay within the calendar (the last one not after
    9999-12-31): none for 0 days, 100 for 100 days.  A negative count
    gives no entry, and a count that takes the dates out of the calendar
    gives no answer at all. *)
Theorem C5_forecast_deterministic_length :
  forall city days clock1 clock2 t1 t2 today,
    same_day clock1 today -> same_day clock2 today ->
    1 <= today <= MAXORDINAL ->
    fst (scrape_forecast_data city days clock1 t1)
    = fst (scrape_forecast_data city days clock2 t2)
    /\ (0 <= days -> today + days - 1 <= MAXORDINAL ->
        exists fd,
          fst (scrape_forecast_data city days clock1 t1) = Some fd
          /\ Z.of_nat (length (ForecastData.forecast fd)) = days)
    /\ (exists fd,
          fst (scrape_forecast_data city 0 clock1 t1) = Some fd
          /\ ForecastData.forecast fd = [])
    /\ (today + 99 <= MAXORDINAL ->
        exists fd,
          fst (scrape_forecast_data city 100 clock1 t1) = Some fd
          /\ length (ForecastData.forecast fd) = 100%nat)
    /\ (days < 0 ->
        exists fd,
          fst (scrape_forecast_data city days clock1 t1) = Some fd
          /\ ForecastData.forecast fd = [])
    /\ (MAXORDINAL < today + days - 1 ->
        fst (scrape_forecast_data city days clock1 t1) = None).
Proof.
  intros city days clock1 clock2 t1 t2 today Hday1 Hday2 Htoday.
  split; [|split; [|split; [|split; [|split]]]].
  - rewrite (scrape_forecast_data_value city days clock1 today t1 Hday1),
      (scrape_forecast_data_value city days clock2 today t2 Hday2).
    reflexivity.
  - intros H0 Hmax. eexists. split.
    + apply (scrape_forecast_data_in_range city days clock1 today t1);
        [assumption | lia | assumption].
    + cbn [ForecastData.forecast]. rewrite length_map, range_length. lia.
  - eexists. split.
    + apply (scrape_forecast_data_in_range city 0 clock1 today t1);
        [assumption | lia | lia].
    + reflexivity.
  - intros Hmax. eexists. split.
    + apply (scrape_forecast_data_in_range city 100 clock1 today t1);
        [assumption | lia | lia].
    + cbn [ForecastData.forecast]. rewrite length_map, range_length.
      reflexivity.
  - intros Hneg. eexists. split.
    + apply (scrape_forecast_data_in_range city days clock1 today t1);
        [assumption | lia | lia].
    + cbn [ForecastData.forecast]. rewrite range_nonpositive by lia.
      reflexivity.
  - intros Hover.
    apply (scrape_forecast_data_overflow city days clock1 today t1);
      assumption.
Qed.

(** Two calls on 2026-11-03, one at noon and one at another time of day
    and another count of clock reads: the same seven-day answer. *)
Lemma C5_forecast_deterministic_length_witness :
  fst (scrape_forecast_data (S_ "Pune") 7 (noon 739923) 0)
  = fst (scrape_forecast_data (S_ "Pune") 7
           (fun k => DT 739923 (Z.of_nat k)) 5)
  /\ exists fd,
       fst (scrape_forecast_data (S_ "Pune") 7 (noon 739923) 0) = Some fd
       /\ Z.of_nat (length (ForecastData.forecast fd)) = 7.
Proof.
  destruct (C5_forecast_deterministic_length (S_ "Pune") 7 (noon 739923)
              (fun k => DT 739923 (Z.of_nat k)) 0%nat 5%nat 739923
              (noon_same_day 739923) (fun k => eq_refl)
              ltac:(unfold MAXORDINAL; lia))
    as (Hdet & Hlen & _).
  split; [exact Hdet |].
  apply Hlen; unfold MAXORDINAL; lia.
Defined.

(** ** High and low *)

Lemma for_append_Forall :
  forall (A : Type) (body : Z -> M A) (P : A -> Prop) clock l t out t',
    (forall i t1 a t2, In i l -> body i clock t1 = (Ok a, t2) -> P a) ->
    for_append body l clock t = (Ok out, t') -> Forall P out.
Proof.
  intros A body P clock l. induction l as [|i l IH]; intros t out t' HP H.
  - cbn in H. injection H as <- _. constructor.
  - cbn [for_append] in H. unfold bindM at 1 in H.
    destruct (body i clock t) as [[a|e] t1] eqn:Ei; [|discriminate H].
    unfold bindM at 1 in H.
    destruct (for_append body l clock t1) as [[out'|e] t2] eqn:El;
      [|discriminate H].
    cbn in H. injection H as <- _. constructor.
    + apply (HP i t a t1); [left; reflexivity | exact Ei].
    + apply (IH t1 out' t2); [|exact El].
      intros j ta b tb Hj. apply HP. right. exact Hj.
Qed.

Lemma extract_forecast_data_six_apart : forall clock t l,
  fst (_extract_forecast_data clock t) = Some l -> Forall six_apart l.
Proof.
  intros clock t l. unfold _extract_forecast_data, catchM.
  destruct (for_append sample_forecast_entry (range 7) clock t)
    as [[out|e] t'] eqn:E; cbn [fst catch]; [|discriminate].
  intros H. injection H as <-.
  apply (for_append_Forall _ _ six_apart) in E;
    [exact E |].
  intros i t1 a t2 Hi Ha. apply range_In in Hi.
  rewrite sample_forecast_entry_at in Ha. injection Ha as Ha _.
  exact (sample_turn_low_below_high _ _ _ Hi Ha).
Qed.

Lemma scrape_forecast_data_bounds : forall city days clock t fd,
  fst (scrape_forecast_data city days clock t) = Some fd ->
  Forall high_28_30_low_22_23 (ForecastData.forecast fd).
Proof.
  intros city days clock t fd. unfold scrape_forecast_data, catchM, bindM.
  destruct (for_append forecast_day_entry (range days) clock t)
    as [[out|e] t'] eqn:E; cbn [fst catch ret]; [|discriminate].
  intros H. injection H as <-. cbn [ForecastData.forecast].
  apply (for_append_Forall _ _ high_28_30_low_22_23) in E;
    [exact E |].
  intros i t1 a t2 _ Ha.
  rewrite forecast_day_entry_at in Ha. injection Ha as Ha _.
  unfold endpoint_turn in Ha.
  destruct (date_after (ordinal (clock t1)) i); [|discriminate Ha].
  unfold bind in Ha.
  assert (Hh : 28 <= 28 + i mod 3 <= 30)
    by (pose proof (Z.mod_pos_bound i 3 ltac:(lia)); lia).
  assert (Hl : 22 <= 22 + i mod 2 <= 23)
    by (pose proof (Z.mod_pos_bound i 2 ltac:(lia)); lia).
  remember (28 + i mod 3) as high eqn:Ehigh.
  remember (22 + i mod 2) as low eqn:Elow.
  clear Ehigh Elow. injection Ha as <-.
  split; assumption.
Qed.

(** No synthesized entry has its low above its high. *)
Lemma C6_low_never_exceeds_high_counterexample :
  ~ low_exceeds_high_somewhere.
Proof.
  intros [(clock & t & l & e & Hl & Hin & Hlt)
         | (city & days & clock & t & fd & e & Hfd & Hin & Hlt)].
  - apply extract_forecast_data_six_apart in Hl.
    rewrite Forall_forall in Hl. destruct (Hl e Hin) as (_ & Hge & _).
    rewrite Hge in Hlt. discriminate Hlt.
  - apply scrape_forecast_data_bounds in Hfd.
    rewrite Forall_forall in Hfd. destruct (Hfd e Hin) as [Hh Hlo]. lia.
Qed.

(** C6 (amended).  The formulas of the forecasts keep the high above the
    low: in the forecast of a weather record every entry has its low
    below its high, six degrees apart (28.0 + i against 22.0 + i), and in
    the forecast endpoint every entry has a high between 28 and 30 and a
    low of 22 or 23, for every day count and every day index. *)
Theorem C6_high_stays_above_low : forall clock t,
  (forall l,
      fst (_extract_forecast_data clock t) = Some l -> Forall six_apart l)
  /\ (forall city days fd,
        fst (scrape_forecast_data city days clock t) = Some fd ->
        Forall high_28_30_low_22_23 (ForecastData.forecast fd)
        /\ Forall (fun e => ForecastDay.low_temp e < ForecastDay.high_temp e)
             (ForecastData.forecast fd)).
Proof.
  intros clock t. split.
  - intros l. apply extract_forecast_data_six_apart.
  - intros city days fd H. apply scrape_forecast_data_bounds in H.
    split; [exact H |].
    eapply Forall_impl; [|exact H].
    intros e [Hh Hl]. lia.
Qed.

Lemma C6_high_stays_above_low_witness :
  (exists l,
     fst (_extract_forecast_data (noon 739923) 0) = Some l
     /\ Forall six_apart l)
  /\ (exists fd,
     fst (scrape_forecast_data (S_ "Pune") 100 (noon 739923) 0) = Some fd
     /\ Forall (fun e => ForecastDay.low_temp e < ForecastDay.high_temp e)
          (ForecastData.forecast fd)).
Proof.
  split.
  - eexists. split; [vm_compute; reflexivity |].
    refine (proj1 (C6_high_stays_above_low (noon 739923) 0%nat) _ _).
    vm_compute. reflexivity.
  - eexists. split; [vm_compute; reflexivity |].
    refine (proj2 (proj2 (C6_high_stays_above_low (noon 739923) 0%nat)
                     (S_ "Pune") 100 _ _)).
    vm_compute. reflexivity.
Defined.

(* ================================================================= *)
(** ** The optional matchers *)

Section Matchers.

Variable limit : nat.
Variable text : str.

(** The matchers that read an integer. *)
Lemma int_matcher_absent : forall r,
  ~ has_match IGNORECASE r text ->
  match re_search IGNORECASE r text with
  | Some mo => v <- py_int limit (group1 mo) ;; Ok (Some v)
  | None => Ok None
  end = Ok None.
Proof.
  intros r H. apply re_search_none in H. rewrite H. reflexivity.
Qed.

Lemma int_matcher_present : forall r,
  captures is_digits r -> numerals_within_limit limit text ->
  has_match IGNORECASE r text ->
  exists v,
    match re_search IGNORECASE r text with
    | Some mo => v <- py_int limit (group1 mo) ;; Ok (Some v)
    | None => Ok None
    end = Ok (Some v).
Proof.
  intros r Hcap Hlim Hhas.
  destruct (re_search IGNORECASE r text) as [mo|] eqn:E.
  - destruct (re_search_captures _ _ _ _ Hcap E) as [Hd (pre & post & Ht)].
    rewrite (py_int_digits limit _ Hd).
    + eexists. reflexivity.
    + exact (within_limit _ _ _ _ _ Hlim Ht (proj2 Hd)).
  - apply re_search_none in E. contradiction.
Qed.

(** The matchers that read a decimal number. *)
Lemma float_matcher_absent : forall r,
  ~ has_match IGNORECASE r text ->
  match re_search IGNORECASE r text with
  | Some mo => v <- py_float (group1 mo) ;; Ok (Some v)
  | None => Ok None
  end = Ok None.
Proof.
  intros r H. apply re_search_none in H. rewrite H. reflexivity.
Qed.

Lemma float_matcher_present : forall r,
  captures is_decimal r -> has_match IGNORECASE r text ->
  exists v,
    match re_search IGNORECASE r text with
    | Some mo => v <- py_float (group1 mo) ;; Ok (Some v)
    | None => Ok None
    end = Ok (Some v).
Proof.
  intros r Hcap Hhas.
  destruct (re_search IGNORECASE r text) as [mo|] eqn:E.
  - destruct (re_search_captures _ _ _ _ Hcap E) as [Hd _].
    destruct (py_float_decimal _ Hd) as [v ->]. eexists. reflexivity.
  - apply re_search_none in E. contradiction.
Qed.

Lemma has_match_decidable : forall r,
  ~ has_match IGNORECASE r text \/ has_match IGNORECASE r text.
Proof.
  intros r. destruct (re_search IGNORECASE r text) as [mo|] eqn:E.
  - right. apply re_search_some in E. destruct E as (Hs & Hm & _).
    exists (mstart mo). split; [exact Hs |]. exists (mend mo). exact Hm.
  - left. apply re_search_none. exact E.
Qed.

Lemma extract_humidity_ok :
  numerals_within_limit limit text ->
  exists v, _extract_humidity limit text = Ok v.
Proof.
  intros Hlim. unfold _extract_humidity.
  destruct (has_match_decidable humidity_re) as [H | H].
  - rewrite (int_matcher_absent _ H). eexists. reflexivity.
  - destruct (int_matcher_present _ humidity_re_captures Hlim H) as [v ->].
    eexists. reflexivity.
Qed.

Lemma extract_uv_index_ok :
  numerals_within_limit limit text ->
  exists v, _extract_uv_index limit text = Ok v.
Proof.
  intros Hlim. unfold _extract_uv_index.
  destruct (has_match_decidable uv_re) as [H | H].
  - rewrite (int_matcher_absent _ H). eexists. reflexivity.
  - destruct (int_matcher_present _ uv_re_captures Hlim H) as [v ->].
    eexists. reflexivity.
Qed.

Lemma extract_pressure_ok : exists v, _extract_pressure text = Ok v.
Proof.
  unfold _extract_pressure.
  destruct (has_match_decidable pressure_re) as [H | H].
  - rewrite (float_matcher_absent _ H). eexists. reflexivity.
  - destruct (float_matcher_present _ pressure_re_captures H) as [v ->].
    eexists. reflexivity.
Qed.

Lemma extract_wind_speed_ok : exists v, _extract_wind_speed text = Ok v.
Proof.
  unfold _extract_wind_speed.
  destruct (has_match_decidable wind_re) as [H | H].
  - rewrite (float_matcher_absent _ H). eexists. reflexivity.
  - destruct (float_matcher_present _ wind_re_captures H) as [v ->].
    eexists. reflexivity.
Qed.

Lemma extract_visibility_ok : exists v, _extract_visibility text = Ok v.
Proof.
  unfold _extract_visibility.
  destruct (has_match_decidable visibility_re) as [H | H].
  - rewrite (float_matcher_absent _ H). eexists. reflexivity.
  - destruct (float_matcher_present _ visibility_re_captures H) as [v ->].
    eexists. reflexivity.
Qed.

Lemma direction_found_occurs : forall direction,
  direction_found text direction = true <-> direction_occurs direction text.
Proof.
  intros direction. unfold direction_found, direction_occurs.
  rewrite !orb_true_iff, !contains_occurs. tauto.
Qed.

Lemma extract_wind_direction_absent :
  (forall d, In d directions -> ~ direction_occurs d text) ->
  _extract_wind_direction text = None.
Proof.
  intros H. unfold _extract_wind_direction. apply first_keyword_none.
  intros d Hin. specialize (H d Hin).
  rewrite <- direction_found_occurs in H.
  destruct (direction_found text d); [exfalso; auto | reflexivity].
Qed.

Lemma extract_air_quality_absent :
  (forall q, In q aqi_qualities -> ~ occurs_ignoring_case q text) ->
  _extract_air_quality text = None.
Proof.
  intros H. unfold _extract_air_quality.
  replace (first_keyword _ aqi_qualities) with (@None str); [reflexivity |].
  symmetry. apply first_keyword_none. intros q Hin.
  apply contains_lower_false. apply H. exact Hin.
Qed.

End Matchers.

(** With the limit of 4300 digits, a UV index of 4301 digits makes the
    matcher raise. *)
Lemma C7_long_numeral_counterexample :
  _extract_uv_index default_max_str_digits
    (S_ "UV index " ++ repeat "7"%char 4301)
  = Raise ValueError
  /\ _extract_humidity default_max_str_digits
       (S_ "Humidity " ++ repeat "7"%char 4301 ++ S_ "%")
     = Raise ValueError
  /\ ~ matchers_never_raise.
Proof.
  assert (H : _extract_uv_index default_max_str_digits
                (S_ "UV index " ++ repeat "7"%char 4301)
              = Raise ValueError) by (vm_compute; reflexivity).
  split; [exact H | split; [vm_compute; reflexivity |]].
  intros Hclaim.
  destruct (Hclaim (S_ "UV index " ++ repeat "7"%char 4301))
    as (_ & _ & _ & _ & [v Hv]).
  rewrite H in Hv. discriminate Hv.
Qed.

(** C7 (amended).  On a text in which its pattern has no match, each of
    the humidity, pressure, wind-speed, wind-direction, visibility,
    UV-index and air-quality matchers returns [None] (not zero, not an
    exception).  The pressure, wind-speed and visibility matchers return
    a result on every text, and so do the humidity and UV-index matchers
    on every text whose runs of digits are not longer than the limit of
    [int] (or when there is no such limit); the wind-direction and
    air-quality matchers have nothing that can raise. *)
Theorem C7_matchers_absent_not_raising : forall limit text,
  (~ has_match IGNORECASE humidity_re text ->
   _extract_humidity limit text = Ok None)
  /\ (~ has_match IGNORECASE pressure_re text ->
      _extract_pressure text = Ok None)
  /\ (~ has_match IGNORECASE wind_re text ->
      _extract_wind_speed text = Ok None)
  /\ ((forall d, In d directions -> ~ direction_occurs d text) ->
      _extract_wind_direction text = None)
  /\ (~ has_match IGNORECASE visibility_re text ->
      _extract_visibility text = Ok None)
  /\ (~ has_match IGNORECASE uv_re text ->
      _extract_uv_index limit text = Ok None)
  /\ ((forall q, In q aqi_qualities -> ~ occurs_ignoring_case q text) ->
      _extract_air_quality text = None)
  /\ (exists v, _extract_pressure text = Ok v)
  /\ (exists v, _extract_wind_speed text = Ok v)
  /\ (exists v, _extract_visibility text = Ok v)
  /\ (numerals_within_limit limit text ->
      (exists v, _extract_humidity limit text = Ok v)
      /\ (exists v, _extract_uv_index limit text = Ok v)).
Proof.
  intros limit text.
  split; [apply int_matcher_absent |].
  split; [apply float_matcher_absent |].
  split; [apply float_matcher_absent |].
  split; [apply extract_wind_direction_absent |].
  split; [apply float_matcher_absent |].
  split; [apply int_matcher_absent |].
  split; [apply extract_air_quality_absent |].
  split; [apply extract_pressure_ok |].
  split; [apply extract_wind_speed_ok |].
  split; [apply extract_visibility_ok |].
  intros Hlim. split.
  - apply extract_humidity_ok. exact Hlim.
  - apply extract_uv_index_ok. exact Hlim.
Qed.

(** The text "Clear sky, 20 degrees" has none of the seven attributes. *)
Lemma C7_matchers_absent_not_raising_witness :
  _extract_humidity default_max_str_digits (S_ "Clear sky, 20 degrees")
  = Ok None
  /\ _extract_pressure (S_ "Clear sky, 20 degrees") = Ok None
  /\ _extract_wind_speed (S_ "Clear sky, 20 degrees") = Ok None
  /\ _extract_wind_direction (S_ "Clear sky, 20 degrees") = None
  /\ _extract_visibility (S_ "Clear sky, 20 degrees") = Ok None
  /\ _extract_uv_index default_max_str_digits (S_ "Clear sky, 20 degrees")
     = Ok None
  /\ _extract_air_quality (S_ "Clear sky, 20 degrees") = None
  /\ (exists v,
        _extract_humidity default_max_str_digits
          (S_ "Clear sky, 20 degrees") = Ok v).
Proof.
  assert (Hno : forall r,
            re_search IGNORECASE r (S_ "Clear sky, 20 degrees") = None ->
            ~ has_match IGNORECASE r (S_ "Clear sky, 20 degrees")).
  { intros r H. apply re_search_none. exact H. }
  assert (Hdir : forall d, In d directions ->
            ~ direction_occurs d (S_ "Clear sky, 20 degrees")).
  { intros d Hin Hocc. apply direction_found_occurs in Hocc.
    simpl in Hin. decompose [or] Hin; subst; try contradiction;
      vm_compute in Hocc; discriminate Hocc. }
  assert (Haq : forall q, In q aqi_qualities ->
            ~ occurs_ignoring_case q (S_ "Clear sky, 20 degrees")).
  { intros q Hin. apply contains_lower_false.
    simpl in Hin. decompose [or] Hin; subst; try contradiction;
      vm_compute; reflexivity. }
  assert (Hlim : numerals_within_limit default_max_str_digits
                   (S_ "Clear sky, 20 degrees")).
  { apply short_text_within_limit. vm_compute. lia. }
  destruct (C7_matchers_absent_not_raising default_max_str_digits
              (S_ "Clear sky, 20 degrees"))
    as (Hh & Hp & Hw & Hd & Hv & Hu & Ha & _ & _ & _ & Hok).
  split; [apply Hh, Hno; vm_compute; reflexivity |].
  split; [apply Hp, Hno; vm_compute; reflexivity |].
  split; [apply Hw, Hno; vm_compute; reflexivity |].
  split; [exact (Hd Hdir) |].
  split; [apply Hv, Hno; vm_compute; reflexivity |].
  split; [apply Hu, Hno; vm_compute; reflexivity |].
  split; [exact (Ha Haq) |].
  exact (proj1 (Hok Hlim)).
Defined.

(* ================================================================= *)
(** ** The temperature and the assembled record *)

Lemma celsius_in_text_marker : forall text,
  celsius_in_text text = true <-> celsius_marker_or_word text.
Proof.
  intros text. unfold celsius_in_text, celsius_marker_or_word.
  rewrite orb_true_iff, contains_occurs, contains_lower. tauto.
Qed.

Lemma celsius_in_text_no_marker : forall text,
  celsius_in_text text = false <-> ~ celsius_marker_or_word text.
Proof.
  intros text. rewrite <- celsius_in_text_marker.
  destruct (celsius_in_text text); split; congruence.
Qed.

(** No pattern of the list has a match: the loop ends without a value. *)
Lemma temperature_loop_none : forall limit text patterns,
  (forall p, In p patterns -> ~ has_match IGNORECASE p text) ->
  temperature_loop limit patterns text = Ok None.
Proof.
  intros limit text patterns. induction patterns as [|p ps IH]; intros H.
  - reflexivity.
  - cbn [temperature_loop].
    replace (re_findall IGNORECASE p text) with (@nil str).
    + apply IH. intros q Hq. apply H. right. exact Hq.
    + symmetry. apply re_findall_nil. apply re_search_none.
      apply H. left. reflexivity.
Qed.

(** A value set by the loop is the float of an integer, read as Celsius
    or as Fahrenheit according to the unit test. *)
Lemma temperature_loop_value : forall limit text patterns tc tf,
  temperature_loop limit patterns text = Ok (Some (tc, tf)) ->
  exists n f,
    float_of_int n = Ok f
    /\ (if celsius_in_text text
        then tc = f /\ tf = celsius_to_fahrenheit f
        else tf = f /\ tc = fahrenheit_to_celsius f).
Proof.
  intros limit text patterns tc tf.
  induction patterns as [|p ps IH]; cbn [temperature_loop].
  - discriminate.
  - destruct (re_findall IGNORECASE p text) as [|first more]; [exact IH |].
    destruct (py_int limit first) as [n|e]; [|discriminate]. cbn [bind].
    destruct (celsius_in_text text);
      (destruct (float_of_int n) as [f|e] eqn:Ef; [|discriminate]);
      cbn [bind]; intros H; exists n, f; (split; [exact Ef |]).
    + assert (He : tc = f /\ tf = (f * 9 / 5 + 32)%float).
      { split; congruence. }
      exact He.
    + assert (He : tf = f /\ tc = ((f - 32) * 5 / 9)%float).
      { split; congruence. }
      exact He.
Qed.

Lemma temperature_loop_match : forall limit text patterns,
  (exists p, In p patterns /\ has_match IGNORECASE p text) ->
  temperature_loop limit patterns text <> Ok None.
Proof.
  intros limit text patterns. induction patterns as [|p ps IH];
    intros (q & Hin & Hq).
  - destruct Hin.
  - cbn [temperature_loop].
    destruct (re_findall IGNORECASE p text) as [|first more] eqn:E.
    + apply IH. destruct Hin as [<- | Hin].
      * exfalso. apply re_findall_nil in E. apply re_search_none in E.
        contradiction.
      * exists q. split; assumption.
    + destruct (py_int limit first) as [n|e]; [|discriminate]. cbn [bind].
      destruct (celsius_in_text text);
        (destruct (float_of_int n) as [f|e]; [|discriminate]);
        discriminate.
Qed.

(** The record, given what the loop found: the other matchers add their
    fields and, within the limit of [int], none of them raises. *)
Lemma current_weather_body_ok : forall limit text found,
  temperature_loop limit temp_patterns text = Ok found ->
  numerals_within_limit limit text ->
  exists cw,
    current_weather_body limit text = Ok cw
    /\ CurrentWeather.temperature cw
       = match found with Some (tc, _) => tc | None => 25%float end
    /\ CurrentWeather.temperature_fahrenheit cw
       = Some (match found with Some (_, tf) => tf | None => 77%float end)
    /\ CurrentWeather.condition cw = _extract_condition text.
Proof.
  intros limit text found Hloop Hlim. unfold current_weather_body.
  rewrite Hloop. cbn [bind].
  destruct (extract_humidity_ok limit text Hlim) as [h ->].
  destruct (extract_pressure_ok text) as [p ->].
  destruct (extract_wind_speed_ok text) as [w ->].
  destruct (extract_visibility_ok text) as [v ->].
  destruct (extract_uv_index_ok limit text Hlim) as [u ->].
  cbn [bind].
  destruct found as [[tc tf]|]; eexists; (split; [reflexivity |]);
    cbn [CurrentWeather.temperature CurrentWeather.temperature_fahrenheit
         CurrentWeather.condition]; auto.
Qed.

(** The fields of a record that was built come from the loop. *)
Lemma current_weather_body_fields : forall limit text cw,
  current_weather_body limit text = Ok cw ->
  exists found,
    temperature_loop limit temp_patterns text = Ok found
    /\ CurrentWeather.temperature cw
       = match found with Some (tc, _) => tc | None => 25%float end
    /\ CurrentWeather.temperature_fahrenheit cw
       = Some (match found with Some (_, tf) => tf | None => 77%float end)
    /\ CurrentWeather.condition cw = _extract_condition text.
Proof.
  intros limit text cw. unfold current_weather_body.
  destruct (temperature_loop limit temp_patterns text) as [found|e];
    [|discriminate].
  cbn [bind]. intros H. exists found. split; [reflexivity |].
  destruct found as [[tc tf]|];
    (destruct (_extract_humidity limit text) as [h|e];
       [|discriminate H]);
    (destruct (_extract_pressure text) as [p|e]; [|discriminate H]);
    (destruct (_extract_wind_speed text) as [w|e]; [|discriminate H]);
    (destruct (_extract_visibility text) as [v|e]; [|discriminate H]);
    (destruct (_extract_uv_index limit text) as [u|e]; [|discriminate H]);
    cbn [bind] in H; injection H as <-;
    cbn [CurrentWeather.temperature CurrentWeather.temperature_fahrenheit
         CurrentWeather.condition]; auto.
Qed.

Lemma current_weather_body_raise : forall limit text e,
  temperature_loop limit temp_patterns text = Raise e ->
  _extract_current_weather limit text = None.
Proof.
  intros limit text e H. unfold _extract_current_weather,
    current_weather_body. rewrite H. reflexivity.
Qed.

(** ** No temperature in the text *)

Lemma no_match_by_search : forall ic r text,
  re_search ic r text = None -> ~ has_match ic r text.
Proof. intros ic r text H. apply re_search_none. exact H. Qed.

(** The text "Sunny" has no temperature, and the condition of its record
    is "Sunny". *)
Lemma C2_default_record_counterexample :
  (forall p, In p temp_patterns -> ~ has_match IGNORECASE p (S_ "Sunny"))
  /\ _extract_current_weather default_max_str_digits (S_ "Sunny")
     = Some (CurrentWeather.Build 25 (Some 77%float) (S_ "Sunny")
               None None None None None None None)
  /\ ~ default_record_claim.
Proof.
  assert (Hno : forall p, In p temp_patterns ->
                  ~ has_match IGNORECASE p (S_ "Sunny")).
  { intros p Hin. apply no_match_by_search.
    simpl in Hin. decompose [or] Hin; subst; try contradiction;
      vm_compute; reflexivity. }
  assert (Hrec : _extract_current_weather default_max_str_digits (S_ "Sunny")
                 = Some (CurrentWeather.Build 25 (Some 77%float) (S_ "Sunny")
                           None None None None None None None))
    by (vm_compute; reflexivity).
  split; [exact Hno | split; [exact Hrec |]].
  intros Hclaim. destruct (Hclaim (S_ "Sunny") Hno) as (cw & Hcw & _ & _ & Hc).
  rewrite Hrec in Hcw. injection Hcw as <-. discriminate Hc.
Qed.

(** C2 (amended).  For every text in which no temperature pattern has a
    match, and whose runs of digits are within the limit of [int], the
    assembled record has the temperature 25.0 and the Fahrenheit
    temperature 77.0; its condition is the one the condition matcher
    finds, "Partly Cloudy" when no condition keyword occurs in the
    text. *)
Theorem C2_default_temperature : forall limit text,
  (forall p, In p temp_patterns -> ~ has_match IGNORECASE p text) ->
  numerals_within_limit limit text ->
  exists cw,
    _extract_current_weather limit text = Some cw
    /\ CurrentWeather.temperature cw = 25%float
    /\ CurrentWeather.temperature_fahrenheit cw = Some 77%float
    /\ CurrentWeather.condition cw = _extract_condition text
    /\ ((forall k, In k conditions -> ~ occurs_ignoring_case k text) ->
        CurrentWeather.condition cw = S_ "Partly Cloudy").
Proof.
  intros limit text Hno Hlim.
  pose proof (temperature_loop_none limit text temp_patterns Hno) as Hloop.
  destruct (current_weather_body_ok limit text None Hloop Hlim)
    as (cw & Hcw & Htc & Htf & Hcond).
  exists cw. unfold _extract_current_weather. rewrite Hcw.
  split; [reflexivity |]. split; [exact Htc |]. split; [exact Htf |].
  split; [exact Hcond |].
  intros Hnone. rewrite Hcond. apply extract_condition_default. exact Hnone.
Qed.

Lemma C2_default_temperature_witness :
  exists cw,
    _extract_current_weather default_max_str_digits
      (S_ "Humidity: 60% Wind: 12 km/h") = Some cw
    /\ CurrentWeather.temperature cw = 25%float
    /\ CurrentWeather.temperature_fahrenheit cw = Some 77%float
    /\ CurrentWeather.condition cw = S_ "Partly Cloudy".
Proof.
  assert (Hno : forall p, In p temp_patterns ->
                  ~ has_match IGNORECASE p (S_ "Humidity: 60% Wind: 12 km/h")).
  { intros p Hin. apply no_match_by_search.
    simpl in Hin. decompose [or] Hin; subst; try contradiction;
      vm_compute; reflexivity. }
  assert (Hlim : numerals_within_limit default_max_str_digits
                   (S_ "Humidity: 60% Wind: 12 km/h")).
  { apply short_text_within_limit. vm_compute. lia. }
  assert (Hkw : forall k, In k conditions ->
                  ~ occurs_ignoring_case k (S_ "Humidity: 60% Wind: 12 km/h")).
  { intros k Hin. apply contains_lower_false.
    simpl in Hin. decompose [or] Hin; subst; try contradiction;
      vm_compute; reflexivity. }
  destruct (C2_default_temperature default_max_str_digits
              (S_ "Humidity: 60% Wind: 12 km/h") Hno Hlim)
    as (cw & Hcw & Htc & Htf & _ & Hcond).
  exists cw. repeat split; auto.
Defined.

(** ** Celsius readings *)

Lemma deg_is_no_digit : is_digit deg = false.
Proof. reflexivity. Qed.

(** Two runs of digits that end at a degree sign and start at the same
    place are the same run. *)
Lemma digits_run_unique : forall a b x y,
  forallb is_digit a = true -> forallb is_digit b = true ->
  a ++ deg :: x = b ++ deg :: y -> a = b.
Proof.
  induction a as [|c a IH]; intros [|d b] x y Ha Hb H; cbn in *.
  - reflexivity.
  - injection H as <- _. apply andb_true_iff in Hb.
    rewrite deg_is_no_digit in Hb. destruct Hb; discriminate.
  - injection H as -> _. apply andb_true_iff in Ha.
    rewrite deg_is_no_digit in Ha. destruct Ha; discriminate.
  - injection H as -> H.
    apply andb_true_iff in Ha. apply andb_true_iff in Hb.
    f_equal. apply (IH b x y); tauto.
Qed.

Lemma celsius_re_inv : forall m m',
  matches IGNORECASE celsius_re m m' ->
  exists ds c,
    is_digits ds /\ (c = "C"%char \/ c = "c"%char)
    /\ rest m = ds ++ deg :: c :: rest m' /\ grp m' = Some ds.
Proof.
  intros m m' H. unfold celsius_re in H. cbn [Cat] in H. inv H.
  match goal with
  | H1 : matches _ (Group digits) _ _, H2 : matches _ (Seq _ Eps) _ _ |- _ =>
      apply group_digits_inv in H1;
      destruct H1 as (ds & Hd & Hrest & _ & Hgrp); inv H2
  end.
  change (Seq (Chr (Lit deg)) (Seq (Chr (Lit "C"%char)) Eps))
    with (Word [deg; "C"%char]) in *.
  match goal with
  | H1 : matches _ (Word _) _ _, H2 : matches _ Eps _ _ |- _ =>
      inv H2; apply word_inv in H1;
      destruct H1 as (mid & Hmid & Hacc & _ & Hkeep)
  end.
  destruct mid as [|x1 [|x2 [|x3 mid]]]; cbn [word_accepts] in Hacc;
    try discriminate Hacc;
    try (rewrite !andb_false_r in Hacc; discriminate Hacc).
  apply andb_true_iff in Hacc. destruct Hacc as [H1 H2].
  apply andb_true_iff in H2. destruct H2 as [H2 _].
  apply accepts_deg in H1. apply accepts_C in H2. subst x1.
  exists ds, x2. rewrite Hkeep, Hrest, Hmid.
  repeat split; try assumption; apply Hd.
Qed.

Lemma celsius_re_intro : forall p ds c t,
  is_digits ds -> (c = "C"%char \/ c = "c"%char) ->
  exists m',
    matches IGNORECASE celsius_re (MS p (ds ++ deg :: c :: t) None) m'.
Proof.
  intros p ds c t Hd Hc. eexists. unfold celsius_re. cbn [Cat].
  eapply M_Seq; [apply group_digits_intro; exact Hd |].
  eapply M_Seq; [|apply M_Eps].
  change (deg :: c :: t) with ([deg; c] ++ t).
  apply word_intro. cbn [word_accepts].
  replace (accepts IGNORECASE (Lit "C"%char) c) with true
    by (symmetry; apply accepts_C; exact Hc).
  reflexivity.
Qed.

(** The Celsius pattern matches at a place exactly when a reading starts
    there. *)
Lemma celsius_match_reading : forall text start,
  matches_at IGNORECASE celsius_re text start
  <-> exists pre ds c post,
        celsius_reading text pre ds c post /\ length pre = start.
Proof.
  intros text start. split.
  - intros [m' H]. apply celsius_re_inv in H.
    destruct H as (ds & c & Hd & Hc & Hrest & _). cbn [rest] in Hrest.
    assert (Hlen : (start <= length text)%nat).
    { destruct (Nat.le_gt_cases start (length text)) as [Hle | Hgt];
        [exact Hle |].
      rewrite skipn_all2 in Hrest by lia.
      destruct ds; [destruct Hd; contradiction | discriminate Hrest]. }
    exists (firstn start text), ds, c, (rest m').
    split; [|apply firstn_length_le; exact Hlen].
    split; [|split; assumption].
    rewrite <- Hrest. symmetry. apply firstn_skipn.
  - intros (pre & ds & c & post & (Ht & Hd & Hc) & Hlen).
    unfold matches_at. subst start text.
    rewrite skipn_app, skipn_all, Nat.sub_diag. cbn [skipn app].
    apply celsius_re_intro; assumption.
Qed.

(** The first match of the Celsius pattern is the leftmost reading. *)
Lemma first_reading_found : forall text pre ds c post,
  celsius_reading text pre ds c post ->
  (forall pre' ds' c' post',
      celsius_reading text pre' ds' c' post' ->
      (length pre <= length pre')%nat) ->
  exists more, re_findall IGNORECASE celsius_re text = ds :: more.
Proof.
  intros text pre ds c post Hr Hfirst.
  destruct (re_search_leftmost IGNORECASE celsius_re text (length pre))
    as (mo & Hs & _ & Hm).
  - destruct Hr as (-> & _). rewrite length_app. lia.
  - apply celsius_match_reading. exists pre, ds, c, post.
    split; [exact Hr | reflexivity].
  - intros j Hj Hat. apply celsius_match_reading in Hat.
    destruct Hat as (pre' & ds' & c' & post' & Hr' & Hlen).
    specialize (Hfirst _ _ _ _ Hr'). lia.
  - destruct (re_findall_head _ _ _ _ Hs) as [more Hfa].
    exists more. rewrite Hfa. f_equal.
    apply celsius_re_inv in Hm.
    destruct Hm as (ds' & c' & Hd' & _ & Hrest & Hgrp).
    cbn [rest] in Hrest. unfold group1. rewrite Hgrp.
    destruct Hr as (Ht & Hd & _).
    rewrite Ht, skipn_app, skipn_all, Nat.sub_diag in Hrest.
    cbn [skipn app] in Hrest.
    exact (digits_run_unique _ _ _ _ (proj2 Hd') (proj2 Hd)
             (eq_sym Hrest)).
Qed.

(** The loop, on a text with a Celsius reading. *)
Lemma temperature_loop_reading : forall limit text pre ds c post,
  celsius_reading text pre ds c post ->
  (forall pre' ds' c' post',
      celsius_reading text pre' ds' c' post' ->
      (length pre <= length pre')%nat) ->
  numerals_within_limit limit text ->
  temperature_loop limit temp_patterns text
  = (f <- float_of_int (digits_value ds) ;;
     Ok (Some (if celsius_in_text text
               then (f, celsius_to_fahrenheit f)
               else (fahrenheit_to_celsius f, f)))).
Proof.
  intros limit text pre ds c post Hr Hfirst Hlim.
  destruct (first_reading_found _ _ _ _ _ Hr Hfirst) as [more Hfa].
  unfold temp_patterns. cbn [temperature_loop]. rewrite Hfa.
  destruct Hr as (Ht & Hd & _).
  rewrite (py_int_digits limit ds Hd
             (within_limit _ _ _ _ _ Hlim Ht (proj2 Hd))).
  cbn [bind].
  destruct (celsius_in_text text);
    destruct (float_of_int (digits_value ds)); reflexivity.
Qed.

Lemma marker_of_capital_reading : forall text pre ds post,
  text = pre ++ ds ++ deg :: "C"%char :: post ->
  celsius_marker_or_word text.
Proof.
  intros text pre ds post ->. left. exists (pre ++ ds), post.
  rewrite <- app_assoc. reflexivity.
Qed.

(** A reading is the leftmost one when the search stops at it. *)
Lemma leftmost_by_search : forall text mo start,
  re_search IGNORECASE celsius_re text = Some mo -> mstart mo = start ->
  forall pre' ds' c' post',
    celsius_reading text pre' ds' c' post' -> (start <= length pre')%nat.
Proof.
  intros text mo start Hs Hstart pre' ds' c' post' Hr.
  apply re_search_some in Hs. destruct Hs as (_ & _ & Hleft).
  destruct (Nat.le_gt_cases start (length pre')) as [Hle | Hgt];
    [exact Hle |].
  exfalso. apply (Hleft (length pre')); [lia |].
  apply celsius_match_reading. exists pre', ds', c', post'.
  split; [exact Hr | reflexivity].
Qed.

Lemma float_neq_12_25 : 12%float <> 25%float.
Proof.
  intros H. apply (f_equal (fun x => PrimFloat.eqb x 25)) in H.
  vm_compute in H. discriminate H.
Qed.

(** Two readings in one text: the record holds the first, 12, though 25
    too is a bare integer right before the marker. *)
Lemma C1_second_reading_counterexample :
  _extract_current_weather default_max_str_digits
    (S_ "12" ++ deg :: S_ "C, later 25" ++ deg :: S_ "C")
  = Some (CurrentWeather.Build 12 (Some 0x1.acccccccccccdp+5%float) (S_ "Partly Cloudy")
            None None None None None None None)
  /\ ~ every_celsius_reading_is_returned.
Proof.
  assert (Hrec : _extract_current_weather default_max_str_digits
                   (S_ "12" ++ deg :: S_ "C, later 25" ++ deg :: S_ "C")
                 = Some (CurrentWeather.Build 12 (Some 0x1.acccccccccccdp+5%float)
                           (S_ "Partly Cloudy")
                           None None None None None None None))
    by (vm_compute; reflexivity).
  split; [exact Hrec |].
  intros Hclaim.
  assert (Htext : S_ "12" ++ deg :: S_ "C, later 25" ++ deg :: S_ "C"
                  = (S_ "12" ++ deg :: S_ "C, later ") ++ S_ "25"
                    ++ deg :: "C"%char :: []) by reflexivity.
  assert (Hds : is_digits (S_ "25")) by (split; [discriminate | reflexivity]).
  assert (Hbare : is_digit (last (S_ "12" ++ deg :: S_ "C, later ") " "%char)
                  = false) by reflexivity.
  assert (Hf : float_of_int (digits_value (S_ "25")) = Ok 25%float)
    by (vm_compute; reflexivity).
  destruct (Hclaim _ _ _ _ _ Htext Hds Hbare Hf) as (cw & Hcw & Htemp & _).
  rewrite Hrec in Hcw. injection Hcw as <-.
  exact (float_neq_12_25 Htemp).
Qed.

(** C1 (amended).  Take a text whose runs of digits are within the limit
    of [int], and the leftmost place where digits stand right before a
    degree sign and a letter C of either case; let [f] be [float] of
    their value.  If [f] overflows there is no record.  Otherwise the
    record has, when the text holds the marker "°C" (as it does when the
    reading itself has a capital C) or the word "celsius" in any case,
    the temperature [f] and the Fahrenheit temperature [f*9/5 + 32] of the
    unit converter; and when the text holds neither, the Fahrenheit
    temperature [f] and the temperature [(f - 32)*5/9].  More generally,
    whenever some temperature pattern has a match, the value of the
    record is read as Celsius exactly when the text holds that marker or
    that word, and as Fahrenheit otherwise. *)
Theorem C1_celsius_reading : forall limit text,
  (numerals_within_limit limit text ->
   forall pre ds c post,
     celsius_reading text pre ds c post ->
     (forall pre' ds' c' post',
         celsius_reading text pre' ds' c' post' ->
         (length pre <= length pre')%nat) ->
     match float_of_int (digits_value ds) with
     | Raise _ => _extract_current_weather limit text = None
     | Ok f =>
         exists cw,
           _extract_current_weather limit text = Some cw
           /\ (celsius_marker_or_word text ->
               CurrentWeather.temperature cw = f
               /\ CurrentWeather.temperature_fahrenheit cw
                  = Some (celsius_to_fahrenheit f))
           /\ (c = "C"%char ->
               CurrentWeather.temperature cw = f
               /\ CurrentWeather.temperature_fahrenheit cw
                  = Some (celsius_to_fahrenheit f))
           /\ (~ celsius_marker_or_word text ->
               CurrentWeather.temperature_fahrenheit cw = Some f
               /\ CurrentWeather.temperature cw = fahrenheit_to_celsius f)
     end)
  /\ (forall cw,
        _extract_current_weather limit text = Some cw ->
        (exists p, In p temp_patterns /\ has_match IGNORECASE p text) ->
        exists n f,
          float_of_int n = Ok f
          /\ (celsius_marker_or_word text ->
              CurrentWeather.temperature cw = f
              /\ CurrentWeather.temperature_fahrenheit cw
                 = Some (celsius_to_fahrenheit f))
          /\ (~ celsius_marker_or_word text ->
              CurrentWeather.temperature_fahrenheit cw = Some f
              /\ CurrentWeather.temperature cw = fahrenheit_to_celsius f)).
Proof.
  intros limit text. split.
  - intros Hlim pre ds c post Hr Hfirst.
    pose proof (temperature_loop_reading limit text pre ds c post
                  Hr Hfirst Hlim) as Hloop.
    destruct (float_of_int (digits_value ds)) as [f|e]; cbn [bind] in Hloop.
    + destruct (current_weather_body_ok limit text _ Hloop Hlim)
        as (cw & Hcw & Htc & Htf & _).
      exists cw. unfold _extract_current_weather. rewrite Hcw.
      split; [reflexivity |].
      assert (Hcel : celsius_marker_or_word text ->
                CurrentWeather.temperature cw = f
                /\ CurrentWeather.temperature_fahrenheit cw
                   = Some (celsius_to_fahrenheit f)).
      { intros Hmark. apply celsius_in_text_marker in Hmark.
        rewrite Hmark in Htc, Htf. split; assumption. }
      split; [exact Hcel | split].
      * intros ->. apply Hcel. destruct Hr as (Ht & _).
        exact (marker_of_capital_reading _ _ _ _ Ht).
      * intros Hno. apply celsius_in_text_no_marker in Hno.
        rewrite Hno in Htc, Htf. split; assumption.
    + exact (current_weather_body_raise limit text e Hloop).
  - intros cw Hcw Hmatch. unfold _extract_current_weather in Hcw.
    destruct (current_weather_body limit text) as [cw'|e] eqn:Hbody;
      [|discriminate Hcw].
    cbn [catch] in Hcw. injection Hcw as ->.
    destruct (current_weather_body_fields _ _ _ Hbody)
      as (found & Hloop & Htc & Htf & _).
    destruct found as [[tc tf]|].
    + destruct (temperature_loop_value _ _ _ _ _ Hloop)
        as (n & f & Hf & Hval).
      exists n, f. split; [exact Hf |]. split.
      * intros Hmark. apply celsius_in_text_marker in Hmark.
        rewrite Hmark in Hval. destruct Hval as [-> ->].
        split; assumption.
      * intros Hno. apply celsius_in_text_no_marker in Hno.
        rewrite Hno in Hval. destruct Hval as [-> ->].
        split; assumption.
    + exfalso. exact (temperature_loop_match limit text _ Hmatch Hloop).
Qed.

(** The text "Temperature: 25°C Sunny weather Humidity: 60%": 25.0 and
    77.0. *)
Lemma C1_celsius_reading_witness :
  exists cw,
    _extract_current_weather default_max_str_digits sample_text = Some cw
    /\ CurrentWeather.temperature cw = 25%float
    /\ CurrentWeather.temperature_fahrenheit cw = Some 77%float.
Proof.
  assert (Hlim : numerals_within_limit default_max_str_digits sample_text).
  { apply short_text_within_limit. vm_compute. lia. }
  assert (Hr : celsius_reading sample_text (S_ "Temperature: ") (S_ "25")
                 "C"%char (S_ " Sunny weather Humidity: 60%")).
  { split; [reflexivity |].
    split; [split; [discriminate | reflexivity] | left; reflexivity]. }
  assert (Hfirst : forall pre' ds' c' post',
             celsius_reading sample_text pre' ds' c' post' ->
             (length (S_ "Temperature: ") <= length pre')%nat).
  { destruct (re_search IGNORECASE celsius_re sample_text) as [mo|] eqn:E;
      [|vm_compute in E; discriminate E].
    apply (leftmost_by_search sample_text mo); [exact E |].
    vm_compute in E. injection E as <-. reflexivity. }
  pose proof (proj1 (C1_celsius_reading default_max_str_digits sample_text)
                Hlim _ _ _ _ Hr Hfirst) as H.
  change (float_of_int (digits_value (S_ "25"))) with (Ok 25%float) in H.
  destruct H as (cw & Hcw & _ & Hcap & _).
  exists cw. split; [exact Hcw |]. exact (Hcap eq_refl).
Defined.

(* ================================================================= *)
(** ** Further properties of the matchers *)

Lemma occurs_part : forall a inner b text,
  occurs (a ++ inner ++ b) text -> occurs inner text.
Proof.
  intros a inner b text (pre & post & ->).
  exists (pre ++ a), (b ++ post). rewrite <- !app_assoc. reflexivity.
Qed.

Lemma direction_occurs_inner : forall d text,
  direction_occurs d text -> occurs d text.
Proof.
  intros d text [H | [H | H]].
  - exact (occurs_part _ _ _ _ H).
  - apply (occurs_part [] d (S_ "E")). exact H.
  - apply (occurs_part [] d (S_ "W")). exact H.
Qed.

(** A token that ends in E or W is found only where the token without
    that letter is found too. *)
Lemma direction_shadowed : forall text d x,
  x = S_ "E" \/ x = S_ "W" ->
  direction_occurs (d ++ x) text -> direction_occurs d text.
Proof.
  intros text d x Hx H. apply direction_occurs_inner in H.
  unfold direction_occurs. destruct Hx as [-> | ->]; auto.
Qed.

(** The wind direction is never NE, SW or NW: where one of them is found,
    N or S, earlier in the list, is found too.  N is the answer exactly
    when the text holds " N ", "NE" or "NW" anywhere, inside a word too;
    and SE is the answer only for the token " SE " between blanks. *)
Theorem wind_direction_shadowed_tokens : forall text,
  (forall d, _extract_wind_direction text = Some d ->
     In d [S_ "N"; S_ "E"; S_ "SE"; S_ "S"; S_ "W";
           S_ "North"; S_ "South"; S_ "East"; S_ "West"])
  /\ (_extract_wind_direction text = Some (S_ "N")
      <-> (occurs (S_ " N ") text \/ occurs (S_ "NE") text
           \/ occurs (S_ "NW") text))
  /\ (_extract_wind_direction text = Some (S_ "SE") ->
      occurs (S_ " SE ") text).
Proof.
  intros text.
  assert (Hsome : forall d,
            _extract_wind_direction text = Some d ->
            exists before after,
              directions = before ++ d :: after
              /\ direction_occurs d text
              /\ forall k, In k before -> ~ direction_occurs k text).
  { intros d H. unfold _extract_wind_direction in H.
    apply first_keyword_some in H.
    destruct H as (before & after & Hl & Hd & Hb).
    exists before, after. split; [exact Hl |].
    split; [apply direction_found_occurs; exact Hd |].
    intros k Hk Hocc. apply direction_found_occurs in Hocc.
    rewrite (Hb k Hk) in Hocc. discriminate Hocc. }
  split; [|split].
  - intros d H. destruct (Hsome d H) as (before & after & Hl & Hd & Hnot).
    assert (Hin : In d directions) by (rewrite Hl; apply in_elt).
    assert (Hshadow : forall base x,
              d = base ++ x -> x = S_ "E" \/ x = S_ "W" ->
              In base before -> False).
    { intros base x -> Hx Hbase.
      exact (Hnot base Hbase (direction_shadowed text base x Hx Hd)). }
    unfold directions in Hl, Hin. simpl in Hin.
    destruct Hin
      as [<- | [<- | [<- | [<- | [<- | [<- | [<- | [<- | Hin]]]]]]]].
    + simpl. tauto.
    + exfalso.
      apply (Hshadow (S_ "N") (S_ "E") eq_refl (or_introl eq_refl)).
      destruct before as [|b before]; [discriminate Hl |].
      injection Hl as <- _. left. reflexivity.
    + simpl. tauto.
    + simpl. tauto.
    + simpl. tauto.
    + exfalso.
      apply (Hshadow (S_ "S") (S_ "W") eq_refl (or_intror eq_refl)).
      do 4 (destruct before as [|? before]; [discriminate Hl |];
            injection Hl as _ Hl).
      destruct before as [|b before]; [discriminate Hl |].
      injection Hl as <- _. do 4 right. left. reflexivity.
    + simpl. tauto.
    + exfalso.
      apply (Hshadow (S_ "N") (S_ "W") eq_refl (or_intror eq_refl)).
      destruct before as [|b before]; [discriminate Hl |].
      injection Hl as <- _. left. reflexivity.
    + simpl in *. tauto.
  - split.
    + intros H. destruct (Hsome _ H) as (_ & _ & _ & Hd & _). exact Hd.
    + intros H.
      apply (first_keyword_first (direction_found text) [] (S_ "N")
               (tl directions)).
      * apply direction_found_occurs. exact H.
      * intros k [].
  - intros H. destruct (Hsome _ H) as (before & after & Hl & Hd & Hnot).
    assert (HE : ~ direction_occurs (S_ "E") text).
    { apply Hnot. unfold directions in Hl.
      do 2 (destruct before as [|? before]; [discriminate Hl |];
            injection Hl as _ Hl).
      destruct before as [|b before]; [discriminate Hl |].
      injection Hl as <- _. do 2 right. left. reflexivity. }
    destruct Hd as [Hd | [Hd | Hd]].
    + exact Hd.
    + exfalso. apply HE. right. left.
      apply (occurs_part (S_ "S") (S_ "EE") []). exact Hd.
    + exfalso. apply HE. right. right.
      apply (occurs_part (S_ "S") (S_ "EW") []). exact Hd.
Qed.

Lemma wind_direction_shadowed_tokens_witness :
  occurs (S_ "NE") (S_ "BREAKING NEWS: calm")
  /\ _extract_wind_direction (S_ "BREAKING NEWS: calm") = Some (S_ "N").
Proof.
  assert (H : occurs (S_ "NE") (S_ "BREAKING NEWS: calm")).
  { exists (S_ "BREAKING "), (S_ "WS: calm"). reflexivity. }
  split; [exact H |].
  exact (proj2 (proj1 (proj2 (wind_direction_shadowed_tokens
                                (S_ "BREAKING NEWS: calm"))))
           (or_intror (or_introl H))).
Defined.



(* ================================================================= *)
(** ** What the humidity and the UV index are read from *)

Lemma digits_value_from : forall ds acc,
  0 <= acc -> forallb is_digit ds = true ->
  0 <= fold_left (fun a c => 10 * a + digit_value c) ds acc.
Proof.
  induction ds as [|d ds IH]; intros acc Hacc H; cbn [fold_left].
  - exact Hacc.
  - cbn [forallb] in H. apply andb_true_iff in H. destruct H as [Hd Hds].
    apply IH; [|exact Hds].
    unfold is_digit, in_range in Hd. apply andb_true_iff in Hd.
    destruct Hd as [Hlo _]. apply N.leb_le in Hlo.
    unfold digit_value. lia.
Qed.

Lemma digits_value_nonneg : forall ds,
  forallb is_digit ds = true -> 0 <= digits_value ds.
Proof.
  intros ds H. unfold digits_value. apply digits_value_from; [lia | exact H].
Qed.

Lemma py_int_value : forall limit s n,
  py_int limit s = Ok n ->
  is_digits s /\ n = digits_value s /\ 0 <= n
  /\ exceeds_limit limit (length s) = false.
Proof.
  intros limit s n. unfold py_int. destruct s as [|c s]; [discriminate |].
  destruct (forallb is_digit (c :: s)) eqn:E; [|discriminate].
  destruct (exceeds_limit limit (length (c :: s))); [discriminate |].
  intros H. injection H as <-.
  split; [split; [discriminate | exact E] |].
  split; [reflexivity |]. split; [|reflexivity].
  apply digits_value_nonneg. exact E.
Qed.

(** Under [IGNORECASE] a literal word reads the same once lowered. *)
Lemma word_accepts_lower : forall w mid,
  word_accepts IGNORECASE w mid = true <-> lower mid = lower w.
Proof.
  induction w as [|c w IH]; intros [|x mid]; cbn [word_accepts lower map];
    try (split; [discriminate | discriminate]).
  - split; reflexivity.
  - rewrite andb_true_iff. unfold accepts, IGNORECASE at 1.
    rewrite ascii_eqb_true, IH. unfold lower. split.
    + intros [-> ->]. reflexivity.
    + intros H. injection H as -> ->. split; reflexivity.
Qed.

Lemma dot_run_no_newline : forall ic skip,
  forallb (accepts ic Dot) skip = true -> ~ In newline skip.
Proof.
  intros ic skip H Hin. rewrite forallb_forall in H.
  specialize (H newline Hin). discriminate H.
Qed.

Lemma no_newline_dot_run : forall ic skip,
  ~ In newline skip -> forallb (accepts ic Dot) skip = true.
Proof.
  intros ic skip H. apply forallb_forall. intros x Hx. cbn [accepts].
  destruct (ascii_eqb x newline) eqn:E; [|reflexivity].
  apply ascii_eqb_true in E. subst x. contradiction.
Qed.

(** Matches of [word.*?(\d+)tail]. *)
Lemma word_skip_digits_inv : forall w tail m m',
  matches IGNORECASE
    (Seq (Word w) (Seq (Star false (Chr Dot)) (Seq (Group digits) tail)))
    m m' ->
  group_free tail = true ->
  exists x skip ds m3,
    rest m = x ++ skip ++ ds ++ rest m3
    /\ lower x = lower w /\ ~ In newline skip /\ is_digits ds
    /\ grp m' = Some ds /\ matches IGNORECASE tail m3 m'.
Proof.
  intros w tail m m' H Hfree. inv H.
  match goal with
  | H1 : matches _ (Word w) _ _, H2 : matches _ (Seq (Star _ _) _) _ _ |- _ =>
      apply word_inv in H1; destruct H1 as (x & Hx & Hacc & _ & _); inv H2
  end.
  match goal with
  | H1 : matches _ (Star _ _) _ _, H2 : matches _ (Seq (Group _) _) _ _ |- _ =>
      apply star_atom_inv in H1;
      destruct H1 as (skip & Hskip & Hall & _ & _); inv H2
  end.
  match goal with
  | H1 : matches _ (Group digits) _ ?m3, H2 : matches _ tail _ _ |- _ =>
      apply group_digits_inv in H1;
      destruct H1 as (ds & Hd & Hds & _ & Hgrp);
      pose proof (group_free_keeps _ _ _ _ H2 Hfree) as Hkeep;
      exists x, skip, ds, m3
  end.
  split; [rewrite Hx, Hskip, Hds; reflexivity |].
  split; [apply word_accepts_lower; exact Hacc |].
  split; [exact (dot_run_no_newline _ _ Hall) |].
  split; [exact Hd |].
  split; [rewrite Hkeep; exact Hgrp | assumption].
Qed.

Lemma word_skip_digits_intro : forall w tail p x skip ds t m',
  lower x = lower w -> ~ In newline skip -> is_digits ds ->
  matches IGNORECASE tail
    (MS (p + length x + length skip + length ds) t (Some ds)) m' ->
  matches IGNORECASE
    (Seq (Word w) (Seq (Star false (Chr Dot)) (Seq (Group digits) tail)))
    (MS p (x ++ skip ++ ds ++ t) None) m'.
Proof.
  intros w tail p x skip ds t m' Hx Hskip Hd Htail.
  eapply M_Seq.
  { apply word_intro. apply word_accepts_lower. exact Hx. }
  eapply M_Seq.
  { apply star_atom_intro. apply no_newline_dot_run. exact Hskip. }
  eapply M_Seq; [apply group_digits_intro; exact Hd | exact Htail].
Qed.

Lemma accepts_percent : forall ic x,
  accepts ic (Lit "%"%char) x = true -> x = "%"%char.
Proof.
  intros ic x. destruct ic;
    destruct x as [[|] [|] [|] [|] [|] [|] [|] [|]]; vm_compute;
    intros H; try discriminate H; reflexivity.
Qed.

(** A value of a matcher comes from a match. *)
Lemma int_matcher_value : forall limit r text v,
  match re_search IGNORECASE r text with
  | Some mo => v <- py_int limit (group1 mo) ;; Ok (Some v)
  | None => Ok None
  end = Ok (Some v) ->
  exists mo,
    re_search IGNORECASE r text = Some mo
    /\ py_int limit (group1 mo) = Ok v.
Proof.
  intros limit r text v H.
  destruct (re_search IGNORECASE r text) as [mo|]; [|discriminate H].
  exists mo. split; [reflexivity |].
  destruct (py_int limit (group1 mo)) as [n|e]; [|discriminate H].
  cbn [bind] in H. congruence.
Qed.

Lemma humidity_value_read : forall limit text v,
  _extract_humidity limit text = Ok (Some v) ->
  0 <= v
  /\ exists pre w skip ds post,
       reads_after_word (S_ "humidity") text pre w skip ds
         ("%"%char :: post)
       /\ v = digits_value ds.
Proof.
  intros limit text v H. unfold _extract_humidity in H.
  apply int_matcher_value in H. destruct H as (mo & Hs & Hv).
  apply py_int_value in Hv. destruct Hv as (_ & Hval & Hpos & _).
  split; [exact Hpos |].
  apply re_search_some in Hs. destruct Hs as (_ & Hm & _).
  unfold humidity_re in Hm. cbn [Cat] in Hm.
  apply word_skip_digits_inv in Hm; [|reflexivity].
  destruct Hm as (x & skip & ds & m3 & Hrest & Hx & Hskip & Hd & Hgrp & Ht).
  unfold group1 in Hval. rewrite Hgrp in Hval. subst v.
  inv Ht.
  match goal with
  | H1 : matches _ (Chr _) _ _, H2 : matches _ Eps _ _ |- _ =>
      inv H2; inv H1
  end.
  match goal with
  | H : accepts _ (Lit "%"%char) ?c = true |- _ =>
      apply accepts_percent in H; subst c
  end.
  cbn [rest] in Hrest.
  exists (firstn (mstart mo) text), x, skip, ds, t.
  split; [|reflexivity].
  split; [|split; [exact Hx | split; assumption]].
  rewrite <- Hrest. symmetry. apply firstn_skipn.
Qed.

Lemma uv_value_read : forall limit text v,
  _extract_uv_index limit text = Ok (Some v) ->
  0 <= v
  /\ exists pre w skip ds post,
       reads_after_word (S_ "uv") text pre w skip ds post
       /\ v = digits_value ds.
Proof.
  intros limit text v H. unfold _extract_uv_index in H.
  apply int_matcher_value in H. destruct H as (mo & Hs & Hv).
  apply py_int_value in Hv. destruct Hv as (_ & Hval & Hpos & _).
  split; [exact Hpos |].
  apply re_search_some in Hs. destruct Hs as (_ & Hm & _).
  unfold uv_re in Hm. cbn [Cat] in Hm.
  apply word_skip_digits_inv in Hm; [|reflexivity].
  destruct Hm as (x & skip & ds & m3 & Hrest & Hx & Hskip & Hd & Hgrp & Ht).
  unfold group1 in Hval. rewrite Hgrp in Hval. subst v.
  cbn [rest] in Hrest.
  exists (firstn (mstart mo) text), x, skip, ds, (rest m3).
  split; [|reflexivity].
  split; [|split; [exact Hx | split; assumption]].
  rewrite <- Hrest. symmetry. apply firstn_skipn.
Qed.

(** The humidity, when there is one, is the value of digits that stand
    right before a percent sign, after the word "humidity" (in any case)
    on the same line; it is never negative.  And a text that reads so,
    with runs of digits within the limit of [int], has a humidity. *)
Theorem humidity_is_read_before_percent : forall limit text,
  (forall v,
      _extract_humidity limit text = Ok (Some v) ->
      0 <= v
      /\ exists pre w skip ds post,
           reads_after_word (S_ "humidity") text pre w skip ds
             ("%"%char :: post)
           /\ v = digits_value ds)
  /\ (forall pre w skip ds post,
        reads_after_word (S_ "humidity") text pre w skip ds
          ("%"%char :: post) ->
        numerals_within_limit limit text ->
        exists v, _extract_humidity limit text = Ok (Some v)).
Proof.
  intros limit text. split.
  - apply humidity_value_read.
  - intros pre w skip ds post (Ht & Hw & Hskip & Hd) Hlim.
    unfold _extract_humidity.
    apply (int_matcher_present limit text _ humidity_re_captures Hlim).
    exists (length pre). split; [rewrite Ht, length_app; lia |].
    unfold matches_at. rewrite Ht, skipn_app, skipn_all, Nat.sub_diag.
    cbn [skipn app]. eexists. unfold humidity_re. cbn [Cat].
    apply word_skip_digits_intro; [exact Hw | exact Hskip | exact Hd |].
    eapply M_Seq; [|apply M_Eps]. constructor. reflexivity.
Qed.

Lemma humidity_is_read_before_percent_witness :
  exists v,
    _extract_humidity default_max_str_digits
      (S_ "Today: HUMIDITY about 61% at noon") = Ok (Some v).
Proof.
  apply (proj2 (humidity_is_read_before_percent default_max_str_digits
                  (S_ "Today: HUMIDITY about 61% at noon"))
           (S_ "Today: ") (S_ "HUMIDITY") (S_ " about ") (S_ "61")
           (S_ " at noon")).
  - split; [reflexivity |]. split; [reflexivity |].
    split; [|split; [discriminate | reflexivity]].
    intros Hin. simpl in Hin. decompose [or] Hin; try discriminate;
      contradiction.
  - apply short_text_within_limit. vm_compute. lia.
Defined.

(** The UV index, when there is one, is the value of digits that follow
    the letters "uv" (in any case, inside a word too) on the same line,
    and is never negative; within the limit of [int], there is a UV index
    exactly when the text reads so. *)
Theorem uv_index_is_read_after_uv : forall limit text,
  (forall v,
      _extract_uv_index limit text = Ok (Some v) ->
      0 <= v
      /\ exists pre w skip ds post,
           reads_after_word (S_ "uv") text pre w skip ds post
           /\ v = digits_value ds)
  /\ (numerals_within_limit limit text ->
      ((exists v, _extract_uv_index limit text = Ok (Some v))
       <-> exists pre w skip ds post,
             reads_after_word (S_ "uv") text pre w skip ds post)).
Proof.
  intros limit text.
  pose proof (uv_value_read limit text) as Hsound.
  split; [exact Hsound |].
  intros Hlim. split.
  - intros [v Hv]. destruct (Hsound v Hv) as (_ & pre & w & skip & ds & post & Hr & _).
    exists pre, w, skip, ds, post. exact Hr.
  - intros (pre & w & skip & ds & post & Ht & Hw & Hskip & Hd).
    unfold _extract_uv_index.
    apply (int_matcher_present limit text _ uv_re_captures Hlim).
    exists (length pre). split; [rewrite Ht, length_app; lia |].
    unfold matches_at. rewrite Ht, skipn_app, skipn_all, Nat.sub_diag.
    cbn [skipn app]. eexists. unfold uv_re. cbn [Cat].
    apply word_skip_digits_intro; [exact Hw | exact Hskip | exact Hd |].
    apply M_Eps.
Qed.

(** The letters "uv" of "Louvre" make the year a UV index. *)
Lemma uv_index_is_read_after_uv_witness :
  exists v,
    _extract_uv_index default_max_str_digits (S_ "Louvre, Paris 2024")
    = Ok (Some v).
Proof.
  apply (proj2 (uv_index_is_read_after_uv default_max_str_digits
                  (S_ "Louvre, Paris 2024"))).
  - apply short_text_within_limit. vm_compute. lia.
  - exists (S_ "Lo"), (S_ "uv"), (S_ "re, Paris "), (S_ "2024"), [].
    split; [reflexivity |]. split; [reflexivity |].
    split; [|split; [discriminate | reflexivity]].
    intros Hin. simpl in Hin. decompose [or] Hin; try discriminate;
      contradiction.
Defined.

(** A humidity or a UV index that was extracted is never below the range
    of its validator: [validate_humidity] refuses it exactly when it is
    above 100, [validate_uv_index] exactly when it is above 15. *)
Theorem extracted_values_against_validators : forall limit text,
  (forall h,
      _extract_humidity limit text = Ok h ->
      (WeatherDataValidator.validate_humidity h = false
       <-> exists v, h = Some v /\ 100 < v))
  /\ (forall u,
        _extract_uv_index limit text = Ok u ->
        (WeatherDataValidator.validate_uv_index u = false
         <-> exists v, u = Some v /\ 15 < v)).
Proof.
  intros limit text. split.
  - intros [v|] H; cbn [WeatherDataValidator.validate_humidity].
    + destruct (humidity_value_read limit text v H) as [Hpos _].
      replace (0 <=? v) with true by (symmetry; apply Z.leb_le; exact Hpos).
      cbn [andb]. rewrite Z.leb_gt. split.
      * intros Hgt. exists v. split; [reflexivity | exact Hgt].
      * intros (v' & Hv' & Hgt). injection Hv' as <-. exact Hgt.
    + split; [discriminate | intros (v' & Hv' & _); discriminate Hv'].
  - intros [v|] H; cbn [WeatherDataValidator.validate_uv_index].
    + destruct (uv_value_read limit text v H) as [Hpos _].
      replace (0 <=? v) with true by (symmetry; apply Z.leb_le; exact Hpos).
      cbn [andb]. rewrite Z.leb_gt. split.
      * intros Hgt. exists v. split; [reflexivity | exact Hgt].
      * intros (v' & Hv' & Hgt). injection Hv' as <-. exact Hgt.
    + split; [discriminate | intros (v' & Hv' & _); discriminate Hv'].
Qed.

Lemma extracted_values_against_validators_witness :
  _extract_humidity default_max_str_digits (S_ "humidity 250%")
  = Ok (Some 250)
  /\ WeatherDataValidator.validate_humidity (Some 250) = false.
Proof.
  assert (H : _extract_humidity default_max_str_digits (S_ "humidity 250%")
              = Ok (Some 250)) by (vm_compute; reflexivity).
  split; [exact H |].
  apply (proj1 (extracted_values_against_validators default_max_str_digits
                  (S_ "humidity 250%")) (Some 250) H).
  exists 250. split; [reflexivity | lia].
Defined.

(* ================================================================= *)
(** ** Further properties of the record *)

Lemma temperature_loop_natural : forall limit text patterns tc tf,
  temperature_loop limit patterns text = Ok (Some (tc, tf)) ->
  exists n f,
    0 <= n /\ float_of_int n = Ok f
    /\ (if celsius_in_text text then tc = f else tf = f).
Proof.
  intros limit text patterns tc tf.
  induction patterns as [|p ps IH]; cbn [temperature_loop].
  - discriminate.
  - destruct (re_findall IGNORECASE p text) as [|first more]; [exact IH |].
    destruct (py_int limit first) as [n|e] eqn:En; [|discriminate].
    cbn [bind]. apply py_int_value in En. destruct En as (_ & _ & Hpos & _).
    destruct (celsius_in_text text);
      (destruct (float_of_int n) as [f|e] eqn:Ef; [|discriminate]);
      cbn [bind]; intros H; exists n, f;
      (split; [exact Hpos | split; [exact Ef | congruence]]).
Qed.

(** The number a record takes from the page is never negative: what is
    converted is a run of digits, so a minus sign before it is not read.
    The Celsius temperature (when the text holds the marker "°C" or the
    word "celsius") or else the Fahrenheit temperature of every record is
    the float of a natural number. *)
Theorem temperature_read_without_sign : forall limit text cw,
  _extract_current_weather limit text = Some cw ->
  exists n f,
    0 <= n /\ float_of_int n = Ok f
    /\ (celsius_marker_or_word text -> CurrentWeather.temperature cw = f)
    /\ (~ celsius_marker_or_word text ->
        CurrentWeather.temperature_fahrenheit cw = Some f).
Proof.
  intros limit text cw Hcw. unfold _extract_current_weather in Hcw.
  destruct (current_weather_body limit text) as [cw'|e] eqn:Hbody;
    [|discriminate Hcw].
  cbn [catch] in Hcw. injection Hcw as ->.
  destruct (current_weather_body_fields _ _ _ Hbody)
    as (found & Hloop & Htc & Htf & _).
  destruct found as [[tc tf]|].
  - destruct (temperature_loop_natural _ _ _ _ _ Hloop)
      as (n & f & Hpos & Hf & Hval).
    exists n, f. split; [exact Hpos |]. split; [exact Hf |]. split.
    + intros Hmark. apply celsius_in_text_marker in Hmark.
      rewrite Hmark in Hval. congruence.
    + intros Hno. apply celsius_in_text_no_marker in Hno.
      rewrite Hno in Hval. congruence.
  - destruct (celsius_in_text text) eqn:E.
    + exists 25, 25%float. split; [lia |]. split; [reflexivity |]. split.
      * intros _. exact Htc.
      * intros Hno. apply celsius_in_text_no_marker in Hno. congruence.
    + exists 77, 77%float. split; [lia |]. split; [reflexivity |]. split.
      * intros Hmark. apply celsius_in_text_marker in Hmark. congruence.
      * intros _. exact Htf.
Qed.

(** "-5°C" is read as 5 degrees. *)
Lemma temperature_read_without_sign_witness :
  _extract_current_weather default_max_str_digits (S_ "-5" ++ deg :: S_ "C")
  = Some (CurrentWeather.Build 5 (Some 41%float) (S_ "Partly Cloudy")
            None None None None None None None)
  /\ exists n f,
       0 <= n /\ float_of_int n = Ok f
       /\ (celsius_marker_or_word (S_ "-5" ++ deg :: S_ "C") -> 5%float = f).
Proof.
  assert (H : _extract_current_weather default_max_str_digits
                (S_ "-5" ++ deg :: S_ "C")
              = Some (CurrentWeather.Build 5 (Some 41%float)
                        (S_ "Partly Cloudy")
                        None None None None None None None))
    by (vm_compute; reflexivity).
  split; [exact H |].
  destruct (temperature_read_without_sign _ _ _ H)
    as (n & f & Hpos & Hf & Hc & _).
  exists n, f. split; [exact Hpos |]. split; [exact Hf | exact Hc].
Defined.

(** The conditions the scraper returns against the validator of
    conditions: [validate_condition] refuses the condition of a record
    exactly when it is "Rainy" or "Stormy", two keywords of the scraper
    that are not in [VALID_CONDITIONS]. *)
Theorem scraper_conditions_against_validator : forall text,
  WeatherConditionValidator.validate_condition (_extract_condition text)
  = false
  <-> (_extract_condition text = S_ "Rainy"
       \/ _extract_condition text = S_ "Stormy").
Proof.
  intros text.
  assert (Hin : In (_extract_condition text)
                  (S_ "Partly Cloudy" :: map title conditions)).
  { destruct (extract_condition_cases text)
      as [(before & k & after & Hl & _ & _ & ->) | [_ ->]].
    - right. apply in_map. rewrite Hl. apply in_elt.
    - left. reflexivity. }
  simpl in Hin.
  decompose [or] Hin; try contradiction;
    match goal with
    | H : _ = _extract_condition text |- _ => rewrite <- H
    end;
    (split; [intros Hv; vm_compute in Hv; try discriminate Hv; auto
            | intros [Hr | Hr]; try discriminate Hr; reflexivity]).
Qed.

Lemma scraper_conditions_against_validator_witness :
  _extract_condition (S_ "A rainy day") = S_ "Rainy"
  /\ WeatherConditionValidator.validate_condition
       (_extract_condition (S_ "A rainy day")) = false.
Proof.
  assert (H : _extract_condition (S_ "A rainy day") = S_ "Rainy")
    by reflexivity.
  split; [exact H |].
  exact (proj2 (scraper_conditions_against_validator (S_ "A rainy day"))
           (or_introl H)).
Defined.

(** The builder returns a record exactly when the assembler does.  The
    record carries the caller's city and state, the assembler's current
    weather, the label "Bing Weather" and the forecast as it was
    extracted: when the forecast fails (its dates leave the calendar) the
    record is built all the same, without a forecast. *)
Theorem record_built_when_assembled :
  forall limit text city state country clock t,
    (fst (_parse_bing_weather limit text city state country clock t) = None
     <-> _extract_current_weather limit text = None)
    /\ (forall cw,
          _extract_current_weather limit text = Some cw ->
          exists record,
            fst (_parse_bing_weather limit text city state country clock t)
            = Some record
            /\ WeatherResponse.city record = city
            /\ WeatherResponse.state record = state
            /\ WeatherResponse.current_weather record = cw
            /\ WeatherResponse.data_source record = S_ "Bing Weather"
            /\ WeatherResponse.forecast record
               = fst (_extract_forecast_data clock t)
            /\ (forall today,
                  same_day clock today -> MAXORDINAL < today + 6 ->
                  WeatherResponse.forecast record = None)).
Proof.
  intros limit text city state country clock t.
  unfold _parse_bing_weather.
  destruct (_extract_current_weather limit text) as [cw|] eqn:E.
  - destruct (_extract_forecast_data clock t) as [forecast t1] eqn:Ef.
    cbn. split; [split; discriminate |].
    intros cw' Hcw. injection Hcw as <-. eexists.
    split; [reflexivity |]. cbn.
    repeat (split; [reflexivity |]).
    intros today Hday Hover.
    pose proof (extract_forecast_data_value clock today t Hday) as Hv.
    rewrite Ef in Hv. cbn [fst] in Hv. rewrite Hv.
    destruct (collect_raise _ (sample_turn today) (range 7) 6 OverflowError)
      as [e' ->]; [apply range_In; lia | | reflexivity].
    unfold sample_turn. rewrite date_after_overflow by lia. reflexivity.
  - cbn. split; [split; reflexivity |]. intros cw Hcw. discriminate Hcw.
Qed.

(** On 9999-12-28 the forecast cannot be dated; the record is built. *)
Lemma record_built_when_assembled_witness :
  exists record,
    fst (_parse_bing_weather default_max_str_digits sample_text
           (S_ "Pune") None None (noon 3652056) 0) = Some record
    /\ WeatherResponse.forecast record = None.
Proof.
  assert (Hcw : exists cw,
            _extract_current_weather default_max_str_digits sample_text
            = Some cw) by (eexists; vm_compute; reflexivity).
  destruct Hcw as [cw Hcw].
  destruct (proj2 (record_built_when_assembled default_max_str_digits
                     sample_text (S_ "Pune") None None (noon 3652056) 0%nat)
              cw Hcw)
    as (record & Hr & _ & _ & _ & _ & _ & Hnone).
  exists record. split; [exact Hr |].
  apply (Hnone 3652056); [apply noon_same_day | unfold MAXORDINAL; lia].
Defined.

(* ================================================================= *)
(** ** The address that is fetched *)

Lemma spaces_to_plus_no_space : forall s, ~ In " "%char (spaces_to_plus s).
Proof.
  intros s H. unfold spaces_to_plus in H. apply in_map_iff in H.
  destruct H as (c & Hc & _).
  destruct (ascii_eqb c " "%char) eqn:E; [discriminate Hc |].
  subst c. discriminate E.
Qed.

Lemma spaces_to_plus_keeps : forall s c,
  In c s -> c <> " "%char -> In c (spaces_to_plus s).
Proof.
  intros s c Hin Hc. unfold spaces_to_plus. apply in_map_iff.
  exists c. split; [|exact Hin].
  destruct (ascii_eqb c " "%char) eqn:E; [|reflexivity].
  apply ascii_eqb_true in E. contradiction.
Qed.

(** The address [scrape_weather_data] fetches is the search page of
    Bing, then the query with each space turned into "+", then
    "+weather+weather" (the word is added to the query and is in the
    template too).  The query is the city, followed by a space and the
    state when a state that is not empty is given.  So the address holds
    no space, and every other character of the city is there as it is,
    without any escaping. *)
Theorem bing_url_shape : forall city state,
  bing_url city state
  = S_ "https://www.bing.com/search?q="
    ++ map (fun c => if Ascii.eqb c " " then "+"%char else c)
         (city ++ match state with
                  | Some (c :: s) => " "%char :: c :: s
                  | _ => []
                  end)
    ++ S_ "+weather+weather"
  /\ ~ In " "%char (bing_url city state)
  /\ (forall c, In c city -> c <> " "%char -> In c (bing_url city state)).
Proof.
  intros city state. split; [|split].
  - unfold bing_url, spaces_to_plus, ascii_eqb.
    destruct state as [[|x s]|]; rewrite ?app_nil_r, !map_app, <- ?app_assoc;
      reflexivity.
  - unfold bing_url. intros H. apply in_app_or in H. destruct H as [H | H].
    + revert H. vm_compute. intuition discriminate.
    + apply in_app_or in H. destruct H as [H | H].
      * exact (spaces_to_plus_no_space _ H).
      * revert H. vm_compute. intuition discriminate.
  - intros c Hc Hns. unfold bing_url.
    apply in_or_app. right. apply in_or_app. left.
    apply spaces_to_plus_keeps; [|exact Hns].
    apply in_or_app. left.
    destruct state as [[|x s]|]; [exact Hc | | exact Hc].
    apply in_or_app. left. exact Hc.
Qed.

(** A city with "&" and a state: both are in the address, the "&"
    unescaped. *)
Lemma bing_url_shape_witness :
  In "&"%char (bing_url (S_ "Tyne & Wear") (Some (S_ "England")))
  /\ bing_url (S_ "Tyne & Wear") (Some (S_ "England"))
     = S_ "https://www.bing.com/search?q=Tyne+&+Wear+England+weather+weather".
Proof.
  split.
  - apply (proj2 (proj2 (bing_url_shape (S_ "Tyne & Wear")
                           (Some (S_ "England"))))).
    + simpl. tauto.
    + discriminate.
  - exact (proj1 (bing_url_shape (S_ "Tyne & Wear") (Some (S_ "England")))).
Defined.

(* ================================================================= *)
(** ** [helpers.parse_weather_condition] *)

Lemma first_normalized_first : forall found before n ks after,
  (exists k, In k ks /\ found k = true) ->
  (forall n' ks' k, In (n', ks') before -> In k ks' -> found k = false) ->
  first_normalized found (before ++ (n, ks) :: after) = Some n.
Proof.
  intros found before n ks after (k & Hin & Hk).
  induction before as [|[n' ks'] before IH]; intros Hb; cbn [app first_normalized].
  - destruct (first_keyword found ks) eqn:E; [reflexivity |].
    rewrite (proj1 (first_keyword_none found ks) E k Hin) in Hk.
    discriminate Hk.
  - assert (E : first_keyword found ks' = None).
    { apply first_keyword_none. intros k' Hk'.
      apply (Hb n' ks' k'); [left; reflexivity | exact Hk']. }
    rewrite E. apply IH. intros n2 ks2 k2 Hin2.
    apply (Hb n2 ks2 k2). right. exact Hin2.
Qed.

Lemma first_normalized_within : forall found before n ks after k,
  In k ks -> found k = true ->
  exists n', first_normalized found (before ++ (n, ks) :: after) = Some n'
             /\ In n' (map fst before ++ [n]).
Proof.
  intros found before n ks after k Hin Hk.
  induction before as [|[n' ks'] before IH]; cbn [app first_normalized map fst].
  - destruct (first_keyword found ks) eqn:E.
    + exists n. split; [reflexivity | left; reflexivity].
    + rewrite (proj1 (first_keyword_none found ks) E k Hin) in Hk.
      discriminate Hk.
  - destruct (first_keyword found ks').
    + exists n'. split; [reflexivity | left; reflexivity].
    + destruct IH as (n2 & H2 & Hin2). exists n2.
      split; [exact H2 | right; exact Hin2].
Qed.

Lemma occurs_ignoring_case_nonempty : forall k text,
  occurs_ignoring_case k text -> k <> [] -> text <> [].
Proof.
  intros k text (pre & mid & post & -> & Hmid) Hk Hnil.
  apply app_eq_nil in Hnil. destruct Hnil as [_ Hnil].
  apply app_eq_nil in Hnil. destruct Hnil as [-> _].
  apply Hk. symmetry. exact Hmid.
Qed.

Lemma parse_weather_condition_found : forall text n,
  text <> [] ->
  first_normalized (fun keyword => contains keyword (lower text))
    condition_mapping = Some n ->
  parse_weather_condition text = title n.
Proof.
  intros text n Hne H. unfold parse_weather_condition.
  rewrite (str_eqb_nil _ Hne), H. reflexivity.
Qed.

(** The helper answers the title of the first entry of its mapping, in
    the order it is written, one of whose keywords occurs in the text in
    any case. *)
Theorem parse_weather_condition_first_entry : forall text normalized,
  first_entry_with_keyword (fun k => occurs_ignoring_case k text)
    condition_mapping normalized ->
  parse_weather_condition text = title normalized.
Proof.
  intros text n (before & ks & after & Hmap & (k & Hin & Hoc) & Hb).
  assert (Hne : text <> []).
  { apply (occurs_ignoring_case_nonempty k text Hoc).
    assert (Hall : Forall (fun e => Forall (fun k => k <> []) (snd e))
                     condition_mapping)
      by (repeat constructor; discriminate).
    rewrite Forall_forall in Hall.
    assert (Hentry : In (n, ks) condition_mapping)
      by (rewrite Hmap; apply in_elt).
    specialize (Hall _ Hentry). cbn [snd] in Hall.
    rewrite Forall_forall in Hall. apply Hall. exact Hin. }
  apply parse_weather_condition_found; [exact Hne |].
  rewrite Hmap. apply first_normalized_first.
  - exists k. split; [exact Hin | apply contains_lower; exact Hoc].
  - intros n' ks' k' Hin1 Hin2. apply contains_lower_false.
    apply (Hb n' ks' k' Hin1 Hin2).
Qed.

(** "Light rain" is answered "Rain": the entry [rain] comes before the
    entry [drizzle]. *)
Lemma parse_weather_condition_first_entry_witness :
  parse_weather_condition (S_ "Light rain") = S_ "Rain".
Proof.
  apply (parse_weather_condition_first_entry (S_ "Light rain") (S_ "rain")).
  exists (firstn 4 condition_mapping),
         [S_ "rain"; S_ "rainy"; S_ "precipitation"],
         (skipn 5 condition_mapping).
  split; [reflexivity |]. split.
  - exists (S_ "rain"). split; [left; reflexivity |].
    apply contains_lower. reflexivity.
  - intros n ks k Hin Hk. apply contains_lower_false.
    cbn in Hin.
    decompose [or] Hin; try contradiction;
      match goal with
      | H : (_, _) = (n, ks) |- _ => injection H as <- <-
      end;
      cbn in Hk; decompose [or] Hk; try contradiction; subst k;
      reflexivity.
Defined.

(** Two keywords of the helper's mapping never decide the answer,
    because a shorter keyword of an earlier entry occurs wherever they
    do: a text that holds "partly sunny" is answered "Clear" (through
    "sunny"), never "Partly Cloudy"; a text that holds "light rain" is
    answered by one of the entries up to [rain], never "Drizzle". *)
Theorem parse_weather_condition_dead_keywords : forall text,
  (occurs_ignoring_case (S_ "partly sunny") text ->
   parse_weather_condition text = S_ "Clear")
  /\ (occurs_ignoring_case (S_ "light rain") text ->
      In (parse_weather_condition text)
         [S_ "Clear"; S_ "Partly Cloudy"; S_ "Mostly Cloudy"; S_ "Cloudy";
          S_ "Rain"]
      /\ parse_weather_condition text <> S_ "Drizzle").
Proof.
  intros text. split.
  - intros H.
    assert (Hne : text <> [])
      by (apply (occurs_ignoring_case_nonempty _ _ H); discriminate).
    apply (occurs_ignoring_case_part (S_ "partly ") (S_ "sunny") []) in H.
    apply contains_lower in H.
    rewrite (parse_weather_condition_found text (S_ "clear") Hne);
      [reflexivity |].
    apply (first_normalized_first _ [] (S_ "clear")
             [S_ "clear"; S_ "sunny"; S_ "bright"] (tl condition_mapping)).
    + exists (S_ "sunny"). split; [right; left; reflexivity | exact H].
    + intros n' ks' k [].
  - intros H.
    assert (Hne : text <> [])
      by (apply (occurs_ignoring_case_nonempty _ _ H); discriminate).
    apply (occurs_ignoring_case_part (S_ "light ") (S_ "rain") []) in H.
    apply contains_lower in H.
    destruct (first_normalized_within
                (fun keyword => contains keyword (lower text))
                (firstn 4 condition_mapping) (S_ "rain")
                [S_ "rain"; S_ "rainy"; S_ "precipitation"]
                (skipn 5 condition_mapping) (S_ "rain")
                (or_introl eq_refl) H) as (n & Hn & Hin).
    rewrite (parse_weather_condition_found text n Hne Hn).
    cbn in Hin.
    decompose [or] Hin; try contradiction; subst n;
      (split; [cbn; tauto | discriminate]).
Qed.

Lemma parse_weather_condition_dead_keywords_witness :
  parse_weather_condition (S_ "Partly sunny") = S_ "Clear".
Proof.
  apply (proj1 (parse_weather_condition_dead_keywords (S_ "Partly sunny"))).
  exists [], (S_ "Partly sunny"), []. split; reflexivity.
Defined.

(** The helper and the scraper's matcher of conditions do not agree: on
    a text that holds "partly cloudy" and none of "clear", "sunny" and
    "bright", the helper answers "Partly Cloudy" and the matcher
    "Cloudy". *)
Theorem condition_parsers_disagree : forall text,
  occurs_ignoring_case (S_ "partly cloudy") text ->
  ~ occurs_ignoring_case (S_ "clear") text ->
  ~ occurs_ignoring_case (S_ "sunny") text ->
  ~ occurs_ignoring_case (S_ "bright") text ->
  parse_weather_condition text = S_ "Partly Cloudy"
  /\ _extract_condition text = S_ "Cloudy".
Proof.
  intros text Hpc Hclear Hsunny Hbright. split.
  - assert (Hne : text <> [])
      by (apply (occurs_ignoring_case_nonempty _ _ Hpc); discriminate).
    rewrite (parse_weather_condition_found text (S_ "partly cloudy") Hne);
      [reflexivity |].
    apply (first_normalized_first _ (firstn 1 condition_mapping)
             (S_ "partly cloudy")
             [S_ "partly cloudy"; S_ "partly sunny"; S_ "few clouds"]
             (skipn 2 condition_mapping)).
    + exists (S_ "partly cloudy").
      split; [left; reflexivity | apply contains_lower; exact Hpc].
    + intros n ks k Hin Hk. apply contains_lower_false.
      cbn in Hin. destruct Hin as [Hin | []]. injection Hin as <- <-.
      cbn in Hk. decompose [or] Hk; try contradiction; subst k; assumption.
  - apply extract_condition_cloudy; [exact Hsunny |].
    apply (occurs_ignoring_case_part (S_ "partly ") (S_ "cloudy") []).
    exact Hpc.
Qed.

Lemma condition_parsers_disagree_witness :
  parse_weather_condition (S_ "Partly cloudy, 31 degrees")
  = S_ "Partly Cloudy"
  /\ _extract_condition (S_ "Partly cloudy, 31 degrees") = S_ "Cloudy".
Proof.
  apply (condition_parsers_disagree (S_ "Partly cloudy, 31 degrees")).
  - exists [], (S_ "Partly cloudy"), (S_ ", 31 degrees").
    split; reflexivity.
  - apply contains_lower_false. reflexivity.
  - apply contains_lower_false. reflexivity.
  - apply contains_lower_false. reflexivity.
Defined.

(* ================================================================= *)
(** ** [helpers.format_wind_direction] and the conversions *)

Lemma whole_degrees_In : forall lo hi n,
  lo <= n <= hi -> In n (whole_degrees lo hi).
Proof.
  intros lo hi n H. unfold whole_degrees. apply in_map_iff.
  exists (Z.to_nat (n - lo)). split; [lia |].
  apply in_seq. lia.
Qed.

Lemma item_in_range : forall (A : Type) (l : list A) i,
  0 <= i < Z.of_nat (length l) ->
  exists a, item l i = Returns a /\ In a l.
Proof.
  intros A l i H. unfold item.
  destruct (nth_error l (Z.to_nat i)) as [a|] eqn:E.
  - exists a. split; [reflexivity |]. exact (nth_error_In _ _ E).
  - apply nth_error_None in E. lia.
Qed.

Lemma py_round_outcome : forall x,
  match Prim2SF x with
  | S754_nan => py_round x = Raise ValueError
  | S754_infinity _ => py_round x = Raise OverflowError
  | _ => exists n, py_round x = Ok n
  end.
Proof.
  intros x. unfold py_round.
  destruct (Prim2SF x); try reflexivity; eexists; reflexivity.
Qed.

(** [format_wind_direction] never indexes its list out of range: with no
    degrees it answers "Variable"; with degrees whose quotient by 22.5
    is a number it answers one of the sixteen labels, whatever the sign
    or the size of the degrees; a NaN raises [ValueError] and an
    infinity [OverflowError], both from [round]. *)
Theorem format_wind_direction_outcomes : forall degrees,
  match degrees with
  | None => format_wind_direction degrees = Returns (S_ "Variable")
  | Some d =>
      match Prim2SF (d / 22.5)%float with
      | S754_nan => format_wind_direction degrees = Raises ValueError
      | S754_infinity _ =>
          format_wind_direction degrees = Raises OverflowError
      | _ => exists label,
               format_wind_direction degrees = Returns label
               /\ In label compass
      end
  end.
Proof.
  intros [d|]; [|reflexivity]. unfold format_wind_direction.
  pose proof (py_round_outcome (d / 22.5)%float) as H.
  destruct (Prim2SF (d / 22.5)%float).
  - destruct H as [n ->]. apply item_in_range.
    change (Z.of_nat (length compass)) with 16. apply Z.mod_pos_bound. lia.
  - rewrite H. reflexivity.
  - rewrite H. reflexivity.
  - destruct H as [n ->]. apply item_in_range.
    change (Z.of_nat (length compass)) with 16. apply Z.mod_pos_bound. lia.
Qed.

Ltac each_degree tac :=
  repeat (apply Forall_cons; [tac |]); apply Forall_nil.

Lemma sector_labels : Forall sector_label (whole_degrees (-360) 720).
Proof.
  let l := eval vm_compute in (whole_degrees (-360) 720) in
  change (Forall sector_label l).
  each_degree ltac:(unfold sector_label; intros f H; vm_compute in H;
                    injection H as <-; vm_compute; reflexivity).
Qed.

(** For every whole number of degrees from -360 to 720 the label is that
    of the sector of 22.5 degrees the direction lies in, sectors being
    centred on the sixteen points and counted round the compass: degrees
    below 0 and above 360 wrap around. *)
Theorem wind_direction_sectors : forall n,
  -360 <= n <= 720 -> sector_label n.
Proof.
  intros n H. pose proof sector_labels as Hall.
  rewrite Forall_forall in Hall. apply Hall.
  apply whole_degrees_In. exact H.
Qed.

Lemma wind_direction_sectors_witness :
  format_wind_direction (Some (-45)%float) = Returns (S_ "NW").
Proof.
  refine (wind_direction_sectors (-45) _ (-45)%float _).
  - lia.
  - vm_compute. reflexivity.
Defined.

Lemma fahrenheit_round_trips :
  Forall fahrenheit_round_trip (whole_degrees (-148) 140).
Proof.
  let l := eval vm_compute in (whole_degrees (-148) 140) in
  change (Forall fahrenheit_round_trip l).
  each_degree ltac:(unfold fahrenheit_round_trip; intros f H;
                    vm_compute in H; injection H as <-;
                    repeat split; vm_compute; reflexivity).
Qed.

(** The conversions of [TemperatureValidator] against its ranges: every
    whole Fahrenheit temperature of the accepted range, converted to
    Celsius and back, is itself again, and its Celsius temperature is in
    the accepted Celsius range.  The other way round is not exact: 1
    degree Celsius does not come back as 1. *)
Theorem fahrenheit_celsius_round_trip :
  (forall n, -148 <= n <= 140 -> fahrenheit_round_trip n)
  /\ TemperatureValidator.validate_celsius 1 = true
  /\ fahrenheit_to_celsius (celsius_to_fahrenheit 1) <> 1%float.
Proof.
  split; [|split].
  - intros n H. pose proof fahrenheit_round_trips as Hall.
    rewrite Forall_forall in Hall. apply Hall.
    apply whole_degrees_In. exact H.
  - reflexivity.
  - intros H.
    apply (f_equal (fun x => PrimFloat.eqb x 1%float)) in H.
    vm_compute in H. discriminate H.
Qed.

Lemma fahrenheit_celsius_round_trip_witness :
  celsius_to_fahrenheit (fahrenheit_to_celsius 99) = 99%float.
Proof.
  refine (proj1 (proj1 fahrenheit_celsius_round_trip 99 _ 99%float _)).
  - lia.
  - vm_compute. reflexivity.
Defined.

(* ================================================================= *)
(** ** [CityValidator.sanitize_city_name] *)

Ltac each_char c := destruct c as [[] [] [] [] [] [] [] []].

Lemma title_char_space : forall (b : bool) c,
  is_space (if b then lower_char c else upper_char_ascii c) = is_space c.
Proof. intros [] c; each_char c; vm_compute; reflexivity. Qed.

Lemma title_char_letter : forall (b : bool) c,
  is_letter_ascii (if b then lower_char c else upper_char_ascii c)
  = is_letter_ascii c.
Proof. intros [] c; each_char c; vm_compute; reflexivity. Qed.

Lemma title_char_again : forall (b : bool) c,
  let t x := if b then lower_char x else upper_char_ascii x in
  t (t c) = t c.
Proof. intros [] c; each_char c; vm_compute; reflexivity. Qed.

Lemma title_char_city : forall (b : bool) c,
  city_char c ->
  city_char (if b then lower_char c else upper_char_ascii c).
Proof.
  intros b c H. apply city_class_accepts. apply city_class_accepts in H.
  revert H. destruct b; each_char c; vm_compute; exact (fun H => H).
Qed.

Lemma title_from_length : forall s b, length (title_from b s) = length s.
Proof.
  induction s as [|c s IH]; intros b; simpl; [reflexivity |].
  rewrite IH. reflexivity.
Qed.

Lemma title_from_Forall : forall (P : ascii -> Prop),
  (forall (b : bool) c,
      P c -> P (if b then lower_char c else upper_char_ascii c)) ->
  forall s b, Forall P s -> Forall P (title_from b s).
Proof.
  intros P HP. induction s as [|c s IH]; intros b H; simpl.
  - constructor.
  - inversion H; subst. constructor; [apply HP; assumption | apply IH; assumption].
Qed.

Lemma title_from_again : forall s b,
  title_from b (title_from b s) = title_from b s.
Proof.
  induction s as [|c s IH]; intros b; cbn [title_from]; [reflexivity |].
  rewrite title_char_letter, IH. f_equal.
  exact (title_char_again b c).
Qed.

Lemma title_from_word_space : forall w b rest,
  title_from b (w ++ S_ " " ++ rest)
  = title_from b w ++ S_ " " ++ title_from false rest.
Proof.
  induction w as [|c w IH]; intros b rest.
  - destruct b; reflexivity.
  - cbn [app title_from]. f_equal. apply IH.
Qed.

Lemma title_join : forall ws,
  title (join (S_ " ") ws) = join (S_ " ") (map title ws).
Proof.
  unfold title. induction ws as [|w [|w2 ws] IH].
  - reflexivity.
  - reflexivity.
  - change (join (S_ " ") (w :: w2 :: ws))
      with (w ++ S_ " " ++ join (S_ " ") (w2 :: ws)).
    rewrite title_from_word_space, IH. reflexivity.
Qed.

Lemma words_title : forall ws, words ws -> words (map title ws).
Proof.
  unfold words. intros ws H. induction H as [|w ws [Hne Hw] _ IH]; simpl.
  - constructor.
  - constructor; [|exact IH]. split.
    + intros E. apply (f_equal (@length ascii)) in E.
      unfold title in E. rewrite title_from_length in E.
      destruct w; [contradiction | discriminate].
    + apply title_from_Forall; [|exact Hw].
      intros b c Hc. rewrite title_char_space. exact Hc.
Qed.

(** The words of a text. *)
Lemma split_whitespace_cons : forall c s,
  is_space c = false ->
  exists w ws, split_whitespace (c :: s) = (c :: w) :: ws.
Proof.
  intros c s Hc. cbn [split_whitespace]. rewrite Hc.
  destruct s as [|d s']; [exists [], []; reflexivity |].
  destruct (is_space d); [eexists; eexists; reflexivity |].
  destruct (split_whitespace (d :: s')); eexists; eexists; reflexivity.
Qed.

Lemma split_whitespace_words : forall s, words (split_whitespace s).
Proof.
  unfold words. induction s as [|c s IH]; [constructor |].
  cbn [split_whitespace]. destruct (is_space c) eqn:Ec; [exact IH |].
  destruct s as [|d s'].
  - repeat constructor; [discriminate | exact Ec].
  - destruct (is_space d) eqn:Ed.
    + constructor; [|exact IH].
      split; [discriminate | repeat constructor; exact Ec].
    + destruct (split_whitespace (d :: s')) as [|w ws].
      * repeat constructor; [discriminate | exact Ec].
      * inversion IH as [|? ? [Hne Hw] Hws]; subst.
        constructor; [|exact Hws].
        split; [discriminate | constructor; assumption].
Qed.

Lemma split_whitespace_Forall : forall (P : ascii -> Prop) s,
  Forall P s -> Forall (Forall P) (split_whitespace s).
Proof.
  intros P. induction s as [|c s IH]; intros H; [constructor |].
  inversion H as [|? ? Hc Hs]; subst. specialize (IH Hs).
  cbn [split_whitespace]. destruct (is_space c); [exact IH |].
  destruct s as [|d s'].
  - repeat constructor. exact Hc.
  - destruct (is_space d).
    + constructor; [repeat constructor; exact Hc | exact IH].
    + destruct (split_whitespace (d :: s')) as [|w ws].
      * repeat constructor. exact Hc.
      * inversion IH; subst. constructor; [constructor |]; assumption.
Qed.

Lemma split_whitespace_concat : forall s,
  concat (split_whitespace s) = filter (fun c => negb (is_space c)) s.
Proof.
  induction s as [|c s IH]; [reflexivity |].
  cbn [split_whitespace filter]. destruct (is_space c) eqn:Ec; cbn [negb].
  - exact IH.
  - destruct s as [|d s']; [reflexivity |].
    destruct (is_space d) eqn:Ed.
    + cbn [concat app]. rewrite IH. reflexivity.
    + destruct (split_whitespace_cons d s' Ed) as (w & ws & E).
      rewrite E in *. cbn [concat app] in *. rewrite IH. reflexivity.
Qed.

Lemma split_whitespace_word_space : forall w rest,
  w <> [] -> Forall (fun c => is_space c = false) w ->
  split_whitespace (w ++ S_ " " ++ rest) = w :: split_whitespace rest.
Proof.
  induction w as [|c w IH]; intros rest Hne Hw; [contradiction |].
  inversion Hw as [|? ? Hc Hw']; subst.
  destruct w as [|c2 w].
  - cbn [app split_whitespace S_]. rewrite Hc. reflexivity.
  - assert (H2 : is_space c2 = false) by (inversion Hw'; assumption).
    specialize (IH rest ltac:(discriminate) Hw').
    change ((c :: c2 :: w) ++ S_ " " ++ rest)
      with (c :: (c2 :: w) ++ S_ " " ++ rest).
    remember ((c2 :: w) ++ S_ " " ++ rest) as tail eqn:Et.
    cbn [split_whitespace]. rewrite Hc.
    destruct tail as [|d tail']; [discriminate Et |].
    assert (d = c2) by (cbn in Et; congruence). subst d.
    rewrite H2, IH. reflexivity.
Qed.

Lemma split_whitespace_word : forall w,
  w <> [] -> Forall (fun c => is_space c = false) w ->
  split_whitespace w = [w].
Proof.
  induction w as [|c w IH]; intros Hne Hw; [contradiction |].
  inversion Hw as [|? ? Hc Hw']; subst.
  cbn [split_whitespace]. rewrite Hc.
  destruct w as [|c2 w]; [reflexivity |].
  assert (H2 : is_space c2 = false) by (inversion Hw'; assumption).
  rewrite H2, (IH ltac:(discriminate) Hw'). reflexivity.
Qed.

(** Joining words with one space and splitting again gives the words. *)
Lemma split_whitespace_join : forall ws,
  words ws -> split_whitespace (join (S_ " ") ws) = ws.
Proof.
  unfold words. induction ws as [|w [|w2 ws] IH]; intros H.
  - reflexivity.
  - inversion H as [|? ? [Hne Hw] _]; subst.
    apply split_whitespace_word; assumption.
  - inversion H as [|? ? [Hne Hw] Hrest]; subst.
    change (join (S_ " ") (w :: w2 :: ws))
      with (w ++ S_ " " ++ join (S_ " ") (w2 :: ws)).
    rewrite (split_whitespace_word_space _ _ Hne Hw), (IH Hrest).
    reflexivity.
Qed.

Lemma join_Forall : forall (P : ascii -> Prop) ws,
  P " "%char -> Forall (Forall P) ws -> Forall P (join (S_ " ") ws).
Proof.
  intros P ws Hsp. induction ws as [|w [|w2 ws] IH]; intros H.
  - constructor.
  - inversion H; assumption.
  - inversion H as [|? ? Hw Hrest]; subst.
    change (join (S_ " ") (w :: w2 :: ws))
      with (w ++ S_ " " ++ join (S_ " ") (w2 :: ws)).
    apply Forall_app. split; [exact Hw |].
    constructor; [exact Hsp | exact (IH Hrest)].
Qed.

Lemma join_length : forall ws,
  (length (concat ws) <= length (join (S_ " ") ws))%nat.
Proof.
  induction ws as [|w [|w2 ws] IH].
  - simpl. lia.
  - simpl. rewrite app_nil_r. lia.
  - change (join (S_ " ") (w :: w2 :: ws))
      with (w ++ S_ " " ++ join (S_ " ") (w2 :: ws)).
    change (concat (w :: w2 :: ws)) with (w ++ concat (w2 :: ws)).
    rewrite !length_app. lia.
Qed.

(** Whitespace at the ends. *)
Lemma lstrip_start : forall s,
  lstrip s = [] \/ exists c u, lstrip s = c :: u /\ is_space c = false.
Proof.
  induction s as [|c s IH]; [left; reflexivity |].
  cbn [lstrip]. destruct (is_space c) eqn:E; [exact IH |].
  right. exists c, s. split; [reflexivity | exact E].
Qed.

Lemma lstrip_keeps_end : forall a c,
  is_space c = false -> lstrip (a ++ [c]) = lstrip a ++ [c].
Proof.
  intros a c Hc. induction a as [|x a IH]; cbn [app lstrip].
  - rewrite Hc. reflexivity.
  - destruct (is_space x); [exact IH | reflexivity].
Qed.

Lemma lstrip_fixed : forall c s,
  is_space c = false -> lstrip (c :: s) = c :: s.
Proof. intros c s H. cbn [lstrip]. rewrite H. reflexivity. Qed.

(** A stripped text of two characters or more starts and ends with
    characters that are not whitespace. *)
Lemma strip_ends : forall s,
  (2 <= length (strip s))%nat ->
  exists c mid d,
    strip s = c :: mid ++ [d] /\ is_space c = false /\ is_space d = false.
Proof.
  intros s Hlen. unfold strip, rstrip in *.
  destruct (lstrip_start s) as [E | (c & u & E & Hc)].
  - rewrite E in Hlen. simpl in Hlen. lia.
  - rewrite E in *. cbn [rev] in *.
    rewrite (lstrip_keeps_end _ _ Hc) in *.
    rewrite rev_app_distr in *. cbn [rev app] in *.
    destruct (lstrip_start (rev u)) as [E2 | (d & v & E2 & Hd)].
    + rewrite E2 in Hlen. simpl in Hlen. lia.
    + rewrite E2. cbn [rev]. exists c, (rev v), d.
      split; [reflexivity | split; assumption].
Qed.

Lemma strip_fixed : forall c mid d,
  is_space c = false -> is_space d = false ->
  strip (c :: mid ++ [d]) = c :: mid ++ [d].
Proof.
  intros c mid d Hc Hd. unfold strip, rstrip.
  rewrite (lstrip_fixed _ _ Hc).
  change (c :: mid ++ [d]) with ((c :: mid) ++ [d]).
  rewrite rev_app_distr. cbn [rev app].
  rewrite (lstrip_fixed _ _ Hd).
  change (d :: rev mid ++ [c]) with ([d] ++ rev (c :: mid)).
  rewrite rev_app_distr, rev_involutive. reflexivity.
Qed.

Lemma join_ends : forall ws,
  words ws -> ws <> [] ->
  (exists c u, join (S_ " ") ws = c :: u /\ is_space c = false)
  /\ (exists d v, rev (join (S_ " ") ws) = d :: v /\ is_space d = false).
Proof.
  unfold words. induction ws as [|w [|w2 ws] IH]; intros H Hne.
  - contradiction.
  - inversion H as [|? ? [Hw Hall] _]; subst. cbn [join]. split.
    + destruct w as [|c u]; [contradiction |].
      exists c, u. split; [reflexivity |]. inversion Hall; assumption.
    + destruct (rev w) as [|d v] eqn:E.
      * apply (f_equal (@rev ascii)) in E. rewrite rev_involutive in E.
        contradiction.
      * exists d, v. split; [reflexivity |].
        rewrite Forall_forall in Hall. apply Hall.
        apply in_rev. rewrite E. left. reflexivity.
  - inversion H as [|? ? [Hw Hall] Hrest]; subst.
    change (join (S_ " ") (w :: w2 :: ws))
      with (w ++ S_ " " ++ join (S_ " ") (w2 :: ws)).
    destruct (IH Hrest ltac:(discriminate)) as [_ (d & v & E & Hd)].
    split.
    + destruct w as [|c u]; [contradiction |].
      eexists c, _. split; [reflexivity |]. inversion Hall; assumption.
    + rewrite !rev_app_distr, E. eexists d, _.
      split; [reflexivity | exact Hd].
Qed.

Lemma strip_join : forall ws,
  words ws -> strip (join (S_ " ") ws) = join (S_ " ") ws.
Proof.
  intros ws H. destruct ws as [|w ws]; [reflexivity |].
  destruct (join_ends _ H ltac:(discriminate))
    as [(c & u & E & Hc) (d & v & Er & Hd)].
  unfold strip, rstrip. rewrite E, (lstrip_fixed _ _ Hc), <- E, Er.
  rewrite (lstrip_fixed _ _ Hd), <- Er. apply rev_involutive.
Qed.

Lemma sanitize_city_name_words : forall city,
  city <> [] ->
  exists ws,
    words ws /\ sanitize_city_name city = join (S_ " ") (map title ws)
    /\ ws = split_whitespace (strip city).
Proof.
  intros city Hne. exists (split_whitespace (strip city)).
  split; [apply split_whitespace_words |]. split; [|reflexivity].
  unfold sanitize_city_name. rewrite (str_eqb_nil _ Hne).
  apply title_join.
Qed.

Lemma sanitize_city_name_again : forall city,
  sanitize_city_name (sanitize_city_name city) = sanitize_city_name city.
Proof.
  intros city. destruct city as [|c city']; [reflexivity |].
  destruct (sanitize_city_name_words (c :: city') ltac:(discriminate))
    as (ws & Hws & E & _).
  rewrite E. pose proof (words_title _ Hws) as Hws'.
  unfold sanitize_city_name.
  destruct (str_eqb (join (S_ " ") (map title ws)) []) eqn:Enil.
  - destruct (join (S_ " ") (map title ws)); [reflexivity | discriminate].
  - rewrite (strip_join _ Hws'), (split_whitespace_join _ Hws').
    rewrite title_join, map_map. f_equal. apply map_ext.
    intros w. apply title_from_again.
Qed.

(** What [LocationValidator] stores for a city it has accepted: the
    sanitized name is accepted again by [validate_city_name], it has no
    whitespace at its ends, and sanitizing it once more changes
    nothing. *)
Theorem sanitized_city_name_is_valid : forall city,
  CityValidator.validate_city_name city = true ->
  CityValidator.validate_city_name (sanitize_city_name city) = true
  /\ strip (sanitize_city_name city) = sanitize_city_name city
  /\ sanitize_city_name (sanitize_city_name city) = sanitize_city_name city.
Proof.
  intros city Hvalid.
  change (validate_city_name city = true) in Hvalid.
  change (CityValidator.validate_city_name (sanitize_city_name city))
    with (validate_city_name (sanitize_city_name city)).
  apply validate_city_name_spec in Hvalid. destruct Hvalid as [Hlen Hall].
  assert (Hne : city <> []).
  { intros ->. simpl in Hlen. lia. }
  destruct (sanitize_city_name_words city Hne) as (ws & Hws & E & Ews).
  pose proof (words_title _ Hws) as Hws'.
  assert (Hstrip : strip (sanitize_city_name city) = sanitize_city_name city)
    by (rewrite E; apply strip_join; exact Hws').
  split; [|split; [exact Hstrip | apply sanitize_city_name_again]].
  apply validate_city_name_spec. rewrite Hstrip. split.
  - rewrite E, <- title_join. unfold title. rewrite title_from_length.
    eapply Nat.le_trans; [|apply join_length].
    rewrite Ews, split_whitespace_concat.
    destruct (strip_ends city Hlen) as (c & mid & d & -> & Hc & Hd).
    cbn [filter]. rewrite Hc. cbn [negb length].
    rewrite filter_app, length_app. cbn [filter]. rewrite Hd.
    cbn [negb length]. lia.
  - rewrite E, <- title_join. unfold title.
    apply title_from_Forall; [exact title_char_city |].
    apply join_Forall; [right; left; reflexivity |].
    rewrite Ews. apply split_whitespace_Forall. exact Hall.
Qed.

Lemma sanitized_city_name_is_valid_witness :
  sanitize_city_name (S_ "  new   delhi ") = S_ "New Delhi"
  /\ CityValidator.validate_city_name
       (sanitize_city_name (S_ "  new   delhi ")) = true.
Proof.
  split; [reflexivity |].
  refine (proj1 (sanitized_city_name_is_valid (S_ "  new   delhi ") _)).
  reflexivity.
Defined.

(* ================================================================= *)
(** ** The request and the handlers *)

Lemma parse_bing_weather_record : forall limit text city state country
    clock t record,
  fst (_parse_bing_weather limit text city state country clock t)
  = Some record ->
  _extract_current_weather limit text
  = Some (WeatherResponse.current_weather record)
  /\ WeatherResponse.city record = city
  /\ WeatherResponse.country record = country_or_India country.
Proof.
  intros limit text city state country clock t record.
  unfold _parse_bing_weather.
  destruct (_extract_current_weather limit text) as [cw|];
    [|discriminate].
  destruct (_extract_forecast_data clock t) as [forecast t1].
  cbn. intros H. injection H as <-. cbn. repeat split.
Qed.

(** [scrape_weather_data] gives a record only when the request was
    answered with status 200 and the text of the page could be
    assembled; the record is then named after the caller's city, not
    after anything on the page.  When the request raises or has another
    status, there is no record and the clock is not read. *)
Theorem scrape_weather_data_needs_status_200 :
  forall http_get soup_text limit city state country clock t,
    (forall record,
        fst (scrape_weather_data http_get soup_text limit city state country
               clock t) = Some record ->
        exists html,
          http_get (bing_url city state) = Ok (200, html)
          /\ _extract_current_weather limit (soup_text html)
             = Some (WeatherResponse.current_weather record)
          /\ WeatherResponse.city record = city
          /\ WeatherResponse.country record = country_or_India country)
    /\ ((forall html, http_get (bing_url city state) <> Ok (200, html)) ->
        scrape_weather_data http_get soup_text limit city state country
          clock t = (None, t)).
Proof.
  intros http_get soup_text limit city state country clock t.
  unfold scrape_weather_data.
  destruct (http_get (bing_url city state)) as [[status html]|e].
  - destruct (status =? 200) eqn:E.
    + apply Z.eqb_eq in E. subst status. split.
      * intros record H. exists html. split; [reflexivity |].
        exact (parse_bing_weather_record _ _ _ _ _ _ _ _ H).
      * intros H. exfalso. exact (H html eq_refl).
    + split; [discriminate | reflexivity].
  - split; [discriminate | reflexivity].
Qed.

Lemma scrape_weather_data_needs_status_200_witness :
  scrape_weather_data (fun _ => Ok (503, sample_text)) (fun html => html)
    default_max_str_digits (S_ "Pune") None None (noon 739923) 0
  = (None, 0%nat).
Proof.
  apply (proj2 (scrape_weather_data_needs_status_200
                  (fun _ => Ok (503, sample_text)) (fun html => html)
                  default_max_str_digits (S_ "Pune") None None
                  (noon 739923) 0%nat)).
  intros html H. discriminate H.
Defined.

Lemma try_except_found : forall (A : Type) (data : option A) detail handler,
  try_except (found_or_404 data detail) handler
  = match data with
    | Some a => Body a
    | None => handler
    end.
Proof. intros A [a|] detail handler; reflexivity. Qed.

(** The handlers of a weather record never answer with status 404: the
    [HTTPException] they raise for a missing record is raised inside
    their own [try], whose [except Exception] turns it into a status
    500.  They answer the record when there is one. *)
Theorem weather_handlers_never_answer_404 :
  forall http_get soup_text limit city state country clock t,
    let scraped s c :=
      fst (scrape_weather_data http_get soup_text limit city s c clock t) in
    fst (get_weather http_get soup_text limit city clock t)
    = match scraped None None with
      | Some record => Body record
      | None => HTTPException 500 (S_ "Failed to fetch weather data")
      end
    /\ fst (search_weather http_get soup_text limit city state country
              clock t)
       = match scraped state country with
         | Some record => Body record
         | None => HTTPException 500 (S_ "Failed to search weather data")
         end.
Proof.
  intros http_get soup_text limit city state country clock t.
  unfold get_weather, search_weather. cbv zeta. split.
  - destruct (scrape_weather_data http_get soup_text limit city None None
                clock t) as [data t'].
    cbn [fst]. apply try_except_found.
  - destruct (scrape_weather_data http_get soup_text limit city state
                country clock t) as [data t'].
    cbn [fst]. apply try_except_found.
Qed.

(** The forecast handler on a day [today] of the calendar: when the
    dates asked for stay in the calendar (and for no or a negative
    number of days) it answers the forecast; when they pass 9999-12-31
    it answers with status 500, never with 404. *)
Theorem forecast_handler_status : forall city days clock today t,
  same_day clock today -> 1 <= today <= MAXORDINAL ->
  fst (get_weather_forecast city days clock t)
  = if today + days - 1 <=? MAXORDINAL
    then Body (ForecastData.Build city days
                 (map (endpoint_entry today) (range days)))
    else HTTPException 500 (S_ "Failed to fetch forecast data").
Proof.
  intros city days clock today t Hday Htoday.
  unfold get_weather_forecast.
  destruct (scrape_forecast_data city days clock t) as [data t'] eqn:E.
  cbn [fst]. rewrite try_except_found.
  assert (Hdata : data = fst (scrape_forecast_data city days clock t))
    by (rewrite E; reflexivity).
  destruct (today + days - 1 <=? MAXORDINAL) eqn:Hle.
  - apply Z.leb_le in Hle.
    rewrite (scrape_forecast_data_in_range city days clock today t Hday)
      in Hdata by lia.
    rewrite Hdata. reflexivity.
  - apply Z.leb_gt in Hle.
    rewrite (scrape_forecast_data_overflow city days clock today t Hday)
      in Hdata by lia.
    rewrite Hdata. reflexivity.
Qed.

Lemma forecast_handler_status_witness :
  fst (get_weather_forecast (S_ "Pune") 3000000 (noon 739923) 0)
  = HTTPException 500 (S_ "Failed to fetch forecast data").
Proof.
  refine (forecast_handler_status (S_ "Pune") 3000000 (noon 739923)
            739923 0%nat _ _).
  - apply noon_same_day.
  - unfold MAXORDINAL. lia.
Defined.
